(** * excel-exporter: the export orchestration of [exporter.go]

    A shallow embedding of [Export], [exportUsingStreamWriter],
    [exportUsingMemory], [exportHelper] and [UseRowChan], the properties of
    the natural-language specification that are about them, and further
    properties of the code: where every row goes, which calls each strategy
    makes, how errors come back, when the file is saved and closed, and what
    the calls of [UseRowChan]'s closure return under every schedule.

    The workbook library (excelize) is an external collaborator.  It is an
    interface here ([Backend]): every theorem about the orchestrator holds for
    every implementation of it, and talks about the sequence of calls the
    orchestrator makes ([trace]), each recorded with the error it returned. *)

From Stdlib Require Import ZArith List String Bool Lia DecimalString DecimalZ.
Import ListNotations.
Local Open Scope string_scope.
Local Open Scope list_scope.
Local Open Scope Z_scope.

Set Implicit Arguments.

(** ** Go values *)

(** Go's [error]: an opaque message, or [fmt.Errorf("<context>%w", err)]. *)
Inductive error : Type :=
| ErrorString (msg : string)
| Wrapf (context : string) (cause : error).

(** [x] is [x0], as it is or wrapped once with a context. *)
Definition carries (x x0 : error) : Prop :=
  x = x0 \/ exists context, x = Wrapf context x0.

(** Go's [int] is taken at 64 bits, two's complement; [++] wraps around. *)
Definition wrapInt (z : Z) : Z := (z + 2 ^ 63) mod 2 ^ 64 - 2 ^ 63.
Definition incr (z : Z) : Z := wrapInt (z + 1).

(** [const SheetMaxRows = 1 << 20] *)
Definition SheetMaxRows : Z := Z.shiftl 1 20.

(** [fmt.Sprintf("%s_%d", name, suffix)] *)
Definition formatInt (z : Z) : string := NilZero.string_of_int (Z.to_int z).
Definition Sprintf_s_d (name : string) (suffix : Z) : string :=
  (name ++ "_" ++ formatInt suffix)%string.

(** Modelled from the spec: the declarations of [Row], [Cell] and [MergeCell]
    are not in exporter.go; the fields are the ones the code reads
    ([row.Cells], [row.MergeCells], [row.RowOpts], [cell.Value],
    [cell.StyleID], [cell.Formula], [mergeCell.TopLeftCell],
    [mergeCell.BottomRightCell]) with the types section 3 of the spec gives
    them.  A nil [Cells] slice is [None]; a present, empty one is [Some []]. *)
Inductive CellValue : Type :=
| VNil
| VInt (z : Z)
| VBool (b : bool)
| VString (s : string).

Record Cell : Type := mkCell
  { Value : CellValue; StyleID : Z; Formula : string }.

Record MergeCell : Type := mkMergeCell
  { TopLeftCell : string; BottomRightCell : string }.

(** A row option is opaque: the code only forwards [row.RowOpts...] to
    [SetRow]. *)
Inductive RowOpt : Type := rowOpt (token : Z).

Record Row : Type := mkRow
  { Cells : option (list Cell); MergeCells : list MergeCell; RowOpts : list RowOpt }.

(** [Row{}] *)
Definition emptyRow : Row := mkRow None [] [].

(** [len(row.Cells)] and [range row.Cells] treat nil as empty. *)
Definition cellsOf (row : Row) : list Cell :=
  match Cells row with Some cs => cs | None => [] end.

(** [type RowDataFunc func(rowNumber int) (Row, error)]: a closure, so it
    carries a state of its own that every call may change. *)
Record RowDataFunc : Type := mkRowDataFunc
  { SrcState : Type;
    srcStart : SrcState;
    srcPull : Z -> SrcState -> (Row * option error) * SrcState }.

(** ** The workbook backend *)

(** The primitives of excelize the exporter calls.  [B] is the state of the
    workbook ([*excelize.File] and everything reachable from it, the stream
    writers' buffers included), [SW] the identity of a [*excelize.StreamWriter].
    Every primitive may change the workbook and may return an error. *)
Class Backend (B SW : Type) : Type := mkBackend
  { NewFile : B;
    NewSheet : string -> B -> B * option error;
    SheetCount : B -> Z;
    DeleteSheet : string -> B -> B * option error;
    SetCellValue : string -> string -> CellValue -> B -> B * option error;
    SetCellStyle : string -> string -> string -> Z -> B -> B * option error;
    SetCellFormula : string -> string -> string -> B -> B * option error;
    FileMergeCell : string -> string -> string -> B -> B * option error;
    NewStreamWriter : string -> B -> B * option SW * option error;
    SetRow : SW -> string -> list Cell -> list RowOpt -> B -> B * option error;
    StreamMergeCell : SW -> string -> string -> B -> B * option error;
    Flush : SW -> B -> B * option error;
    SaveAs : string -> B -> B * option error;
    Close : B -> B * option error;
    (** [cell, _ := excelize.CoordinatesToCellName(col, row)]: the error is
        dropped by the code. *)
    CoordinatesToCellName : Z -> Z -> string }.

(** How a Go function returning [error] ends: it returns nil ([Ret]), returns
    an error ([Raise]), dereferences a nil pointer ([Panic]), or is still
    running when the fuel is spent ([Diverge]). *)
Inductive res (A : Type) : Type :=
| Ret (a : A)
| Raise (x : error)
| Panic
| Diverge.
Arguments Raise {A} x.
Arguments Panic {A}.
Arguments Diverge {A}.

(** * A reference workbook *)
Module RefBook.

(** The workbook as the orchestrator can tell it apart: the names of its
    sheets.  A fresh one has the sheet "Sheet1"; creating a sheet whose name
    exists changes nothing, and no name is blank; the last sheet cannot be
    deleted; a stream is opened on a sheet that exists; every write is
    accepted.  A stream is known by the name of its sheet. *)
Definition Workbook : Type := list string.

Definition hasSheet (name : string) (wb : Workbook) : bool :=
  existsb (String.eqb name) wb.

Definition bookNewSheet (name : string) (wb : Workbook) : Workbook * option error :=
  if String.eqb name "" then (wb, Some (ErrorString "the sheet name can not be blank"))
  else if hasSheet name wb then (wb, None)
  else (wb ++ [name], None).

Definition bookDeleteSheet (name : string) (wb : Workbook) : Workbook * option error :=
  if (Z.of_nat (List.length wb) <=? 1) || negb (hasSheet name wb) then (wb, None)
  else (filter (fun n => negb (String.eqb name n)) wb, None).

Definition bookNewStreamWriter (name : string) (wb : Workbook)
  : Workbook * option string * option error :=
  if hasSheet name wb then (wb, Some name, None)
  else (wb, None, Some (ErrorString "the sheet does not exist")).

Definition accept (wb : Workbook) : Workbook * option error := (wb, None).

(** Column letters, "A" for 1, then the row number. *)
Fixpoint columnLetters (fuel : nat) (col : Z) : string :=
  match fuel with
  | O => ""
  | S fuel' =>
      if col <=? 0 then ""
      else (columnLetters fuel' ((col - 1) / 26) ++
            String (Ascii.ascii_of_nat (65 + Z.to_nat ((col - 1) mod 26))) "")%string
  end.

Definition cellName (col row : Z) : string :=
  (columnLetters 3 col ++ formatInt row)%string.

#[export] Instance refBook : Backend Workbook string :=
  {| NewFile := ["Sheet1"];
     NewSheet := bookNewSheet;
     SheetCount := fun wb => Z.of_nat (List.length wb);
     DeleteSheet := bookDeleteSheet;
     SetCellValue := fun _ _ _ => accept;
     SetCellStyle := fun _ _ _ _ => accept;
     SetCellFormula := fun _ _ _ => accept;
     FileMergeCell := fun _ _ _ => accept;
     NewStreamWriter := bookNewStreamWriter;
     SetRow := fun _ _ _ _ => accept;
     StreamMergeCell := fun _ _ _ => accept;
     Flush := fun _ => accept;
     SaveAs := fun _ => accept;
     Close := accept;
     CoordinatesToCellName := cellName |}.

(** A source that returns the rows of a list, then [Row{}] for ever. *)
Definition listSource (rows : list Row) : RowDataFunc :=
  {| SrcState := list Row;
     srcStart := rows;
     srcPull := fun _ st =>
       match st with
       | [] => (emptyRow, None, [])
       | row :: rest => (row, None, rest)
       end |}.

(** A source whose first call fails. *)
Definition failingSource (x : error) : RowDataFunc :=
  {| SrcState := unit;
     srcStart := tt;
     srcPull := fun _ st => (emptyRow, Some x, st) |}.

Definition zeroWidthRow : Row := mkRow (Some []) [] [].

Definition oneCell (z : Z) : Row := mkRow (Some [mkCell (VInt z) 0 ""]) [] [].

Definition styledRow : Row :=
  mkRow (Some [mkCell (VString "total") 3 ""; mkCell (VInt 0) 0 "SUM(B1:B9)"])
        [mkMergeCell "A1" "A2"] [].

(** A source that returns the same row for ever. *)
Definition endlessSource (row : Row) : RowDataFunc :=
  {| SrcState := unit;
     srcStart := tt;
     srcPull := fun _ st => (row, None, st) |}.

End RefBook.

(** * UseRowChan (lines 213-237)

    The closure [UseRowChan] returns and the goroutine it starts, as two
    threads that take steps in any order.  A step is one of the places where
    the two can observe each other: the start of the goroutine under
    [once.Do], a send meeting a receive on the unbuffered channel, the
    assignment of [sendErr], the deferred [close], the receive from the closed
    channel, and the read of [sendErr] by the caller. *)
Module UseRowChan.

(** [sendDataFunc], by what the channel sees of it: the rows it sends, in
    order, and the error it returns. *)
Record Producer : Type := mkProducer
  { sends : list Row; returns : option error }.

(** Where the goroutine is. *)
Inductive Goroutine : Type :=
| NotStarted                      (* [once.Do] has not run yet *)
| Sending (rest : list Row)       (* in [sendDataFunc], these rows still to send *)
| Recorded                        (* [sendErr] assigned, [close] still deferred *)
| Closed.                         (* [close(dataCh)] done *)

(** Where the caller of the closure is. *)
Inductive Caller : Type :=
| Idle                            (* not in a call *)
| Receiving                       (* at [row, ok := <-dataCh] *)
| Received (row : Row) (ok : bool). (* at [if sendErr != nil] *)

Record State : Type := mkState
  { goroutine : Goroutine;
    caller : Caller;
    sendErr : option error;
    (** what the calls made so far returned, oldest first *)
    returned : list (Row * option error) }.

Definition start : State := mkState NotStarted Idle None [].

Inductive Thread : Type := TheCaller | TheGoroutine.

(** Lines 228-235, once [row] and [ok] are received. *)
Definition answer (row : Row) (ok : bool) (sendErr : option error) : Row * option error :=
  match sendErr with
  | Some x => (emptyRow, Some x)
  | None => if ok then (row, None) else (emptyRow, None)
  end.

(** One step of a thread; [None] when the thread is blocked or has ended. *)
Definition step (p : Producer) (t : Thread) (st : State) : option State :=
  match t with
  | TheCaller =>
      match caller st with
      | Idle =>
          let g := match goroutine st with
                   | NotStarted => Sending (sends p)
                   | g => g
                   end in
          Some (mkState g Receiving (sendErr st) (returned st))
      | Receiving =>
          match goroutine st with
          | Sending (row :: rest) =>
              Some (mkState (Sending rest) (Received row true) (sendErr st) (returned st))
          | Closed =>
              Some (mkState Closed (Received emptyRow false) (sendErr st) (returned st))
          | _ => None
          end
      | Received row ok =>
          Some (mkState (goroutine st) Idle (sendErr st)
                        (returned st ++ [answer row ok (sendErr st)]))
      end
  | TheGoroutine =>
      match goroutine st with
      | Sending (row :: rest) =>
          match caller st with
          | Receiving =>
              Some (mkState (Sending rest) (Received row true) (sendErr st) (returned st))
          | _ => None
          end
      | Sending [] => Some (mkState Recorded (caller st) (returns p) (returned st))
      | Recorded => Some (mkState Closed (caller st) (sendErr st) (returned st))
      | NotStarted | Closed => None
      end
  end.

(** The steps of a schedule, one after the other. *)
Fixpoint run (p : Producer) (schedule : list Thread) (st : State) : option State :=
  match schedule with
  | [] => Some st
  | t :: rest =>
      match step p t st with
      | Some st' => run p rest st'
      | None => None
      end
  end.

(** The caller does not hold a row it received from a send. *)
Definition holdsNoRow (c : Caller) : Prop :=
  match c with
  | Received row true => False
  | Received row false => row = emptyRow
  | _ => True
  end.

(** A whole call of the closure, when nothing else runs in between. *)
Definition oneCall : list Thread := [TheCaller; TheCaller; TheCaller].

(** Three calls of the closure.  In [lateRead] the goroutine assigns
    [sendErr] between the third call's receive and its read of [sendErr]; in
    [earlyRead] it runs after the third call has returned. *)
Definition lateRead : list Thread :=
  oneCall ++ oneCall ++ [TheCaller; TheCaller; TheGoroutine; TheCaller] ++
  [TheGoroutine] ++ oneCall.

Definition earlyRead : list Thread :=
  oneCall ++ oneCall ++ oneCall ++ [TheGoroutine; TheGoroutine] ++ oneCall.

(** What the calls return for rows that come through: each with a nil
    error. *)
Definition delivered (rows : list Row) : list (Row * option error) :=
  map (fun row => (row, None)) rows.

(** What the calls have returned once the producer has returned: all its rows,
    or all but the last when it returned an error, and then as many times
    [Row{}] with what it returned as there were further calls. *)
Definition through (p : Producer) (out : list (Row * option error)) : Prop :=
  exists m,
    out = delivered (sends p) ++ repeat (emptyRow, returns p) m \/
    (returns p <> None /\ sends p <> [] /\
     out = delivered (removelast (sends p)) ++ repeat (emptyRow, returns p) (S m)).

(** What holds of every state the two threads can be in: [sendErr] is nil
    while the producer sends and is what it returned from then on; the calls
    have returned the first [k] rows while the rows from [k] on are the one
    the caller holds and the ones still to send. *)
Definition consistent (p : Producer) (st : State) : Prop :=
  match goroutine st with
  | NotStarted => caller st = Idle /\ returned st = [] /\ sendErr st = None
  | Sending rest =>
      sendErr st = None /\
      exists k, returned st = delivered (firstn k (sends p)) /\
                match caller st with
                | Received row ok => ok = true /\ skipn k (sends p) = row :: rest
                | _ => skipn k (sends p) = rest
                end
  | Recorded | Closed =>
      sendErr st = returns p /\
      match caller st with
      | Received row true =>
          exists k, returned st = delivered (firstn k (sends p)) /\
                    skipn k (sends p) = [row]
      | Received row false => goroutine st = Closed /\ through p (returned st)
      | _ => through p (returned st)
      end
  end.

(** The receives the caller has completed: one per call that returned, and
    one more when it holds a row it has not returned yet. *)
Definition receives (st : State) : nat :=
  (List.length (returned st) +
   match caller st with Received _ true => 1 | _ => 0 end)%nat.

End UseRowChan.

(** * The exporter *)

Section Exporter.

Context {B SW : Type} {backend : Backend B SW}.

(** [type Exporter struct] *)
Record Exporter : Type := mkExporter
  { File : B;
    FileName : string;
    CurrentSheet : string;
    UseStreamWriter : bool;
    StreamWriter : option SW }.

(** [type InitFunc func(exporter *Exporter) error]: it may change every field
    of the exporter it is given. *)
Definition InitFunc_t : Type := Exporter -> Exporter * option error.

(** [type SheetData struct]; a nil [InitFunc] is [None]. *)
Record SheetData : Type := mkSheetData
  { Name : string;
    RowFunc : RowDataFunc;
    InitFunc : option InitFunc_t }.

(** [func New(fileName string, useStreamWriter bool) *Exporter] *)
Definition New (fileName : string) (useStreamWriter : bool) : Exporter :=
  {| File := NewFile;
     FileName := fileName;
     CurrentSheet := "";
     UseStreamWriter := useStreamWriter;
     StreamWriter := None |}.

(** ** Calls and traces *)

(** What the orchestrator does to its collaborators.  The last three are calls
    of the closures [exportHelper] is given and of the row source. *)
Inductive Event : Type :=
| EvNewSheet (name : string)
| EvDeleteSheet (name : string)
| EvNewStreamWriter (sheet : string) (handle : option SW)
| EvFlush (sw : SW)
| EvSetRow (sw : SW) (cell : string) (values : list Cell) (opts : list RowOpt)
| EvStreamMergeCell (sw : SW) (topLeft bottomRight : string)
| EvSetCellValue (sheet cell : string) (v : CellValue)
| EvSetCellStyle (sheet topLeft bottomRight : string) (style : Z)
| EvSetCellFormula (sheet cell formula : string)
| EvMergeCell (sheet topLeft bottomRight : string)
| EvSaveAs (name : string)
| EvClose
| EvInitHook (current : string)
| EvPull (rowIndex : Z) (row : Row)
| EvInit (sheetName : string)
| EvWriteRow (sheetName : string) (rowID : Z) (row : Row).

(** A call and the error it returned ([None] is Go's nil error). *)
Record Call : Type := mkCall { what : Event; failed : option error }.

Record Out (A : Type) : Type := mkOut
  { final : Exporter; trace : list Call; result : res A }.

(** Exporter state, the calls made, and the way the function ended. *)
Definition M (A : Type) : Type := Exporter -> Out A.

Definition ret {A} (a : A) : M A := fun e => mkOut e [] (Ret a).

Definition before {A} (tr : list Call) (o : Out A) : Out A :=
  mkOut (final o) (tr ++ trace o) (result o).

Definition bind {A C} (m : M A) (k : A -> M C) : M C :=
  fun e =>
    let o := m e in
    match result o with
    | Ret a => before (trace o) (k a (final o))
    | Raise x => mkOut (final o) (trace o) (Raise x)
    | Panic => mkOut (final o) (trace o) Panic
    | Diverge => mkOut (final o) (trace o) Diverge
    end.

Notation "x <- m ;; k" := (bind m (fun x => k))
  (at level 61, m at next level, right associativity).
Notation "m ;; k" := (bind m (fun _ => k))
  (at level 61, right associativity).

Definition get : M Exporter := fun e => mkOut e [] (Ret e).
Definition diverge {A} : M A := fun e => mkOut e [] Diverge.
Definition panic {A} : M A := fun e => mkOut e [] Panic.

Definition resOf (err : option error) : res unit :=
  match err with None => Ret tt | Some x => Raise x end.

Definition setFile (e : Exporter) (f : B) : Exporter :=
  mkExporter f (FileName e) (CurrentSheet e) (UseStreamWriter e) (StreamWriter e).

(** [if err := e.File.<op>(...); err != nil { return err }] *)
Definition call (ev : Event) (op : B -> B * option error) : M unit :=
  fun e =>
    let '(f, err) := op (File e) in
    mkOut (setFile e f) [mkCall ev err] (resOf err).

(** [return fmt.Errorf("<context>%w", err)] around a failing call. *)
Definition withContext {A} (context : string) (m : M A) : M A :=
  fun e =>
    let o := m e in
    match result o with
    | Raise x => mkOut (final o) (trace o) (Raise (Wrapf context x))
    | _ => o
    end.

(** A marker in the trace: a closure is being called. *)
Definition mark (ev : Event) : M unit :=
  fun e => mkOut e [mkCall ev None] (Ret tt).

(** [e.CurrentSheet = name] *)
Definition setCurrentSheet (name : string) : M unit :=
  fun e =>
    mkOut (mkExporter (File e) (FileName e) name (UseStreamWriter e) (StreamWriter e))
      [] (Ret tt).

(** [err = sheet.InitFunc(e)] for a non-nil hook. *)
Definition callHook (h : InitFunc_t) : M unit :=
  fun e =>
    let '(e', err) := h e in
    mkOut e' [mkCall (EvInitHook (CurrentSheet e)) err] (resOf err).

(** [e.StreamWriter, err = e.File.NewStreamWriter(sheetName)]: the field is
    assigned whatever the error. *)
Definition newStreamWriter (sheetName : string) : M unit :=
  fun e =>
    let '(f, sw, err) := NewStreamWriter sheetName (File e) in
    mkOut (mkExporter f (FileName e) (CurrentSheet e) (UseStreamWriter e) sw)
      [mkCall (EvNewStreamWriter sheetName sw) err] (resOf err).

(** A method call on [e.StreamWriter]: a nil receiver panics. *)
Definition onStream {A} (k : SW -> M A) : M A :=
  fun e =>
    match StreamWriter e with
    | Some sw => k sw e
    | None => panic e
    end.

(** ** exportUsingStreamWriter's closures (lines 77-117) *)

Definition runHook (sheet : SheetData) : M unit :=
  match InitFunc sheet with
  | Some h => callHook h
  | None => ret tt
  end.

Definition streamInitFunc (sheet : SheetData) (sheetName : string) : M unit :=
  e <- get ;;
  match StreamWriter e with
  | Some sw => call (EvFlush sw) (Flush sw)
  | None => ret tt
  end ;;
  newStreamWriter sheetName ;;
  runHook sheet.

Fixpoint streamMerges (sw : SW) (merges : list MergeCell) : M unit :=
  match merges with
  | [] => ret tt
  | mergeCell :: rest =>
      call (EvStreamMergeCell sw (TopLeftCell mergeCell) (BottomRightCell mergeCell))
           (StreamMergeCell sw (TopLeftCell mergeCell) (BottomRightCell mergeCell)) ;;
      streamMerges sw rest
  end.

(** [e.StreamWriter] is read once: no call of the closure assigns it. *)
Definition streamWriteRowFunc (sheetName : string) (rowID : Z) (row : Row) : M unit :=
  let rowCells := cellsOf row in
  let cell := CoordinatesToCellName 1 rowID in
  onStream (fun sw =>
    call (EvSetRow sw cell rowCells (RowOpts row))
         (SetRow sw cell rowCells (RowOpts row)) ;;
    streamMerges sw (MergeCells row)).

(** ** exportUsingMemory's closures (lines 127-161) *)

Definition memoryInitFunc (sheet : SheetData) (sheetName : string) : M unit :=
  runHook sheet.

Definition memoryWriteCell (sheetName : string) (rowID j : Z) (cell : Cell) : M unit :=
  let cellName := CoordinatesToCellName (j + 1) rowID in
  call (EvSetCellValue sheetName cellName (Value cell))
       (SetCellValue sheetName cellName (Value cell)) ;;
  (if StyleID cell >? 0
   then call (EvSetCellStyle sheetName cellName cellName (StyleID cell))
             (SetCellStyle sheetName cellName cellName (StyleID cell))
   else ret tt) ;;
  (if String.eqb (Formula cell) ""
   then ret tt
   else call (EvSetCellFormula sheetName cellName (Formula cell))
             (SetCellFormula sheetName cellName (Formula cell))).

Fixpoint memoryWriteCells (sheetName : string) (rowID j : Z) (cells : list Cell) : M unit :=
  match cells with
  | [] => ret tt
  | cell :: rest =>
      memoryWriteCell sheetName rowID j cell ;;
      memoryWriteCells sheetName rowID (j + 1) rest
  end.

Fixpoint memoryMerges (sheetName : string) (merges : list MergeCell) : M unit :=
  match merges with
  | [] => ret tt
  | mergeCell :: rest =>
      call (EvMergeCell sheetName (TopLeftCell mergeCell) (BottomRightCell mergeCell))
           (FileMergeCell sheetName (TopLeftCell mergeCell) (BottomRightCell mergeCell)) ;;
      memoryMerges sheetName rest
  end.

Definition memoryWriteRowFunc (sheetName : string) (rowID : Z) (row : Row) : M unit :=
  memoryWriteCells sheetName rowID 0 (cellsOf row) ;;
  memoryMerges sheetName (MergeCells row).

(** ** exportHelper (lines 166-210) *)

(** [if _, err := e.File.NewSheet(name); err != nil
       { return fmt.Errorf("failed to create a new sheet: %w", err) }] *)
Definition newSheet (name : string) : M unit :=
  withContext "failed to create a new sheet: "
    (call (EvNewSheet name) (NewSheet name)).

Section Helper.

Variable sheet : SheetData.
Variable initFunc : string -> M unit.
Variable writeRowFunc : string -> Z -> Row -> M unit.

(** [err := initFunc(e.CurrentSheet)] *)
Definition callInit : M unit :=
  e <- get ;; mark (EvInit (CurrentSheet e)) ;; initFunc (CurrentSheet e).

(** [row, err := sheet.RowFunc(rowIndex)] *)
Definition pull (rowIndex : Z) (src : SrcState (RowFunc sheet))
  : M (Row * SrcState (RowFunc sheet)) :=
  fun e =>
    let '(row, err, src') := srcPull (RowFunc sheet) rowIndex src in
    mkOut e [mkCall (EvPull rowIndex row) err]
      match err with None => Ret (row, src') | Some x => Raise x end.

(** lines 185-199: the split when the sheet is full. *)
Definition splitIfFull (rowID sheetSuffix : Z) : M (Z * Z) :=
  if rowID >? SheetMaxRows
  then
    let sheetSuffix := incr sheetSuffix in
    let rowID := 1 in
    let currentSheetName := Sprintf_s_d (Name sheet) sheetSuffix in
    newSheet currentSheetName ;;
    setCurrentSheet currentSheetName ;;
    callInit ;;
    ret (rowID, sheetSuffix)
  else ret (rowID, sheetSuffix).

(** The [for] loop of lines 175-207, one iteration per unit of fuel. *)
Fixpoint helperLoop (fuel : nat) (src : SrcState (RowFunc sheet))
    (rowID sheetSuffix rowIndex : Z) : M unit :=
  match fuel with
  | O => diverge
  | S fuel' =>
      p <- pull rowIndex src ;;
      match Cells (fst p) with
      | None => ret tt
      | Some _ =>
          q <- splitIfFull rowID sheetSuffix ;;
          e <- get ;;
          mark (EvWriteRow (CurrentSheet e) (fst q) (fst p)) ;;
          writeRowFunc (CurrentSheet e) (fst q) (fst p) ;;
          helperLoop fuel' (snd p) (incr (fst q)) (snd q) (incr rowIndex)
      end
  end.

Definition exportHelper (fuel : nat) : M unit :=
  let rowID := 1 in
  let sheetSuffix := 0 in
  setCurrentSheet (Name sheet) ;;
  callInit ;;
  let rowIndex := 0 in
  helperLoop fuel (srcStart (RowFunc sheet)) rowID sheetSuffix rowIndex.

End Helper.

(** ** The two strategies and Export (lines 46-164) *)

Definition exportUsingStreamWriter (fuel : nat) (sheet : SheetData) : M unit :=
  exportHelper sheet (streamInitFunc sheet) streamWriteRowFunc fuel ;;
  onStream (fun sw => call (EvFlush sw) (Flush sw)).

Definition exportUsingMemory (fuel : nat) (sheet : SheetData) : M unit :=
  exportHelper sheet (memoryInitFunc sheet) memoryWriteRowFunc fuel.

(** lines 55-60: [// delete default sheet] *)
Definition deleteDefaultSheet (i : Z) : M unit :=
  e <- get ;;
  if (i =? 0) && (SheetCount (File e) >? 1)
  then withContext "failed to delete default sheet: "
         (call (EvDeleteSheet "Sheet1") (DeleteSheet "Sheet1"))
  else ret tt.

(** lines 62-70: the strategy is read from the exporter for every sheet. *)
Definition exportSheet (fuel : nat) (sheet : SheetData) : M unit :=
  e <- get ;;
  if UseStreamWriter e
  then exportUsingStreamWriter fuel sheet
  else exportUsingMemory fuel sheet.

(** The body of [for i, sheet := range sheets] (lines 51-70). *)
Definition exportOne (fuel : nat) (i : Z) (sheet : SheetData) : M unit :=
  newSheet (Name sheet) ;;
  deleteDefaultSheet i ;;
  exportSheet fuel sheet.

Fixpoint exportSheets (fuel : nat) (i : Z) (sheets : list SheetData) : M unit :=
  match sheets with
  | [] => ret tt
  | sheet :: rest =>
      exportOne fuel i sheet ;;
      exportSheets fuel (i + 1) rest
  end.

(** [return e.File.SaveAs(e.FileName)] *)
Definition saveAs : M unit :=
  e <- get ;; call (EvSaveAs (FileName e)) (SaveAs (FileName e)).

(** [defer e.File.Close()]: runs when the function returns or panics; what
    [Close] returns is dropped. *)
Definition deferClose {A} (body : M A) : M A :=
  fun e =>
    let o := body e in
    match result o with
    | Diverge => o
    | _ =>
        let '(f, err) := Close (File (final o)) in
        mkOut (setFile (final o) f) (trace o ++ [mkCall EvClose err]) (result o)
    end.

(** [func (e *Exporter) Export(sheets []SheetData) error] *)
Definition Export (fuel : nat) (sheets : list SheetData) : M unit :=
  deferClose (exportSheets fuel 0 sheets ;; saveAs).

(** * The vocabulary of the properties *)

(** ** Reading a trace *)

(** The events that lay rows out on physical sheets: a sheet is created, a
    closure of [exportHelper] is called, the user's hook runs. *)
Definition isLayout (ev : Event) : bool :=
  match ev with
  | EvNewSheet _ | EvInit _ | EvInitHook _ | EvWriteRow _ _ _ => true
  | _ => false
  end.

Definition isPull (ev : Event) : bool :=
  match ev with EvPull _ _ => true | _ => false end.

Definition isWrite (ev : Event) : bool :=
  match ev with EvWriteRow _ _ _ => true | _ => false end.

Definition isDelete (ev : Event) : bool :=
  match ev with EvDeleteSheet _ => true | _ => false end.

Definition events (tr : list Call) : list Event := map what tr.

Definition layout (tr : list Call) : list Event := filter isLayout (events tr).

(** The row indices the source was pulled with, in order. *)
Definition pullsOf (tr : list Call) : list Z :=
  flat_map (fun c => match what c with EvPull i _ => [i] | _ => [] end) tr.

(** The names [DeleteSheet] was called with, in order. *)
Definition deletesOf (tr : list Call) : list string :=
  flat_map (fun c => match what c with EvDeleteSheet n => [n] | _ => [] end) tr.

(** Rows written one after the other on one sheet, from [rowID] on. *)
Fixpoint writeBlock (sheetName : string) (rowID : Z) (rows : list Row) : list Event :=
  match rows with
  | [] => []
  | row :: rest => EvWriteRow sheetName rowID row :: writeBlock sheetName (rowID + 1) rest
  end.

(** The hook's run on the sheet [current], when the spec has a hook. *)
Definition hookRun (sheet : SheetData) (current : string) : list Event :=
  match InitFunc sheet with
  | Some _ => [EvInitHook current]
  | None => []
  end.

(** The hook changes nothing of the exporter but the workbook. *)
Definition hookKeepsExporter (sheet : SheetData) : Prop :=
  forall h e, InitFunc sheet = Some h -> fst (h e) = setFile e (File (fst (h e))).

(** ** What the row source does *)

(** The next pull returns the end-of-data sentinel. *)
Definition ends (rf : RowDataFunc) (i : Z) (src : SrcState rf) : Prop :=
  exists row s1, srcPull rf i src = (row, None, s1) /\ Cells row = None.

(** Pulled the way [exportHelper] pulls ([rowIndex], then [rowIndex++], ...),
    from state [src], the source returns the rows [rows], each with its cells
    present and no error, and then the sentinel. *)
Fixpoint feeds (rf : RowDataFunc) (i : Z) (src : SrcState rf) (rows : list Row) : Prop :=
  match rows with
  | [] => ends rf i src
  | row :: rest =>
      exists s1, srcPull rf i src = (row, None, s1) /\ Cells row <> None /\
                 feeds rf (incr i) s1 rest
  end.

(** The source feeds exactly [rows] and then the sentinel. *)
Definition Feeds (rf : RowDataFunc) (rows : list Row) : Prop :=
  feeds rf 0 (srcStart rf) rows.

(** ** Computations and the calls they make *)

(** A computation that always comes to an end. *)
Definition halts {A} (m : M A) : Prop := forall e, result (m e) <> Diverge.

(** Every call [m] makes satisfies [P], whatever the state it starts in. *)
Definition emits {A} (P : Call -> Prop) (m : M A) : Prop :=
  forall e, Forall P (trace (m e)).

(** [m] leaves the component [f] of the exporter as it was. *)
Definition keeps {X A} (f : Exporter -> X) (m : M A) : Prop :=
  forall e, f (final (m e)) = f e.

(** A component of the exporter other than the workbook. *)
Definition fileFree {X} (f : Exporter -> X) : Prop :=
  forall e b, f (setFile e b) = f e.

(** A call of the backend on cells, merges or streams, or of the user's hook:
    what the closures of the two strategies do. *)
Definition isClosureCall (ev : Event) : bool :=
  match ev with
  | EvNewStreamWriter _ _ | EvFlush _ | EvSetRow _ _ _ _ | EvStreamMergeCell _ _ _
  | EvSetCellValue _ _ _ | EvSetCellStyle _ _ _ _ | EvSetCellFormula _ _ _
  | EvMergeCell _ _ _ | EvInitHook _ => true
  | _ => false
  end.

Definition closureCall (c : Call) : Prop := isClosureCall (what c) = true.

(** The same without the hook. *)
Definition quietCall (c : Call) : Prop :=
  isClosureCall (what c) = true /\ isLayout (what c) = false.

(** A write of a cell, a merge or a streamed row: what the row-writing
    closures do. *)
Definition isCellCall (ev : Event) : bool :=
  match ev with
  | EvSetRow _ _ _ _ | EvStreamMergeCell _ _ _
  | EvSetCellValue _ _ _ | EvSetCellStyle _ _ _ _ | EvSetCellFormula _ _ _
  | EvMergeCell _ _ _ => true
  | _ => false
  end.

Definition cellCall (c : Call) : Prop := isCellCall (what c) = true.

(** ** The layout of the rows of a spec *)

(** One turn of the loop of [exportHelper] after the pull of a row. *)
Definition afterPull (sheet : SheetData) (initFunc : string -> M unit)
    (writeRowFunc : string -> Z -> Row -> M unit)
    (fuel : nat) (row : Row) (s1 : SrcState (RowFunc sheet))
    (rowID sheetSuffix rowIndex : Z) : M unit :=
  q <- splitIfFull sheet initFunc rowID sheetSuffix ;;
  e <- get ;;
  mark (EvWriteRow (CurrentSheet e) (fst q) row) ;;
  writeRowFunc (CurrentSheet e) (fst q) row ;;
  helperLoop sheet initFunc writeRowFunc fuel s1 (incr (fst q)) (snd q) (incr rowIndex).

(** The layout the loop produces for the rows it is fed, as a function of
    the loop's variables: the active sheet, [rowID] and [sheetSuffix]. *)
Fixpoint layoutRows (sheet : SheetData) (current : string) (rowID sheetSuffix : Z)
    (rows : list Row) : list Event :=
  match rows with
  | [] => []
  | row :: rest =>
      if rowID >? SheetMaxRows
      then
        let name := Sprintf_s_d (Name sheet) (incr sheetSuffix) in
        EvNewSheet name :: EvInit name :: hookRun sheet name ++
        EvWriteRow name 1 row :: layoutRows sheet name (incr 1) (incr sheetSuffix) rest
      else
        EvWriteRow current rowID row ::
        layoutRows sheet current (incr rowID) sheetSuffix rest
  end.

(** The layout of the rows a spec is fed, as [layoutRows] gives it. *)
Definition sheetLayout (sheet : SheetData) (rows : list Row) : list Event :=
  EvInit (Name sheet) :: hookRun sheet (Name sheet) ++
  layoutRows sheet (Name sheet) 1 0 rows.

(** ** The pulls of a spec *)

(** A pull that ends the loop: it returned an error, or the sentinel. *)
Definition stopping (c : Call) : bool :=
  match what c with
  | EvPull _ row =>
      match failed c, Cells row with
      | None, Some _ => false
      | _, _ => true
      end
  | _ => false
  end.

Definition notPull (c : Call) : Prop := isPull (what c) = false.

Definition isFlush (ev : Event) : bool :=
  match ev with EvFlush _ => true | _ => false end.

Definition flushCall (c : Call) : Prop := isFlush (what c) = true.

(** After a pull that ends the loop, nothing but flushes of a stream. *)
Fixpoint calmAfterStop (tr : list Call) : Prop :=
  match tr with
  | [] => True
  | c :: rest => (stopping c = true -> Forall flushCall rest) /\ calmAfterStop rest
  end.

(** [n] indices in a row, the way the loop counts them. *)
Fixpoint countFrom (i : Z) (n : nat) : list Z :=
  match n with
  | O => []
  | S n' => i :: countFrom (incr i) n'
  end.

(** The pulls of a trace: at most [bound] of them, numbered from [i] on, and
    nothing after one that ends the loop. *)
Definition pullTrace (i : Z) (bound : nat) (tr : list Call) : Prop :=
  calmAfterStop tr /\
  exists n, (n <= bound)%nat /\ pullsOf tr = countFrom i n.

(** ** Errors *)

(** The call returned a nil error. *)
Definition ok (c : Call) : Prop := failed c = None.

(** The way a run ended agrees with its calls: when it returned an error, its
    last call failed, no earlier one did, and the error returned is the one of
    that call up to [R]; otherwise no call failed. *)
Definition aborted {A} (R : error -> error -> Prop) (o : Out A) : Prop :=
  match result o with
  | Raise x =>
      exists pre c x0, trace o = pre ++ [c] /\ Forall ok pre /\
                       failed c = Some x0 /\ R x x0
  | _ => Forall ok (trace o)
  end.

Definition strict {A} (R : error -> error -> Prop) (m : M A) : Prop :=
  forall e, aborted R (m e).

(** ** The buffered write of a row *)

(** The backend calls for the cell at position [j] (0-based) of a row written
    at [rowID]: the value at column [j + 1]; the style when [StyleID > 0]; the
    formula when it is not the empty string. *)
Definition cellEvents (sheetName : string) (rowID j : Z) (cell : Cell) : list Event :=
  let cellName := CoordinatesToCellName (j + 1) rowID in
  [EvSetCellValue sheetName cellName (Value cell)] ++
  (if StyleID cell >? 0
   then [EvSetCellStyle sheetName cellName cellName (StyleID cell)]
   else []) ++
  (if String.eqb (Formula cell) ""
   then []
   else [EvSetCellFormula sheetName cellName (Formula cell)]).

(** The cells of a list with their positions 0, 1, 2, ... *)
Definition indexedFrom {A} (j : Z) (l : list A) : list (Z * A) :=
  combine (map (fun k => j + Z.of_nat k) (seq 0 (List.length l))) l.

Definition mergeEvents (sheetName : string) (merges : list MergeCell) : list Event :=
  map (fun m => EvMergeCell sheetName (TopLeftCell m) (BottomRightCell m)) merges.

(** All the cells in their order, then all the merges in theirs. *)
Definition rowEvents (sheetName : string) (rowID : Z) (row : Row) : list Event :=
  flat_map (fun p => cellEvents sheetName rowID (fst p) (snd p))
           (indexedFrom 0 (cellsOf row)) ++
  mergeEvents sheetName (MergeCells row).

(** [o] made the calls [E], or a first part of them when it did not return
    nil. *)
Definition makes (E : list Event) (o : Out unit) : Prop :=
  (result o = Ret tt -> events (trace o) = E) /\
  exists rest, E = events (trace o) ++ rest.

(** ** The deletion of the default sheet *)

(** What the export of one sheet does once the sheet is created: closure
    calls, pulls, split sheets and the marks of [exportHelper]. *)
Definition isSheetWork (ev : Event) : bool :=
  isClosureCall ev ||
  match ev with
  | EvPull _ _ | EvNewSheet _ | EvInit _ | EvWriteRow _ _ _ => true
  | _ => false
  end.

Definition sheetWork (c : Call) : Prop := isSheetWork (what c) = true.

Definition notDelete (c : Call) : Prop := isDelete (what c) = false.

(** The calls of [Export] on a list that has a first spec: the creation of
    its sheet, the deletion of "Sheet1" when the creation succeeded and the
    workbook then counts more than one sheet, and then no deletion. *)
Definition firstDeletion (sheet : SheetData) (e : Exporter) : list Call :=
  let '(b, err) := NewSheet (Name sheet) (File e) in
  match err with
  | None =>
      if SheetCount b >? 1
      then [mkCall (EvDeleteSheet "Sheet1") (snd (DeleteSheet "Sheet1" b))]
      else []
  | Some _ => []
  end.

(** ** The flushes of the streaming strategy *)

(** The stream the exporter holds, and the stream that the call just made
    flushed with success, if it was such a call. *)
Definition streamState : Type := (option SW * option SW)%type.

Definition afterCall (st : streamState) (c : Call) : streamState :=
  match what c with
  | EvNewStreamWriter _ sw => (sw, None)
  | EvFlush sw => (fst st, match failed c with None => Some sw | Some _ => None end)
  | _ => (fst st, None)
  end.

Fixpoint afterCalls (st : streamState) (tr : list Call) : streamState :=
  match tr with
  | [] => st
  | c :: rest => afterCalls (afterCall st c) rest
  end.

(** The stream the exporter holds after the calls [tr], when it held [held]
    before them. *)
Definition heldAfter (held : option SW) (tr : list Call) : option SW :=
  fst (afterCalls (held, None) tr).

(** No stream is held, or the call just made flushed the stream held. *)
Definition flushedNow (st : streamState) : Prop := fst st = None \/ snd st = fst st.

(** Every [NewStreamWriter], which replaces the stream held, and every
    [SaveAs] comes right after a successful [Flush] of the stream held, unless
    none is held. *)
Fixpoint flushedBeforeSwitch (st : streamState) (tr : list Call) : Prop :=
  match tr with
  | [] => True
  | c :: rest =>
      match what c with
      | EvNewStreamWriter _ _ | EvSaveAs _ => flushedNow st
      | _ => True
      end /\
      flushedBeforeSwitch (afterCall st c) rest
  end.

Definition isSwitch (ev : Event) : bool :=
  match ev with EvNewStreamWriter _ _ | EvSaveAs _ => true | _ => false end.

Definition noSwitch (c : Call) : Prop := isSwitch (what c) = false.

(** [m], run by an exporter in streaming mode, keeps that mode, respects the
    discipline, and holds at its end the stream its calls say it holds. *)
Definition tracks {A} (m : M A) : Prop :=
  forall e l,
    UseStreamWriter e = true ->
    UseStreamWriter (final (m e)) = true /\
    flushedBeforeSwitch (StreamWriter e, l) (trace (m e)) /\
    fst (afterCalls (StreamWriter e, l) (trace (m e))) = StreamWriter (final (m e)).

(** ** The streamed write of a row *)

Definition streamMergeEvents (sw : SW) (merges : list MergeCell) : list Event :=
  map (fun m => EvStreamMergeCell sw (TopLeftCell m) (BottomRightCell m)) merges.

(** One [SetRow] at column 1 of the row, with all its cells and its options,
    then the merges in their order, all on the stream [sw]. *)
Definition streamRowEvents (sw : SW) (rowID : Z) (row : Row) : list Event :=
  EvSetRow sw (CoordinatesToCellName 1 rowID) (cellsOf row) (RowOpts row) ::
  streamMergeEvents sw (MergeCells row).

(** ** The place of every row *)

(** The physical sheets of a spec: its own name, then [<name>_1], [<name>_2],
    and so on. *)
Definition physicalSheet (name : string) (k : Z) : string :=
  if k =? 0 then name else Sprintf_s_d name k.

(** Where the row of index [k] (from 0) of a spec goes. *)
Definition placeOf (name : string) (k : Z) (row : Row) : Event :=
  EvWriteRow (physicalSheet name (k / SheetMaxRows)) (k mod SheetMaxRows + 1) row.

Definition placed (name : string) (rows : list Row) : list Event :=
  map (fun p => placeOf name (fst p) (snd p)) (indexedFrom 0 rows).

(** The names [NewSheet] was called with, in order. *)
Definition createdIn (evs : list Event) : list string :=
  flat_map (fun ev => match ev with EvNewSheet n => [n] | _ => [] end) evs.

Definition sheetsOf (tr : list Call) : list string := createdIn (events tr).

(** The first [n] physical sheets of a spec. *)
Definition physicalSheets (name : string) (n : nat) : list string :=
  map (fun j => physicalSheet name (Z.of_nat j)) (seq 0 n).

(** The physical sheets of a spec that is fed the rows [rows]. *)
Definition physicalSheetsFor (name : string) (rows : list Row) : list string :=
  physicalSheets name (S (Z.to_nat ((Z.of_nat (List.length rows) - 1) / SheetMaxRows))).

(** The source of the spec feeds exactly [rows], fewer than Go's [int] can
    count. *)
Definition fed (sheet : SheetData) (rows : list Row) : Prop :=
  Feeds (RowFunc sheet) rows /\ Z.of_nat (List.length rows) < 2 ^ 63.

(** ** The error [Export] returns *)

(** What is returned for the error [x0] of a call: the creation of a sheet
    and the deletion of the default sheet wrap it with their context, every
    other call's error is returned as it is. *)
Definition returnedFor (ev : Event) (x0 : error) : error :=
  match ev with
  | EvNewSheet _ => Wrapf "failed to create a new sheet: " x0
  | EvDeleteSheet _ => Wrapf "failed to delete default sheet: " x0
  | _ => x0
  end.

(** A run that returned an error: its last call failed, and the error is the
    one returned for that call. *)
Definition reportsOut {A} (o : Out A) : Prop :=
  forall x, result o = Raise x ->
            exists pre c x0, trace o = pre ++ [c] /\ failed c = Some x0 /\
                             x = returnedFor (what c) x0.

Definition reports {A} (m : M A) : Prop := forall e, reportsOut (m e).

(** ** The save and the close *)

Definition isSave (ev : Event) : bool :=
  match ev with EvSaveAs _ => true | _ => false end.

Definition isClose (ev : Event) : bool :=
  match ev with EvClose => true | _ => false end.

Definition notClose (c : Call) : Prop := isClose (what c) = false.

(** A call of the loop over the specs: neither the save nor the close. *)
Definition sheetsCall (c : Call) : Prop :=
  isSave (what c) = false /\ isClose (what c) = false.

(** ** Sources that never end *)

(** At every call the source returns a row with its cells, and no error. *)
Definition neverEnds (rf : RowDataFunc) : Prop :=
  forall i s, exists row s', srcPull rf i s = (row, None, s') /\ Cells row <> None.

(** ** The calls of each strategy, and panics *)

Definition isStreamCall (ev : Event) : bool :=
  match ev with
  | EvNewStreamWriter _ _ | EvFlush _ | EvSetRow _ _ _ _ | EvStreamMergeCell _ _ _ => true
  | _ => false
  end.

(** A call the buffered strategy may make: none on a stream. *)
Definition bufferedCall (c : Call) : Prop := isStreamCall (what c) = false.

Definition isFileCellCall (ev : Event) : bool :=
  match ev with
  | EvSetCellValue _ _ _ | EvSetCellStyle _ _ _ _ | EvSetCellFormula _ _ _
  | EvMergeCell _ _ _ => true
  | _ => false
  end.

(** A call the streaming strategy may make: no write of a cell or of a merge
    on the workbook itself. *)
Definition streamedCall (c : Call) : Prop := isFileCellCall (what c) = false.

(** A run whose calls all satisfy [P], that did not panic, and that left the
    exporter in [J] when it returned nil. *)
Definition safeOut {A} (J : Exporter -> Prop) (P : Call -> Prop) (o : Out A) : Prop :=
  Forall P (trace o) /\ result o <> Panic /\ (forall a, result o = Ret a -> J (final o)).

Definition safe {A} (I J : Exporter -> Prop) (P : Call -> Prop) (m : M A) : Prop :=
  forall e, I e -> safeOut J P (m e).

(** A property of the exporter that neither the workbook nor the name of the
    current sheet bears on. *)
Definition stable (I : Exporter -> Prop) : Prop :=
  (forall e b, I e -> I (setFile e b)) /\
  (forall e name, I e ->
     I (mkExporter (File e) (FileName e) name (UseStreamWriter e) (StreamWriter e))).

Definition buffered (e : Exporter) : Prop := UseStreamWriter e = false.

Definition streaming (e : Exporter) : Prop := UseStreamWriter e = true.

(** In streaming mode, with a stream in hand. *)
Definition holding (e : Exporter) : Prop :=
  UseStreamWriter e = true /\ StreamWriter e <> None.

(** [NewStreamWriter] returns a stream whenever it returns no error. *)
Definition streamOrError : Prop :=
  forall name b, snd (NewStreamWriter name b) = None ->
                 snd (fst (NewStreamWriter name b)) <> None.

(** ** The calls on cells of an export *)

(** The calls on cells, merges and streamed rows of a trace. *)
Definition cellsIn (tr : list Call) : list Event := filter isCellCall (events tr).

(** A call that is neither on a cell nor the mark of a row write. *)
Definition setupCall (c : Call) : Prop :=
  isCellCall (what c) = false /\ isWrite (what c) = false.

(** The calls [W] of every row write marked in a list of events. *)
Definition rowCalls (W : string -> Z -> Row -> list Event) (evs : list Event) : list Event :=
  flat_map (fun ev => match ev with EvWriteRow s r row => W s r row | _ => [] end) evs.

(** ** The stream of every row *)

(** What the calls made so far say of the stream in use: the stream the last
    [NewStreamWriter] returned, and the sheet it was asked for. *)
Definition streamInUse : Type := (option SW * option string)%type.

Definition opens (g : streamInUse) (c : Call) : streamInUse :=
  match what c with
  | EvNewStreamWriter s h => (h, Some s)
  | _ => g
  end.

Fixpoint opened (g : streamInUse) (tr : list Call) : streamInUse :=
  match tr with
  | [] => g
  | c :: rest => opened (opens g c) rest
  end.

(** A call on a stream is on the stream in use; a row is written, by the
    loop's count, on the sheet the stream in use was opened on; the hook runs
    with that sheet as the current sheet. *)
Definition inPlace (g : streamInUse) (c : Call) : Prop :=
  match what c with
  | EvSetRow sw _ _ _ | EvStreamMergeCell sw _ _ | EvFlush sw => fst g = Some sw
  | EvWriteRow s _ _ | EvInitHook s => snd g = Some s
  | _ => True
  end.

Fixpoint allInPlace (g : streamInUse) (tr : list Call) : Prop :=
  match tr with
  | [] => True
  | c :: rest => inPlace g c /\ allInPlace (opens g c) rest
  end.

Definition placesOut {A} (J : streamInUse -> Exporter -> Prop) (g : streamInUse)
    (o : Out A) : Prop :=
  allInPlace g (trace o) /\
  (forall a, result o = Ret a -> J (opened g (trace o)) (final o)).

Definition places {A} (I J : streamInUse -> Exporter -> Prop) (m : M A) : Prop :=
  forall e g, I g e -> placesOut J g (m e).

(** In streaming mode, the exporter holds the stream in use. *)
Definition inStep (g : streamInUse) (e : Exporter) : Prop :=
  UseStreamWriter e = true /\ StreamWriter e = fst g.

(** And the stream in use was opened on the current sheet. *)
Definition onCurrent (g : streamInUse) (e : Exporter) : Prop :=
  inStep g e /\ snd g = Some (CurrentSheet e).

(** In step, with [s] the current sheet. *)
Definition inStepAt (s : string) (g : streamInUse) (e : Exporter) : Prop :=
  inStep g e /\ CurrentSheet e = s.

(** A property of the stream in use and the exporter that the workbook does
    not bear on. *)
Definition steady (I : streamInUse -> Exporter -> Prop) : Prop :=
  forall g e b, I g e -> I g (setFile e b).

(** On the stream [sw] the exporter holds. *)
Definition onHeld (sw : SW) (g : streamInUse) (e : Exporter) : Prop :=
  onCurrent g e /\ StreamWriter e = Some sw.

(** ** The flushes of a spec, counted *)

Definition heldList (h : option SW) : list SW :=
  match h with Some sw => [sw] | None => [] end.

(** The streams flushed, in order. *)
Definition flushedIn (tr : list Call) : list SW :=
  flat_map (fun c => match what c with EvFlush sw => [sw] | _ => [] end) tr.

(** The streams that [NewStreamWriter] returned, in order. *)
Definition openedIn (tr : list Call) : list SW :=
  flat_map (fun c => match what c with EvNewStreamWriter _ h => heldList h | _ => [] end) tr.

(** A call that neither flushes nor opens a stream. *)
Definition streamFree (c : Call) : Prop :=
  match what c with EvFlush _ | EvNewStreamWriter _ _ => False | _ => True end.

(** When [m] returns nil: the streams it flushed and then the one it leaves in
    the exporter are the one it found there and then the ones it opened. *)
Definition conserves {A} (m : M A) : Prop :=
  forall e a, result (m e) = Ret a ->
    flushedIn (trace (m e)) ++ heldList (StreamWriter (final (m e))) =
      heldList (StreamWriter e) ++ openedIn (trace (m e)).

(** ** The row numbers *)

(** A row is written at a row number from 1 to [SheetMaxRows]. *)
Definition withinSheet (c : Call) : Prop :=
  match what c with
  | EvWriteRow _ r _ => 1 <= r <= SheetMaxRows
  | _ => True
  end.

(** ** The streams of a spec *)

(** The sheets [NewStreamWriter] was called for, in order. *)
Definition opensOf (tr : list Call) : list string :=
  flat_map (fun c => match what c with EvNewStreamWriter s _ => [s] | _ => [] end) tr.

(** The sheets the init closure was called for, in order. *)
Definition initsIn (evs : list Event) : list string :=
  flat_map (fun ev => match ev with EvInit s => [s] | _ => [] end) evs.

(** A call that is neither the opening of a stream nor a call of the init
    closure. *)
Definition noOpening (c : Call) : Prop :=
  match what c with EvNewStreamWriter _ _ | EvInit _ => False | _ => True end.

(** When [m] returns nil it has opened a stream for every call of the init
    closure, on the sheet of that call. *)
Definition opensAtInit {A} (m : M A) : Prop :=
  forall e a, result (m e) = Ret a -> opensOf (trace (m e)) = initsIn (events (trace (m e))).

(** The source of the spec feeds exactly [rows], within the fuel. *)
Definition fedWithin (fuel : nat) (sheet : SheetData) (rows : list Row) : Prop :=
  Feeds (RowFunc sheet) rows /\ (List.length rows < fuel)%nat.

(** ** The cells of a streamed export *)

(** The stream the last [NewStreamWriter] of a trace returned; [held] when
    the trace has none. *)
Fixpoint lastOpened (held : option SW) (tr : list Call) : option SW :=
  match tr with
  | [] => held
  | c :: rest =>
      lastOpened match what c with EvNewStreamWriter _ h => h | _ => held end rest
  end.

(** The calls of the row writes marked in a trace, each made on the stream
    that was opened last before it. *)
Fixpoint streamCalls (held : option SW) (tr : list Call) : list Event :=
  match tr with
  | [] => []
  | c :: rest =>
      match what c with
      | EvNewStreamWriter _ h => streamCalls h rest
      | EvWriteRow _ r row =>
          match held with Some sw => streamRowEvents sw r row | None => [] end ++
          streamCalls held rest
      | _ => streamCalls held rest
      end
  end.

(** A call that is not on a cell, opens no stream and marks no row write. *)
Definition plainCall (c : Call) : Prop :=
  match what c with
  | EvNewStreamWriter _ _ | EvWriteRow _ _ _ => False
  | ev => isCellCall ev = false
  end.

(** When [m] returns nil, its calls on cells are those of the row writes it
    marked, and it holds the stream it opened last. *)
Definition streams {A} (m : M A) : Prop :=
  forall e a, result (m e) = Ret a ->
    cellsIn (trace (m e)) = streamCalls (StreamWriter e) (trace (m e)) /\
    StreamWriter (final (m e)) = lastOpened (StreamWriter e) (trace (m e)).


(** ** Specs for the examples *)

(** A spec without hook. *)
Definition noHook (name : string) (rowFunc : RowDataFunc) : SheetData :=
  mkSheetData name rowFunc None.

(** * The properties of the exporter *)

(** ** The monad *)

Lemma Sprintf_suffix_1 (name : string) : Sprintf_s_d name 1 = (name ++ "_1")%string.
Proof. reflexivity. Qed.

Lemma SheetMaxRows_eq : SheetMaxRows = 1048576.
Proof. reflexivity. Qed.

Lemma incr_small (z : Z) : - 2 ^ 63 <= z + 1 < 2 ^ 63 -> incr z = z + 1.
Proof.
  intros Hz. unfold incr, wrapInt.
  rewrite Z.mod_small by lia. lia.
Qed.

Lemma layout_app (t1 t2 : list Call) : layout (t1 ++ t2) = layout t1 ++ layout t2.
Proof. unfold layout, events. now rewrite map_app, filter_app. Qed.

Lemma pullsOf_app (t1 t2 : list Call) : pullsOf (t1 ++ t2) = pullsOf t1 ++ pullsOf t2.
Proof. apply flat_map_app. Qed.

Lemma deletesOf_app (t1 t2 : list Call) :
  deletesOf (t1 ++ t2) = deletesOf t1 ++ deletesOf t2.
Proof. apply flat_map_app. Qed.

Lemma bind_Ret_inv {A C} (m : M A) (k : A -> M C) (e : Exporter) (c : C) :
  result (bind m k e) = Ret c ->
  exists a, result (m e) = Ret a /\
            result (k a (final (m e))) = Ret c /\
            trace (bind m k e) = trace (m e) ++ trace (k a (final (m e))) /\
            final (bind m k e) = final (k a (final (m e))).
Proof.
  unfold bind. destruct (result (m e)) as [a | x | | ] eqn:Hm; simpl; try discriminate.
  intros Hk. exists a. auto.
Qed.

Lemma bind_halts_at {A C} (m : M A) (k : A -> M C) (e : Exporter) :
  result (m e) <> Diverge ->
  (forall a, result (m e) = Ret a -> result (k a (final (m e))) <> Diverge) ->
  result (bind m k e) <> Diverge.
Proof.
  unfold bind. destruct (result (m e)) as [a | x | | ]; simpl; intros H1 H2;
    try discriminate; auto.
Qed.

Lemma bind_halts {A C} (m : M A) (k : A -> M C) :
  halts m -> (forall a, halts (k a)) -> halts (bind m k).
Proof. intros Hm Hk e. apply bind_halts_at; [apply Hm | intros; apply Hk]. Qed.

Lemma ret_halts {A} (a : A) : halts (ret a).
Proof. intros e. discriminate. Qed.

Lemma get_halts : halts get.
Proof. intros e. discriminate. Qed.

Lemma resOf_halts (err : option error) : resOf err <> Diverge.
Proof. destruct err; simpl; discriminate. Qed.

Lemma call_halts (ev : Event) op : halts (call ev op).
Proof. intros e. unfold call. destruct (op (File e)). simpl. apply resOf_halts. Qed.

Lemma mark_halts (ev : Event) : halts (mark ev).
Proof. intros e. discriminate. Qed.

Lemma withContext_halts {A} (context : string) (m : M A) :
  halts m -> halts (withContext context m).
Proof.
  intros Hm e. unfold withContext. specialize (Hm e).
  destruct (result (m e)) eqn:Hr; simpl; try rewrite Hr; auto; discriminate.
Qed.

Lemma setCurrentSheet_halts (name : string) : halts (setCurrentSheet name).
Proof. intros e. discriminate. Qed.

Lemma callHook_halts (h : InitFunc_t) : halts (callHook h).
Proof. intros e. unfold callHook. destruct (h e). simpl. apply resOf_halts. Qed.

Lemma newStreamWriter_halts (sheetName : string) : halts (newStreamWriter sheetName).
Proof.
  intros e. unfold newStreamWriter.
  destruct (NewStreamWriter sheetName (File e)) as [[f sw] err]. simpl. apply resOf_halts.
Qed.

Lemma onStream_halts {A} (k : SW -> M A) : (forall sw, halts (k sw)) -> halts (onStream k).
Proof.
  intros Hk e. unfold onStream. destruct (StreamWriter e); [apply Hk | discriminate].
Qed.

(** ** What a computation may emit *)

Section Emits.

Variable P : Call -> Prop.

Lemma emits_ret {A} (a : A) : emits P (ret a).
Proof. intros e. constructor. Qed.

Lemma emits_get : emits P get.
Proof. intros e. constructor. Qed.

Lemma emits_panic {A} : emits P (@panic A).
Proof. intros e. constructor. Qed.

Lemma emits_diverge {A} : emits P (@diverge A).
Proof. intros e. constructor. Qed.

Lemma emits_setCurrentSheet (name : string) : emits P (setCurrentSheet name).
Proof. intros e. constructor. Qed.

Lemma emits_bind {A C} (m : M A) (k : A -> M C) :
  emits P m -> (forall a, emits P (k a)) -> emits P (bind m k).
Proof.
  intros Hm Hk e. unfold bind. specialize (Hm e).
  destruct (result (m e)) as [a | x | | ]; simpl; auto.
  apply Forall_app. split; [assumption | apply Hk].
Qed.

Lemma emits_call (ev : Event) op :
  (forall err, P (mkCall ev err)) -> emits P (call ev op).
Proof.
  intros HP e. unfold call. destruct (op (File e)) as [f err]. simpl.
  constructor; [apply HP | constructor].
Qed.

Lemma emits_mark (ev : Event) : P (mkCall ev None) -> emits P (mark ev).
Proof. intros HP e. simpl. constructor; [apply HP | constructor]. Qed.

Lemma emits_withContext {A} (context : string) (m : M A) :
  emits P m -> emits P (withContext context m).
Proof.
  intros Hm e. unfold withContext. specialize (Hm e).
  destruct (result (m e)); simpl; auto.
Qed.

Lemma emits_callHook (h : InitFunc_t) :
  (forall current err, P (mkCall (EvInitHook current) err)) -> emits P (callHook h).
Proof.
  intros HP e. unfold callHook. destruct (h e) as [e' err]. simpl.
  constructor; [apply HP | constructor].
Qed.

Lemma emits_newStreamWriter (sheetName : string) :
  (forall sw err, P (mkCall (EvNewStreamWriter sheetName sw) err)) ->
  emits P (newStreamWriter sheetName).
Proof.
  intros HP e. unfold newStreamWriter.
  destruct (NewStreamWriter sheetName (File e)) as [[f sw] err]. simpl.
  constructor; [apply HP | constructor].
Qed.

Lemma emits_onStream {A} (k : SW -> M A) :
  (forall sw, emits P (k sw)) -> emits P (onStream k).
Proof.
  intros Hk e. unfold onStream. destruct (StreamWriter e); [apply Hk | constructor].
Qed.

End Emits.

Lemma emits_impl {A} (P Q : Call -> Prop) (m : M A) :
  (forall c, P c -> Q c) -> emits P m -> emits Q m.
Proof. intros HPQ Hm e. eapply Forall_impl; [exact HPQ | apply Hm]. Qed.

Lemma cellCall_quietCall (c : Call) : cellCall c -> quietCall c.
Proof. unfold cellCall, quietCall. destruct (what c); simpl; intros; split; congruence. Qed.

Lemma cellCall_closureCall (c : Call) : cellCall c -> closureCall c.
Proof. intros H. now apply cellCall_quietCall in H as [H _]. Qed.

Ltac emits_step :=
  first
    [ apply emits_ret | apply emits_get | apply emits_panic | apply emits_diverge
    | apply emits_setCurrentSheet
    | apply emits_bind; [ | intros ? ]
    | apply emits_withContext
    | apply emits_call; intros; try reflexivity
    | apply emits_mark; try reflexivity
    | apply emits_callHook; intros; try reflexivity
    | apply emits_newStreamWriter; intros; try reflexivity
    | apply emits_onStream; intros ? ].

Lemma runHook_closure (sheet : SheetData) : emits closureCall (runHook sheet).
Proof. unfold runHook. destruct (InitFunc sheet); repeat emits_step. Qed.

Lemma streamInitFunc_closure (sheet : SheetData) (sheetName : string) :
  emits closureCall (streamInitFunc sheet sheetName).
Proof.
  unfold streamInitFunc. repeat emits_step.
  - destruct (StreamWriter a); repeat emits_step.
  - apply runHook_closure.
Qed.

Lemma streamMerges_cells (sw : SW) (merges : list MergeCell) :
  emits cellCall (streamMerges sw merges).
Proof.
  induction merges as [| mergeCell rest IH]; simpl; repeat emits_step. exact IH.
Qed.

Lemma streamWriteRowFunc_cells (sheetName : string) (rowID : Z) (row : Row) :
  emits cellCall (streamWriteRowFunc sheetName rowID row).
Proof.
  unfold streamWriteRowFunc. repeat emits_step. apply streamMerges_cells.
Qed.

Lemma memoryWriteCell_cells (sheetName : string) (rowID j : Z) (cell : Cell) :
  emits cellCall (memoryWriteCell sheetName rowID j cell).
Proof.
  unfold memoryWriteCell. repeat emits_step.
  - destruct (StyleID cell >? 0); repeat emits_step.
  - destruct (String.eqb (Formula cell) ""); repeat emits_step.
Qed.

Lemma memoryWriteCells_cells (sheetName : string) (rowID : Z) (cells : list Cell) :
  forall j, emits cellCall (memoryWriteCells sheetName rowID j cells).
Proof.
  induction cells as [| cell rest IH]; intros j; simpl.
  - apply emits_ret.
  - apply emits_bind; [apply memoryWriteCell_cells | intros _; apply IH].
Qed.

Lemma memoryMerges_cells (sheetName : string) (merges : list MergeCell) :
  emits cellCall (memoryMerges sheetName merges).
Proof.
  induction merges as [| mergeCell rest IH]; simpl; repeat emits_step. exact IH.
Qed.

Lemma memoryWriteRowFunc_cells (sheetName : string) (rowID : Z) (row : Row) :
  emits cellCall (memoryWriteRowFunc sheetName rowID row).
Proof.
  unfold memoryWriteRowFunc.
  apply emits_bind; [apply memoryWriteCells_cells | intros _; apply memoryMerges_cells].
Qed.

(** ** The loop of exportHelper *)

Section HelperFacts.

Variable sheet : SheetData.
Variable initFunc : string -> M unit.
Variable writeRowFunc : string -> Z -> Row -> M unit.

Local Abbreviation rf := (RowFunc sheet).
Local Abbreviation loop := (helperLoop sheet initFunc writeRowFunc).

Lemma loop_sentinel fuel src rowID suf i e row s1 :
  srcPull rf i src = (row, None, s1) -> Cells row = None ->
  loop (S fuel) src rowID suf i e = mkOut e [mkCall (EvPull i row) None] (Ret tt).
Proof.
  intros Hp Hc. simpl. unfold bind at 1, pull. rewrite Hp. simpl. rewrite Hc.
  reflexivity.
Qed.

Lemma loop_error fuel src rowID suf i e row x s1 :
  srcPull rf i src = (row, Some x, s1) ->
  loop (S fuel) src rowID suf i e = mkOut e [mkCall (EvPull i row) (Some x)] (Raise x).
Proof.
  intros Hp. simpl. unfold bind at 1, pull. rewrite Hp. reflexivity.
Qed.

Lemma loop_row fuel src rowID suf i e row s1 cs :
  srcPull rf i src = (row, None, s1) -> Cells row = Some cs ->
  loop (S fuel) src rowID suf i e =
  before [mkCall (EvPull i row) None]
         (afterPull sheet initFunc writeRowFunc fuel row s1 rowID suf i e).
Proof.
  intros Hp Hc. simpl. unfold bind at 1, pull. rewrite Hp. simpl. rewrite Hc.
  reflexivity.
Qed.

Hypothesis init_halts : forall s, halts (initFunc s).
Hypothesis write_halts : forall s r row, halts (writeRowFunc s r row).

Lemma newSheet_halts (name : string) : halts (newSheet name).
Proof. apply withContext_halts, call_halts. Qed.

Lemma callInit_halts : halts (callInit initFunc).
Proof.
  unfold callInit. apply bind_halts; [apply get_halts | intros e0].
  apply bind_halts; [apply mark_halts | intros _; apply init_halts].
Qed.

Lemma splitIfFull_halts rowID suf : halts (splitIfFull sheet initFunc rowID suf).
Proof.
  unfold splitIfFull. destruct (rowID >? SheetMaxRows); [ | apply ret_halts].
  apply bind_halts; [apply newSheet_halts | intros _].
  apply bind_halts; [apply setCurrentSheet_halts | intros _].
  apply bind_halts; [apply callInit_halts | intros _; apply ret_halts].
Qed.

(** With more fuel than rows, the loop comes to an end. *)
Lemma helperLoop_halts (rows : list Row) :
  forall fuel src i rowID suf e,
    feeds rf i src rows -> (List.length rows < fuel)%nat ->
    result (loop fuel src rowID suf i e) <> Diverge.
Proof.
  induction rows as [| row rest IH]; intros fuel src i rowID suf e Hf Hfuel;
    (destruct fuel as [| fuel]; [simpl in Hfuel; lia | ]).
  - destruct Hf as (row & s1 & Hp & Hc).
    rewrite (loop_sentinel fuel _ rowID suf _ e Hp Hc). discriminate.
  - destruct Hf as (s1 & Hp & Hc & Hrest).
    destruct (Cells row) as [cs | ] eqn:Hcs; [ | now destruct Hc].
    rewrite (loop_row fuel _ rowID suf _ e Hp Hcs). simpl.
    unfold afterPull.
    apply bind_halts_at; [apply splitIfFull_halts | intros q _].
    apply bind_halts_at; [apply get_halts | intros e0 _].
    apply bind_halts_at; [apply mark_halts | intros _ _].
    apply bind_halts_at; [apply write_halts | intros _ _].
    apply IH; [exact Hrest | simpl in Hfuel; lia].
Qed.

Hypothesis init_sheet :
  forall s e, CurrentSheet (final (initFunc s e)) = CurrentSheet e.
Hypothesis write_sheet :
  forall s r row e, CurrentSheet (final (writeRowFunc s r row e)) = CurrentSheet e.
Hypothesis init_layout :
  forall s e, result (initFunc s e) = Ret tt ->
              layout (trace (initFunc s e)) = hookRun sheet (CurrentSheet e).
Hypothesis write_layout :
  forall s r row e, layout (trace (writeRowFunc s r row e)) = [].

Lemma call_sheet ev op e : CurrentSheet (final (call ev op e)) = CurrentSheet e.
Proof. unfold call. destruct (op (File e)) as [f err]. reflexivity. Qed.

Lemma newSheet_events name e : events (trace (newSheet name e)) = [EvNewSheet name].
Proof.
  unfold newSheet, withContext, call. destruct (NewSheet name (File e)) as [f [x | ]];
    reflexivity.
Qed.

Lemma callInit_Ret e :
  result (callInit initFunc e) = Ret tt ->
  layout (trace (callInit initFunc e)) =
    EvInit (CurrentSheet e) :: hookRun sheet (CurrentSheet e) /\
  CurrentSheet (final (callInit initFunc e)) = CurrentSheet e.
Proof.
  unfold callInit, bind, get, mark. simpl.
  destruct (result (initFunc (CurrentSheet e) e)) as [[] | x | | ] eqn:Hr; simpl;
    try discriminate.
  intros _. split; [ | apply init_sheet].
  unfold layout, events. simpl. f_equal. now apply init_layout.
Qed.

Lemma splitIfFull_Ret rowID suf e q :
  result (splitIfFull sheet initFunc rowID suf e) = Ret q ->
  ((rowID >? SheetMaxRows) = false /\ q = (rowID, suf) /\
   trace (splitIfFull sheet initFunc rowID suf e) = [] /\
   final (splitIfFull sheet initFunc rowID suf e) = e)
  \/
  ((rowID >? SheetMaxRows) = true /\ q = (1, incr suf) /\
   let name := Sprintf_s_d (Name sheet) (incr suf) in
   layout (trace (splitIfFull sheet initFunc rowID suf e)) =
     EvNewSheet name :: EvInit name :: hookRun sheet name /\
   CurrentSheet (final (splitIfFull sheet initFunc rowID suf e)) = name).
Proof.
  unfold splitIfFull. destruct (rowID >? SheetMaxRows).
  - intros H. right. split; [reflexivity | ].
    apply bind_Ret_inv in H. destruct H as ([] & H1 & H & T1 & F1).
    apply bind_Ret_inv in H. destruct H as ([] & H2 & H & T2 & F2).
    apply bind_Ret_inv in H. destruct H as ([] & H3 & H & T3 & F3).
    simpl in H. injection H as <-. split; [reflexivity | ].
    cbv zeta. rewrite T1, F1, T2, F2, T3, F3. simpl ret.
    destruct (callInit_Ret _ H3) as [L3 S3].
    rewrite !layout_app, L3. simpl.
    split; [ | exact S3].
    unfold layout at 1. rewrite newSheet_events.
    change (layout []) with (@nil Event). rewrite app_nil_r. reflexivity.
  - simpl. intros H. injection H as <-. left. auto.
Qed.

Lemma helperLoop_layout (rows : list Row) :
  forall fuel src i rowID suf e,
    feeds rf i src rows ->
    result (loop fuel src rowID suf i e) = Ret tt ->
    layout (trace (loop fuel src rowID suf i e)) =
      layoutRows sheet (CurrentSheet e) rowID suf rows.
Proof.
  induction rows as [| row rest IH]; intros fuel src i rowID suf e Hf Hr;
    (destruct fuel as [| fuel]; [discriminate | ]).
  - destruct Hf as (row & s1 & Hp & Hc).
    rewrite (loop_sentinel fuel _ rowID suf _ e Hp Hc). reflexivity.
  - destruct Hf as (s1 & Hp & Hc & Hrest).
    destruct (Cells row) as [cs | ] eqn:Hcs; [ | now destruct Hc].
    rewrite (loop_row fuel _ rowID suf _ e Hp Hcs) in Hr |- *.
    simpl in Hr. simpl trace.
    change (layout (mkCall (EvPull i row) None :: ?t)) with (layout t).
    unfold afterPull in Hr |- *.
    apply bind_Ret_inv in Hr. destruct Hr as (q & H1 & Hr & T1 & F1).
    apply bind_Ret_inv in Hr. destruct Hr as (e0 & H2 & Hr & T2 & F2).
    apply bind_Ret_inv in Hr. destruct Hr as ([] & H3 & Hr & T3 & F3).
    apply bind_Ret_inv in Hr. destruct Hr as ([] & H4 & Hr & T4 & F4).
    rewrite T1, T2, T3, T4. simpl in H2. injection H2 as <-.
    simpl get. simpl mark. simpl final. simpl trace.
    pose proof (IH _ _ _ _ _ _ Hrest Hr) as HIH.
    simpl get in HIH. simpl mark in HIH. simpl final in HIH.
    rewrite !layout_app, write_layout, HIH, write_sheet.
    change (layout []) with (@nil Event). simpl app.
    destruct (splitIfFull_Ret _ _ _ H1) as [(Hlt & -> & Ts & Fs) | (Hgt & -> & Ls & Ss)].
    + cbn [layoutRows]. rewrite Ts, Fs, Hlt. reflexivity.
    + cbv zeta in Ls, Ss. cbn [layoutRows]. rewrite Ls, Ss, Hgt. cbn [fst snd].
      reflexivity.
Qed.

Lemma exportHelper_halts (rows : list Row) (fuel : nat) (e : Exporter) :
  Feeds rf rows -> (List.length rows < fuel)%nat ->
  result (exportHelper sheet initFunc writeRowFunc fuel e) <> Diverge.
Proof.
  intros Hf Hfuel. unfold exportHelper.
  apply bind_halts_at; [apply setCurrentSheet_halts | intros _ _].
  apply bind_halts_at; [apply callInit_halts | intros _ _].
  now apply helperLoop_halts with (rows := rows).
Qed.

Lemma exportHelper_layout (rows : list Row) (fuel : nat) (e : Exporter) :
  Feeds rf rows ->
  result (exportHelper sheet initFunc writeRowFunc fuel e) = Ret tt ->
  layout (trace (exportHelper sheet initFunc writeRowFunc fuel e)) =
    EvInit (Name sheet) :: hookRun sheet (Name sheet) ++
    layoutRows sheet (Name sheet) 1 0 rows.
Proof.
  intros Hf Hr. unfold exportHelper in Hr |- *.
  apply bind_Ret_inv in Hr. destruct Hr as ([] & H1 & Hr & T1 & F1).
  apply bind_Ret_inv in Hr. destruct Hr as ([] & H2 & Hr & T2 & F2).
  rewrite T1, T2.
  destruct (callInit_Ret _ H2) as [L2 S2].
  pose proof (helperLoop_layout _ _ _ _ _ _ _ Hf Hr) as HL.
  rewrite S2 in HL.
  change (trace (setCurrentSheet (Name sheet) e)) with (@nil Call). cbn [app].
  rewrite layout_app, L2, HL. reflexivity.
Qed.

(** While the sheet is not full the rows go one below the other. *)
Lemma layoutRows_block (rows : list Row) :
  forall current rowID suf,
    1 <= rowID -> rowID + Z.of_nat (List.length rows) <= SheetMaxRows + 1 ->
    layoutRows sheet current rowID suf rows = writeBlock current rowID rows.
Proof.
  pose proof SheetMaxRows_eq as HN.
  induction rows as [| row rest IH]; intros current rowID suf H1 H2; [reflexivity | ].
  cbn [layoutRows writeBlock]. cbn [List.length] in H2.
  replace (rowID >? SheetMaxRows) with false by (symmetry; rewrite Z.gtb_ltb; apply Z.ltb_ge; lia).
  rewrite incr_small by lia. f_equal. apply IH; lia.
Qed.

Lemma layoutRows_app (rows more : list Row) :
  forall current rowID suf,
    1 <= rowID -> rowID + Z.of_nat (List.length rows) <= SheetMaxRows + 1 ->
    layoutRows sheet current rowID suf (rows ++ more) =
      writeBlock current rowID rows ++
      layoutRows sheet current (rowID + Z.of_nat (List.length rows)) suf more.
Proof.
  pose proof SheetMaxRows_eq as HN.
  induction rows as [| row rest IH]; intros current rowID suf H1 H2.
  - simpl. now rewrite Z.add_0_r.
  - cbn [layoutRows writeBlock app]. cbn [List.length] in H2 |- *.
    replace (rowID >? SheetMaxRows) with false by (symmetry; rewrite Z.gtb_ltb; apply Z.ltb_ge; lia).
    rewrite incr_small by lia. f_equal.
    rewrite IH by lia. do 2 f_equal. lia.
Qed.

(** One row more than a sheet holds: the last one opens the sheet
    [<name>_1] and is its row 1. *)
Lemma layoutRows_overflow (rows : list Row) (last : Row) :
  Z.of_nat (List.length rows) = SheetMaxRows ->
  layoutRows sheet (Name sheet) 1 0 (rows ++ [last]) =
    writeBlock (Name sheet) 1 rows ++
    EvNewSheet (Name sheet ++ "_1") :: EvInit (Name sheet ++ "_1") ::
    hookRun sheet (Name sheet ++ "_1") ++ [EvWriteRow (Name sheet ++ "_1") 1 last].
Proof.
  intros Hlen. rewrite layoutRows_app by lia. f_equal.
  cbn [layoutRows].
  replace (1 + Z.of_nat (List.length rows) >? SheetMaxRows) with true
    by (symmetry; apply Z.gtb_lt; lia).
  change (incr 0) with 1. rewrite Sprintf_suffix_1. reflexivity.
Qed.

End HelperFacts.

(** ** What a computation leaves unchanged *)

Section Keeps.

Context {X : Type} (f : Exporter -> X) (f_fileFree : fileFree f).

Lemma keeps_ret {A} (a : A) : keeps f (ret a).
Proof. intros e. reflexivity. Qed.

Lemma keeps_get : keeps f get.
Proof. intros e. reflexivity. Qed.

Lemma keeps_mark (ev : Event) : keeps f (mark ev).
Proof. intros e. reflexivity. Qed.

Lemma keeps_bind {A C} (m : M A) (k : A -> M C) :
  keeps f m -> (forall a, keeps f (k a)) -> keeps f (bind m k).
Proof.
  intros Hm Hk e. unfold bind. specialize (Hm e).
  destruct (result (m e)) as [a | x | | ]; simpl; auto.
  now rewrite Hk.
Qed.

Lemma keeps_call (ev : Event) op : keeps f (call ev op).
Proof. intros e. unfold call. destruct (op (File e)). simpl. apply f_fileFree. Qed.

Lemma keeps_withContext {A} (context : string) (m : M A) :
  keeps f m -> keeps f (withContext context m).
Proof.
  intros Hm e. unfold withContext. specialize (Hm e).
  destruct (result (m e)); simpl; auto.
Qed.

Lemma keeps_onStream {A} (k : SW -> M A) : (forall sw, keeps f (k sw)) -> keeps f (onStream k).
Proof. intros Hk e. unfold onStream. destruct (StreamWriter e); [apply Hk | reflexivity]. Qed.

Lemma keeps_runHook (sheet : SheetData) : hookKeepsExporter sheet -> keeps f (runHook sheet).
Proof.
  intros Hh e. unfold runHook. destruct (InitFunc sheet) as [h | ] eqn:Hi; [ | reflexivity].
  unfold callHook. specialize (Hh h e Hi). destruct (h e) as [e' err]. simpl in *.
  rewrite Hh. apply f_fileFree.
Qed.

Lemma keeps_streamMerges (sw : SW) (merges : list MergeCell) : keeps f (streamMerges sw merges).
Proof.
  induction merges as [| mergeCell rest IH]; simpl; [apply keeps_ret | ].
  apply keeps_bind; [apply keeps_call | intros _; exact IH].
Qed.

Lemma keeps_streamWriteRowFunc sheetName rowID row :
  keeps f (streamWriteRowFunc sheetName rowID row).
Proof.
  unfold streamWriteRowFunc. apply keeps_onStream. intros sw.
  apply keeps_bind; [apply keeps_call | intros _; apply keeps_streamMerges].
Qed.

Lemma keeps_memoryWriteCell sheetName rowID j cell :
  keeps f (memoryWriteCell sheetName rowID j cell).
Proof.
  unfold memoryWriteCell.
  apply keeps_bind; [apply keeps_call | intros _].
  apply keeps_bind; [destruct (StyleID cell >? 0); [apply keeps_call | apply keeps_ret] | intros _].
  destruct (String.eqb (Formula cell) ""); [apply keeps_ret | apply keeps_call].
Qed.

Lemma keeps_memoryWriteCells sheetName rowID cells :
  forall j, keeps f (memoryWriteCells sheetName rowID j cells).
Proof.
  induction cells as [| cell rest IH]; intros j; simpl; [apply keeps_ret | ].
  apply keeps_bind; [apply keeps_memoryWriteCell | intros _; apply IH].
Qed.

Lemma keeps_memoryMerges sheetName merges : keeps f (memoryMerges sheetName merges).
Proof.
  induction merges as [| mergeCell rest IH]; simpl; [apply keeps_ret | ].
  apply keeps_bind; [apply keeps_call | intros _; exact IH].
Qed.

Lemma keeps_memoryWriteRowFunc sheetName rowID row :
  keeps f (memoryWriteRowFunc sheetName rowID row).
Proof.
  unfold memoryWriteRowFunc.
  apply keeps_bind; [apply keeps_memoryWriteCells | intros _; apply keeps_memoryMerges].
Qed.

End Keeps.

Lemma CurrentSheet_fileFree : fileFree CurrentSheet.
Proof. intros e b. reflexivity. Qed.

Lemma StreamWriter_fileFree : fileFree StreamWriter.
Proof. intros e b. reflexivity. Qed.

Lemma UseStreamWriter_fileFree : fileFree UseStreamWriter.
Proof. intros e b. reflexivity. Qed.

Lemma keeps_sheet_newStreamWriter sheetName : keeps CurrentSheet (newStreamWriter sheetName).
Proof.
  intros e. unfold newStreamWriter.
  destruct (NewStreamWriter sheetName (File e)) as [[b sw] err]. reflexivity.
Qed.

Lemma keeps_sheet_streamInitFunc sheet sheetName :
  hookKeepsExporter sheet -> keeps CurrentSheet (streamInitFunc sheet sheetName).
Proof.
  intros Hh. unfold streamInitFunc.
  apply keeps_bind; [apply keeps_get | intros e0].
  apply keeps_bind;
    [destruct (StreamWriter e0); [apply keeps_call, CurrentSheet_fileFree | apply keeps_ret]
    | intros _].
  apply keeps_bind; [apply keeps_sheet_newStreamWriter | intros _].
  apply keeps_runHook; [apply CurrentSheet_fileFree | exact Hh].
Qed.

(** ** The closures of the two strategies, seen from exportHelper *)

Lemma layout_quiet (tr : list Call) : Forall quietCall tr -> layout tr = [].
Proof.
  induction 1 as [| c tr [_ Hc] _ IH]; [reflexivity | ].
  unfold layout, events in *. simpl. now rewrite Hc.
Qed.

Lemma layout_cells (tr : list Call) : Forall cellCall tr -> layout tr = [].
Proof.
  intros H. apply layout_quiet. eapply Forall_impl; [apply cellCall_quietCall | exact H].
Qed.

Lemma runHook_layout sheet e :
  layout (trace (runHook sheet e)) = hookRun sheet (CurrentSheet e).
Proof.
  unfold runHook, hookRun. destruct (InitFunc sheet) as [h | ]; [ | reflexivity].
  unfold callHook. destruct (h e). reflexivity.
Qed.

Lemma runHook_halts sheet : halts (runHook sheet).
Proof.
  unfold runHook. destruct (InitFunc sheet); [apply callHook_halts | apply ret_halts].
Qed.

Lemma streamInitFunc_halts sheet sheetName : halts (streamInitFunc sheet sheetName).
Proof.
  unfold streamInitFunc.
  apply bind_halts; [apply get_halts | intros e0].
  apply bind_halts;
    [destruct (StreamWriter e0); [apply call_halts | apply ret_halts] | intros _].
  apply bind_halts; [apply newStreamWriter_halts | intros _; apply runHook_halts].
Qed.

Lemma streamMerges_halts sw merges : halts (streamMerges sw merges).
Proof.
  induction merges as [| mergeCell rest IH]; simpl; [apply ret_halts | ].
  apply bind_halts; [apply call_halts | intros _; exact IH].
Qed.

Lemma streamWriteRowFunc_halts sheetName rowID row :
  halts (streamWriteRowFunc sheetName rowID row).
Proof.
  unfold streamWriteRowFunc. apply onStream_halts. intros sw.
  apply bind_halts; [apply call_halts | intros _; apply streamMerges_halts].
Qed.

Lemma memoryWriteCell_halts sheetName rowID j cell :
  halts (memoryWriteCell sheetName rowID j cell).
Proof.
  unfold memoryWriteCell.
  apply bind_halts; [apply call_halts | intros _].
  apply bind_halts; [destruct (StyleID cell >? 0); [apply call_halts | apply ret_halts] | intros _].
  destruct (String.eqb (Formula cell) ""); [apply ret_halts | apply call_halts].
Qed.

Lemma memoryWriteCells_halts sheetName rowID cells :
  forall j, halts (memoryWriteCells sheetName rowID j cells).
Proof.
  induction cells as [| cell rest IH]; intros j; simpl; [apply ret_halts | ].
  apply bind_halts; [apply memoryWriteCell_halts | intros _; apply IH].
Qed.

Lemma memoryMerges_halts sheetName merges : halts (memoryMerges sheetName merges).
Proof.
  induction merges as [| mergeCell rest IH]; simpl; [apply ret_halts | ].
  apply bind_halts; [apply call_halts | intros _; exact IH].
Qed.

Lemma memoryWriteRowFunc_halts sheetName rowID row :
  halts (memoryWriteRowFunc sheetName rowID row).
Proof.
  unfold memoryWriteRowFunc.
  apply bind_halts; [apply memoryWriteCells_halts | intros _; apply memoryMerges_halts].
Qed.

Lemma streamInitFunc_layout sheet sheetName e :
  result (streamInitFunc sheet sheetName e) = Ret tt ->
  layout (trace (streamInitFunc sheet sheetName e)) = hookRun sheet (CurrentSheet e).
Proof.
  intros Hr. unfold streamInitFunc in Hr |- *.
  apply bind_Ret_inv in Hr. destruct Hr as (e0 & H1 & Hr & T1 & F1).
  simpl in H1. injection H1 as <-.
  apply bind_Ret_inv in Hr. destruct Hr as ([] & H2 & Hr & T2 & F2).
  apply bind_Ret_inv in Hr. destruct Hr as ([] & H3 & Hr & T3 & F3).
  rewrite T1, T2, T3. simpl get. simpl final. simpl trace. cbn [app].
  rewrite !layout_app, runHook_layout.
  rewrite keeps_sheet_newStreamWriter.
  assert (HS : CurrentSheet (final (match StreamWriter e with
                                    | Some sw => call (EvFlush sw) (Flush sw)
                                    | None => ret tt
                                    end e)) = CurrentSheet e).
  { destruct (StreamWriter e); [apply keeps_call, CurrentSheet_fileFree | reflexivity]. }
  rewrite HS.
  rewrite (layout_quiet (tr := trace (newStreamWriter _ _))).
  - rewrite (layout_quiet (tr := trace (match StreamWriter e with
                                    | Some sw => call (EvFlush sw) (Flush sw)
                                    | None => ret tt
                                    end e))); [reflexivity | ].
    destruct (StreamWriter e); [ | constructor].
    apply emits_call. intros err. split; reflexivity.
  - apply emits_newStreamWriter. intros sw err. split; reflexivity.
Qed.

(** ** One sheet spec, under either strategy *)

Lemma bind_get {A} (k : Exporter -> M A) (e : Exporter) : bind get k e = k e e.
Proof. unfold bind, get, before. simpl. now destruct (k e e). Qed.

Lemma exportUsingMemory_layout fuel sheet rows e :
  hookKeepsExporter sheet -> Feeds (RowFunc sheet) rows ->
  result (exportUsingMemory fuel sheet e) = Ret tt ->
  layout (trace (exportUsingMemory fuel sheet e)) = sheetLayout sheet rows.
Proof.
  intros Hh Hf Hr. unfold exportUsingMemory in *.
  apply exportHelper_layout; auto.
  - intros s. apply keeps_runHook; [apply CurrentSheet_fileFree | exact Hh].
  - intros s r row. apply keeps_memoryWriteRowFunc, CurrentSheet_fileFree.
  - intros s e0 _. apply runHook_layout.
  - intros s r row e0. apply layout_cells, memoryWriteRowFunc_cells.
Qed.

Lemma exportUsingStreamWriter_layout fuel sheet rows e :
  hookKeepsExporter sheet -> Feeds (RowFunc sheet) rows ->
  result (exportUsingStreamWriter fuel sheet e) = Ret tt ->
  layout (trace (exportUsingStreamWriter fuel sheet e)) = sheetLayout sheet rows.
Proof.
  intros Hh Hf Hr. unfold exportUsingStreamWriter in *.
  apply bind_Ret_inv in Hr. destruct Hr as ([] & H1 & Hr & T1 & F1).
  rewrite T1, layout_app.
  rewrite (layout_quiet (tr := trace (onStream _ _))).
  - rewrite app_nil_r. apply exportHelper_layout; auto.
    + intros s. now apply keeps_sheet_streamInitFunc.
    + intros s r row. apply keeps_streamWriteRowFunc, CurrentSheet_fileFree.
    + intros s e0. apply streamInitFunc_layout.
    + intros s r row e0. apply layout_cells, streamWriteRowFunc_cells.
  - apply emits_onStream. intros sw. apply emits_call. intros err. split; reflexivity.
Qed.

Lemma exportSheet_layout fuel sheet rows e :
  hookKeepsExporter sheet -> Feeds (RowFunc sheet) rows ->
  result (exportSheet fuel sheet e) = Ret tt ->
  layout (trace (exportSheet fuel sheet e)) = sheetLayout sheet rows.
Proof.
  unfold exportSheet. rewrite bind_get. destruct (UseStreamWriter e).
  - apply exportUsingStreamWriter_layout.
  - apply exportUsingMemory_layout.
Qed.

Lemma exportSheet_halts fuel sheet rows e :
  Feeds (RowFunc sheet) rows -> (List.length rows < fuel)%nat ->
  result (exportSheet fuel sheet e) <> Diverge.
Proof.
  intros Hf Hfuel. unfold exportSheet. rewrite bind_get. destruct (UseStreamWriter e).
  - unfold exportUsingStreamWriter. apply bind_halts_at.
    + apply exportHelper_halts with (rows := rows); auto.
      * apply streamInitFunc_halts.
      * apply streamWriteRowFunc_halts.
    + intros _ _. apply onStream_halts. intros sw. apply call_halts.
  - unfold exportUsingMemory. apply exportHelper_halts with (rows := rows); auto.
    + intros s. apply runHook_halts.
    + apply memoryWriteRowFunc_halts.
Qed.

Lemma deleteDefaultSheet_halts i : halts (deleteDefaultSheet i).
Proof.
  unfold deleteDefaultSheet. apply bind_halts; [apply get_halts | intros e0].
  destruct ((i =? 0) && (SheetCount (File e0) >? 1));
    [apply withContext_halts, call_halts | apply ret_halts].
Qed.

Lemma deleteDefaultSheet_layout i e : layout (trace (deleteDefaultSheet i e)) = [].
Proof.
  unfold deleteDefaultSheet. rewrite bind_get.
  destruct ((i =? 0) && (SheetCount (File e) >? 1)); [ | reflexivity].
  unfold withContext, call. destruct (DeleteSheet "Sheet1" (File e)) as [b [x | ]]; reflexivity.
Qed.

Lemma exportOne_halts fuel i sheet rows e :
  Feeds (RowFunc sheet) rows -> (List.length rows < fuel)%nat ->
  result (exportOne fuel i sheet e) <> Diverge.
Proof.
  intros Hf Hfuel. unfold exportOne.
  apply bind_halts_at; [apply newSheet_halts | intros _ _].
  apply bind_halts_at; [apply deleteDefaultSheet_halts | intros _ _].
  now apply exportSheet_halts with (rows := rows).
Qed.

Lemma exportOne_layout fuel i sheet rows e :
  hookKeepsExporter sheet -> Feeds (RowFunc sheet) rows ->
  result (exportOne fuel i sheet e) = Ret tt ->
  layout (trace (exportOne fuel i sheet e)) =
    EvNewSheet (Name sheet) :: sheetLayout sheet rows.
Proof.
  intros Hh Hf Hr. unfold exportOne in *.
  apply bind_Ret_inv in Hr. destruct Hr as ([] & H1 & Hr & T1 & F1).
  apply bind_Ret_inv in Hr. destruct Hr as ([] & H2 & Hr & T2 & F2).
  rewrite T1, T2, !layout_app, deleteDefaultSheet_layout.
  rewrite (exportSheet_layout _ _ _ Hh Hf Hr).
  unfold layout at 1. rewrite newSheet_events. reflexivity.
Qed.

(** ** The pulls of one spec *)

Lemma closureCall_notPull (c : Call) : closureCall c -> notPull c.
Proof. unfold closureCall, notPull. destruct (what c); simpl; congruence. Qed.

Lemma flushCall_notPull (c : Call) : flushCall c -> notPull c.
Proof. unfold flushCall, notPull. destruct (what c); simpl; congruence. Qed.

Lemma notPull_stopping (c : Call) : notPull c -> stopping c = false.
Proof. unfold notPull, stopping. destruct (what c); simpl; congruence. Qed.

Lemma notPull_pullsOf (tr : list Call) : Forall notPull tr -> pullsOf tr = [].
Proof.
  induction 1 as [| c tr Hc _ IH]; [reflexivity | ].
  simpl. rewrite IH. unfold notPull in Hc. destruct (what c); simpl in *; congruence.
Qed.

Lemma calm_prefix (t1 t2 : list Call) :
  Forall notPull t1 -> calmAfterStop t2 -> calmAfterStop (t1 ++ t2).
Proof.
  induction 1 as [| c t1 Hc _ IH]; intros H2; [exact H2 | ].
  simpl. split; [ | auto]. rewrite (notPull_stopping Hc). discriminate.
Qed.

Lemma calm_suffix (t1 t2 : list Call) :
  calmAfterStop t1 -> Forall flushCall t2 -> calmAfterStop (t1 ++ t2).
Proof.
  induction t1 as [| c t1 IH]; simpl; intros H1 H2.
  - rewrite <- (app_nil_r t2). apply calm_prefix; [ | exact I].
    eapply Forall_impl; [apply flushCall_notPull | exact H2].
  - destruct H1 as [Hc H1]. split; [ | auto].
    intros Hs. apply Forall_app. auto.
Qed.

Lemma calm_split (tr pre post : list Call) (c : Call) :
  calmAfterStop tr -> tr = pre ++ c :: post -> stopping c = true ->
  Forall flushCall post.
Proof.
  intros Htr ->. induction pre as [| c0 pre IH]; simpl in Htr; destruct Htr as [H1 H2]; auto.
Qed.

Lemma pullTrace_nil i bound : pullTrace i bound [].
Proof. split; [exact I | ]. exists 0%nat. split; [lia | reflexivity]. Qed.

Lemma pullTrace_prefix i bound (t1 t2 : list Call) :
  Forall notPull t1 -> pullTrace i bound t2 -> pullTrace i bound (t1 ++ t2).
Proof.
  intros H1 [Hc (n & Hn & Hp)]. split; [now apply calm_prefix | ].
  exists n. split; [exact Hn | ]. now rewrite pullsOf_app, notPull_pullsOf.
Qed.

Lemma pullTrace_suffix i bound (t1 t2 : list Call) :
  pullTrace i bound t1 -> Forall flushCall t2 -> pullTrace i bound (t1 ++ t2).
Proof.
  intros [Hc (n & Hn & Hp)] H2. split; [now apply calm_suffix | ].
  exists n. split; [exact Hn | ].
  rewrite pullsOf_app, Hp, notPull_pullsOf, app_nil_r; [reflexivity | ].
  eapply Forall_impl; [apply flushCall_notPull | exact H2].
Qed.

Lemma pullTrace_last i bound row err :
  stopping (mkCall (EvPull i row) err) = true ->
  pullTrace i (S bound) [mkCall (EvPull i row) err].
Proof.
  intros Hs. split; [simpl; auto | ].
  exists 1%nat. split; [lia | reflexivity].
Qed.

Lemma pullTrace_cons i bound row (tr : list Call) :
  Cells row <> None ->
  pullTrace (incr i) bound tr -> pullTrace i (S bound) (mkCall (EvPull i row) None :: tr).
Proof.
  intros Hrow [Hc (n & Hn & Hp)]. split.
  - simpl. split; [ | exact Hc]. unfold stopping. simpl.
    destruct (Cells row); [discriminate | now destruct Hrow].
  - exists (S n). split; [lia | ]. simpl. now rewrite Hp.
Qed.

Lemma bind_pull_prefix {A C} i bound (m : M A) (k : A -> M C) (e : Exporter) :
  emits notPull m -> (forall a e', pullTrace i bound (trace (k a e'))) ->
  pullTrace i bound (trace (bind m k e)).
Proof.
  intros Hm Hk. unfold bind. specialize (Hm e).
  destruct (result (m e)) as [a | x | | ]; simpl;
    try (rewrite <- (app_nil_r (trace (m e))); apply pullTrace_prefix;
         [exact Hm | apply pullTrace_nil]).
  apply pullTrace_prefix; [exact Hm | apply Hk].
Qed.

Lemma bind_pull_suffix {A C} i bound (m : M A) (k : A -> M C) (e : Exporter) :
  pullTrace i bound (trace (m e)) -> (forall a, emits flushCall (k a)) ->
  pullTrace i bound (trace (bind m k e)).
Proof.
  intros Hm Hk. unfold bind.
  destruct (result (m e)) as [a | x | | ]; simpl; auto.
  apply pullTrace_suffix; [exact Hm | apply Hk].
Qed.

Lemma newSheet_notPull name : emits notPull (newSheet name).
Proof. apply emits_withContext, emits_call. reflexivity. Qed.

Lemma deleteDefaultSheet_notPull i : emits notPull (deleteDefaultSheet i).
Proof.
  unfold deleteDefaultSheet. apply emits_bind; [apply emits_get | intros e0].
  destruct ((i =? 0) && (SheetCount (File e0) >? 1)); [ | apply emits_ret].
  apply emits_withContext, emits_call. reflexivity.
Qed.

Section HelperPulls.

Variable sheet : SheetData.
Variable initFunc : string -> M unit.
Variable writeRowFunc : string -> Z -> Row -> M unit.

Hypothesis init_closure : forall s, emits closureCall (initFunc s).
Hypothesis write_closure : forall s r row, emits closureCall (writeRowFunc s r row).

Lemma callInit_notPull : emits notPull (callInit initFunc).
Proof.
  unfold callInit. apply emits_bind; [apply emits_get | intros e0].
  apply emits_bind; [apply emits_mark; reflexivity | intros _].
  eapply emits_impl; [apply closureCall_notPull | apply init_closure].
Qed.

Lemma splitIfFull_notPull rowID suf : emits notPull (splitIfFull sheet initFunc rowID suf).
Proof.
  unfold splitIfFull. destruct (rowID >? SheetMaxRows); [ | apply emits_ret].
  apply emits_bind; [apply newSheet_notPull | intros _].
  apply emits_bind; [apply emits_setCurrentSheet | intros _].
  apply emits_bind; [apply callInit_notPull | intros _; apply emits_ret].
Qed.

Lemma helperLoop_pulls (fuel : nat) :
  forall src rowID suf i e,
    pullTrace i fuel (trace (helperLoop sheet initFunc writeRowFunc fuel src rowID suf i e)).
Proof.
  induction fuel as [| fuel IH]; intros src rowID suf i e; [apply pullTrace_nil | ].
  destruct (srcPull (RowFunc sheet) i src) as [[row [x | ]] s1] eqn:Hp.
  - rewrite (loop_error sheet initFunc writeRowFunc fuel src rowID suf i e Hp). now apply pullTrace_last.
  - destruct (Cells row) as [cs | ] eqn:Hc.
    + rewrite (loop_row sheet initFunc writeRowFunc fuel src rowID suf i e Hp Hc). simpl trace.
      apply pullTrace_cons; [congruence | ]. unfold afterPull.
      apply bind_pull_prefix; [apply splitIfFull_notPull | intros q e1].
      apply bind_pull_prefix; [apply emits_get | intros e2 e3].
      apply bind_pull_prefix; [apply emits_mark; reflexivity | intros _ e4].
      apply bind_pull_prefix; [ | intros _ e5; apply IH].
      eapply emits_impl; [apply closureCall_notPull | apply write_closure].
    + rewrite (loop_sentinel sheet initFunc writeRowFunc fuel src rowID suf i e Hp Hc).
      apply pullTrace_last. unfold stopping. simpl. now rewrite Hc.
Qed.

Lemma exportHelper_pulls fuel e :
  pullTrace 0 fuel (trace (exportHelper sheet initFunc writeRowFunc fuel e)).
Proof.
  unfold exportHelper.
  apply bind_pull_prefix; [apply emits_setCurrentSheet | intros _ e1].
  apply bind_pull_prefix; [apply callInit_notPull | intros _ e2].
  apply helperLoop_pulls.
Qed.

End HelperPulls.

Lemma exportSheet_pulls fuel sheet e :
  pullTrace 0 fuel (trace (exportSheet fuel sheet e)).
Proof.
  unfold exportSheet. rewrite bind_get. destruct (UseStreamWriter e).
  - unfold exportUsingStreamWriter. apply bind_pull_suffix.
    + apply exportHelper_pulls.
      * apply streamInitFunc_closure.
      * intros s r row. eapply emits_impl;
          [apply cellCall_closureCall | apply streamWriteRowFunc_cells].
    + intros _. apply emits_onStream. intros sw. apply emits_call. reflexivity.
  - unfold exportUsingMemory. apply exportHelper_pulls.
    + intros s. apply runHook_closure.
    + intros s r row. eapply emits_impl;
        [apply cellCall_closureCall | apply memoryWriteRowFunc_cells].
Qed.

Lemma exportOne_pulls fuel i sheet e :
  pullTrace 0 fuel (trace (exportOne fuel i sheet e)).
Proof.
  unfold exportOne.
  apply bind_pull_prefix; [apply newSheet_notPull | intros _ e1].
  apply bind_pull_prefix; [apply deleteDefaultSheet_notPull | intros _ e2].
  apply exportSheet_pulls.
Qed.

Lemma countFrom_seq (n : nat) :
  forall i, 0 <= i -> i + Z.of_nat n <= 2 ^ 63 ->
            countFrom i n = map (fun k => i + Z.of_nat k) (seq 0 n).
Proof.
  induction n as [| n IH]; intros i Hi Hn; [reflexivity | ].
  cbn [countFrom seq map]. rewrite Z.add_0_r. f_equal.
  destruct n as [| n]; [reflexivity | ].
  rewrite incr_small by lia. rewrite IH by lia.
  rewrite <- seq_shift, map_map. apply map_ext. intros k. lia.
Qed.

(** ** Errors *)

Lemma strict_carries {A} (m : M A) : strict eq m -> strict carries m.
Proof.
  intros Hm e. specialize (Hm e). unfold aborted in *.
  destruct (result (m e)); auto.
  destruct Hm as (pre & c & x0 & Ht & Hpre & Hc & ->).
  exists pre, c, x0. repeat split; auto. now left.
Qed.

Lemma strict_ret {A} R (a : A) : strict R (ret a).
Proof. intros e. constructor. Qed.

Lemma strict_get R : strict R get.
Proof. intros e. constructor. Qed.

Lemma strict_panic {A} R : strict R (@panic A).
Proof. intros e. constructor. Qed.

Lemma strict_diverge {A} R : strict R (@diverge A).
Proof. intros e. constructor. Qed.

Lemma strict_setCurrentSheet R name : strict R (setCurrentSheet name).
Proof. intros e. constructor. Qed.

Lemma strict_mark R ev : strict R (mark ev).
Proof. intros e. repeat constructor. Qed.

Lemma aborted_single {A} (e' : Exporter) (ev : Event) (err : option error) (a : A) :
  aborted eq (mkOut e' [mkCall ev err] match err with None => Ret a | Some x => Raise x end).
Proof.
  unfold aborted. destruct err as [x | ]; simpl.
  - exists [], (mkCall ev (Some x)), x. repeat split; constructor.
  - repeat constructor.
Qed.

Lemma strict_call ev op : strict eq (call ev op).
Proof. intros e. unfold call. destruct (op (File e)) as [b err]. apply aborted_single. Qed.

Lemma strict_callHook h : strict eq (callHook h).
Proof. intros e. unfold callHook. destruct (h e) as [e' err]. apply aborted_single. Qed.

Lemma strict_newStreamWriter sheetName : strict eq (newStreamWriter sheetName).
Proof.
  intros e. unfold newStreamWriter.
  destruct (NewStreamWriter sheetName (File e)) as [[b sw] err]. apply aborted_single.
Qed.

Lemma strict_withContext {A} (context : string) (m : M A) :
  strict eq m -> strict carries (withContext context m).
Proof.
  intros Hm e. specialize (Hm e). unfold withContext, aborted in *.
  destruct (result (m e)) eqn:Hr; simpl; rewrite ?Hr; auto.
  destruct Hm as (pre & c & x0 & Ht & Hpre & Hc & ->).
  exists pre, c, x0. repeat split; auto. right. now exists context.
Qed.

Lemma strict_bind {A C} R (m : M A) (k : A -> M C) :
  strict R m -> (forall a, strict R (k a)) -> strict R (bind m k).
Proof.
  intros Hm Hk e. specialize (Hm e). unfold bind, aborted in *.
  destruct (result (m e)) as [a | x | | ]; simpl; auto.
  specialize (Hk a (final (m e))). unfold aborted in Hk.
  destruct (result (k a (final (m e)))) as [a' | x | | ];
    try (apply Forall_app; split; assumption).
  destruct Hk as (pre & c & x0 & Ht & Hpre & Hc & HR).
  exists (trace (m e) ++ pre), c, x0. rewrite Ht, app_assoc.
  repeat split; auto. apply Forall_app. split; assumption.
Qed.

Lemma strict_onStream {A} R (k : SW -> M A) :
  (forall sw, strict R (k sw)) -> strict R (onStream k).
Proof.
  intros Hk e. unfold onStream. destruct (StreamWriter e); [apply Hk | constructor].
Qed.

Lemma strict_pull sheet i src : strict eq (pull sheet i src).
Proof.
  intros e. unfold pull. destruct (srcPull (RowFunc sheet) i src) as [[row err] s1].
  apply aborted_single.
Qed.

Ltac strict_step :=
  first
    [ apply strict_ret | apply strict_get | apply strict_panic | apply strict_diverge
    | apply strict_setCurrentSheet | apply strict_mark
    | apply strict_carries, strict_call
    | apply strict_carries, strict_callHook
    | apply strict_carries, strict_newStreamWriter
    | apply strict_carries, strict_pull
    | apply strict_withContext, strict_call
    | apply strict_onStream; intros ?
    | apply strict_bind; [ | intros ? ] ].

Lemma strict_runHook sheet : strict carries (runHook sheet).
Proof. unfold runHook. destruct (InitFunc sheet); strict_step. Qed.

Lemma strict_streamInitFunc sheet sheetName : strict carries (streamInitFunc sheet sheetName).
Proof.
  unfold streamInitFunc.
  apply strict_bind; [strict_step | intros e0].
  apply strict_bind; [destruct (StreamWriter e0); strict_step | intros _].
  apply strict_bind; [strict_step | intros _; apply strict_runHook].
Qed.

Lemma strict_streamMerges sw merges : strict carries (streamMerges sw merges).
Proof.
  induction merges as [| mergeCell rest IH]; simpl; [strict_step | ].
  apply strict_bind; [strict_step | intros _; exact IH].
Qed.

Lemma strict_streamWriteRowFunc sheetName rowID row :
  strict carries (streamWriteRowFunc sheetName rowID row).
Proof.
  unfold streamWriteRowFunc. apply strict_onStream. intros sw.
  apply strict_bind; [strict_step | intros _; apply strict_streamMerges].
Qed.

Lemma strict_memoryWriteCell sheetName rowID j cell :
  strict carries (memoryWriteCell sheetName rowID j cell).
Proof.
  unfold memoryWriteCell.
  apply strict_bind; [strict_step | intros _].
  apply strict_bind; [destruct (StyleID cell >? 0); strict_step | intros _].
  destruct (String.eqb (Formula cell) ""); strict_step.
Qed.

Lemma strict_memoryWriteCells sheetName rowID cells :
  forall j, strict carries (memoryWriteCells sheetName rowID j cells).
Proof.
  induction cells as [| cell rest IH]; intros j; simpl; [strict_step | ].
  apply strict_bind; [apply strict_memoryWriteCell | intros _; apply IH].
Qed.

Lemma strict_memoryMerges sheetName merges : strict carries (memoryMerges sheetName merges).
Proof.
  induction merges as [| mergeCell rest IH]; simpl; [strict_step | ].
  apply strict_bind; [strict_step | intros _; exact IH].
Qed.

Lemma strict_memoryWriteRowFunc sheetName rowID row :
  strict carries (memoryWriteRowFunc sheetName rowID row).
Proof.
  unfold memoryWriteRowFunc.
  apply strict_bind; [apply strict_memoryWriteCells | intros _; apply strict_memoryMerges].
Qed.

Lemma strict_newSheet name : strict carries (newSheet name).
Proof. unfold newSheet. strict_step. Qed.

Section HelperStrict.

Variable sheet : SheetData.
Variable initFunc : string -> M unit.
Variable writeRowFunc : string -> Z -> Row -> M unit.

Hypothesis init_strict : forall s, strict carries (initFunc s).
Hypothesis write_strict : forall s r row, strict carries (writeRowFunc s r row).

Lemma strict_callInit : strict carries (callInit initFunc).
Proof.
  unfold callInit. apply strict_bind; [strict_step | intros e0].
  apply strict_bind; [strict_step | intros _; apply init_strict].
Qed.

Lemma strict_splitIfFull rowID suf : strict carries (splitIfFull sheet initFunc rowID suf).
Proof.
  unfold splitIfFull. destruct (rowID >? SheetMaxRows); [ | strict_step].
  apply strict_bind; [apply strict_newSheet | intros _].
  apply strict_bind; [strict_step | intros _].
  apply strict_bind; [apply strict_callInit | intros _; strict_step].
Qed.

Lemma strict_helperLoop (fuel : nat) :
  forall src rowID suf i,
    strict carries (helperLoop sheet initFunc writeRowFunc fuel src rowID suf i).
Proof.
  induction fuel as [| fuel IH]; intros src rowID suf i; cbn [helperLoop]; [strict_step | ].
  apply strict_bind; [strict_step | intros p].
  destruct (Cells (fst p)); [ | strict_step].
  apply strict_bind; [apply strict_splitIfFull | intros q].
  apply strict_bind; [strict_step | intros e0].
  apply strict_bind; [strict_step | intros _].
  apply strict_bind; [apply write_strict | intros _; apply IH].
Qed.

Lemma strict_exportHelper fuel :
  strict carries (exportHelper sheet initFunc writeRowFunc fuel).
Proof.
  unfold exportHelper.
  apply strict_bind; [strict_step | intros _].
  apply strict_bind; [apply strict_callInit | intros _; apply strict_helperLoop].
Qed.

End HelperStrict.

Lemma strict_exportSheet fuel sheet : strict carries (exportSheet fuel sheet).
Proof.
  unfold exportSheet. apply strict_bind; [strict_step | intros e0].
  destruct (UseStreamWriter e0).
  - unfold exportUsingStreamWriter. apply strict_bind.
    + apply strict_exportHelper;
        [apply strict_streamInitFunc | apply strict_streamWriteRowFunc].
    + intros _. strict_step. strict_step.
  - unfold exportUsingMemory.
    apply strict_exportHelper; [intros s; apply strict_runHook | apply strict_memoryWriteRowFunc].
Qed.

Lemma strict_deleteDefaultSheet i : strict carries (deleteDefaultSheet i).
Proof.
  unfold deleteDefaultSheet. apply strict_bind; [strict_step | intros e0].
  destruct ((i =? 0) && (SheetCount (File e0) >? 1)); strict_step.
Qed.

Lemma strict_exportOne fuel i sheet : strict carries (exportOne fuel i sheet).
Proof.
  unfold exportOne.
  apply strict_bind; [apply strict_newSheet | intros _].
  apply strict_bind; [apply strict_deleteDefaultSheet | intros _; apply strict_exportSheet].
Qed.

Lemma strict_exportSheets fuel sheets : forall i, strict carries (exportSheets fuel i sheets).
Proof.
  induction sheets as [| sheet rest IH]; intros i; simpl; [strict_step | ].
  apply strict_bind; [apply strict_exportOne | intros _; apply IH].
Qed.

Lemma strict_saveAs : strict carries saveAs.
Proof. unfold saveAs. apply strict_bind; [strict_step | intros e0; strict_step]. Qed.

(** ** The theorems on one spec *)

(** The export of a spec returns an error only when its last call failed, and
    the error is that call's. *)
Lemma exportOne_raises fuel i sheet e x :
  result (exportOne fuel i sheet e) = Raise x ->
  exists pre c x0, trace (exportOne fuel i sheet e) = pre ++ [c] /\
                   failed c = Some x0 /\ carries x x0.
Proof.
  intros Hr. pose proof (strict_exportOne fuel i sheet e) as H. unfold aborted in H.
  rewrite Hr in H. destruct H as (pre & c & x0 & Ht & _ & Hc & Hx). eauto 6.
Qed.

(** C1 (sheet splitting at the capacity).  A spec whose source feeds
    [SheetMaxRows + 1] rows and then the sentinel: the export of that spec comes
    to an end, with an error only when its last call failed; and when it
    returns nil it has created two physical sheets, the
    spec's own and [<name>_1], called [initFunc] (and the hook, when there is
    one) once for each, written the first [SheetMaxRows] rows on the first at
    the row numbers 1, 2, ... and the one remaining row on the second at row 1.
    With exactly [SheetMaxRows] rows there is the one sheet only.  The hook is
    assumed to leave the exporter's own fields alone. *)
Theorem split_after_SheetMaxRows fuel i sheet rows e :
  hookKeepsExporter sheet ->
  Feeds (RowFunc sheet) rows ->
  (List.length rows < fuel)%nat ->
  result (exportOne fuel i sheet e) <> Diverge /\
  (forall x, result (exportOne fuel i sheet e) = Raise x ->
             exists pre c x0, trace (exportOne fuel i sheet e) = pre ++ [c] /\
                              failed c = Some x0 /\ carries x x0) /\
  (result (exportOne fuel i sheet e) = Ret tt ->
   (Z.of_nat (List.length rows) = SheetMaxRows + 1 ->
    let n := Z.to_nat SheetMaxRows in
    let name_1 := (Name sheet ++ "_1")%string in
    List.length (firstn n rows) = n /\
    List.length (skipn n rows) = 1%nat /\
    layout (trace (exportOne fuel i sheet e)) =
      EvNewSheet (Name sheet) :: EvInit (Name sheet) :: hookRun sheet (Name sheet) ++
      writeBlock (Name sheet) 1 (firstn n rows) ++
      EvNewSheet name_1 :: EvInit name_1 :: hookRun sheet name_1 ++
      writeBlock name_1 1 (skipn n rows)) /\
   (Z.of_nat (List.length rows) = SheetMaxRows ->
    layout (trace (exportOne fuel i sheet e)) =
      EvNewSheet (Name sheet) :: EvInit (Name sheet) :: hookRun sheet (Name sheet) ++
      writeBlock (Name sheet) 1 rows)).
Proof.
  intros Hh Hf Hfuel. split; [now apply exportOne_halts with (rows := rows) | ].
  split; [now apply exportOne_raises | ].
  intros Hr. rewrite (@exportOne_layout fuel i sheet rows e Hh Hf Hr). unfold sheetLayout.
  pose proof SheetMaxRows_eq as HN. split.
  - intros Hlen. set (n := Z.to_nat SheetMaxRows).
    assert (Hn : (n <= List.length rows)%nat) by (subst n; lia).
    pose proof (firstn_skipn n rows) as E.
    pose proof (length_skipn n rows) as Hs.
    pose proof (firstn_length_le rows Hn) as Hfl.
    assert (Hs1 : List.length (skipn n rows) = 1%nat) by (subst n; lia).
    split; [exact Hfl | ]. split; [exact Hs1 | ].
    destruct (skipn n rows) as [| last [| ? ?]]; try discriminate.
    remember (firstn n rows) as A eqn:HA. rewrite <- E.
    rewrite layoutRows_overflow by (subst n; lia). reflexivity.
  - intros Hlen. rewrite layoutRows_block by lia. reflexivity.
Qed.

Lemma filter_isWrite_layout (tr : list Call) :
  filter isWrite (events tr) = filter isWrite (layout tr).
Proof.
  unfold layout. induction (events tr) as [| ev evs IH]; [reflexivity | ].
  simpl. destruct ev; simpl; rewrite ?IH; reflexivity.
Qed.

Lemma filter_isWrite_writeBlock name (rows : list Row) :
  forall rowID, filter isWrite (writeBlock name rowID rows) = writeBlock name rowID rows.
Proof. induction rows as [| row rest IH]; intros rowID; simpl; now rewrite ?IH. Qed.

Lemma filter_isWrite_hookRun sheet name : filter isWrite (hookRun sheet name) = [].
Proof. unfold hookRun. now destruct (InitFunc sheet). Qed.

(** C2 (nil against empty cells).  Every row the source returns with its
    cells present is written, a row of zero cells like any other, one row
    number after the other from 1 on; and once a pull has returned a row with
    nil cells and no error, the export of that spec pulls and writes nothing
    more: the only call it may still make is the flush of the stream.  The
    export comes to an end, with an error only when its last call failed.
    (The rows fit on one sheet here; the hook leaves the exporter's own
    fields alone.) *)
Theorem nil_cells_end_the_rows fuel i sheet rows e :
  hookKeepsExporter sheet ->
  Feeds (RowFunc sheet) rows ->
  Z.of_nat (List.length rows) <= SheetMaxRows ->
  (List.length rows < fuel)%nat ->
  result (exportOne fuel i sheet e) <> Diverge /\
  (forall x, result (exportOne fuel i sheet e) = Raise x ->
             exists pre c x0, trace (exportOne fuel i sheet e) = pre ++ [c] /\
                              failed c = Some x0 /\ carries x x0) /\
  (result (exportOne fuel i sheet e) = Ret tt ->
   filter isWrite (events (trace (exportOne fuel i sheet e))) =
     writeBlock (Name sheet) 1 rows) /\
  (forall pre c post k row,
     trace (exportOne fuel i sheet e) = pre ++ c :: post ->
     what c = EvPull k row -> failed c = None -> Cells row = None ->
     Forall flushCall post).
Proof.
  intros Hh Hf Hlen Hfuel. split; [now apply exportOne_halts with (rows := rows) | ].
  split; [now apply exportOne_raises | ]. split.
  - intros Hr. rewrite filter_isWrite_layout.
    rewrite (@exportOne_layout fuel i sheet rows e Hh Hf Hr). unfold sheetLayout.
    rewrite layoutRows_block by lia. simpl.
    now rewrite filter_app, filter_isWrite_hookRun, filter_isWrite_writeBlock.
  - intros pre c post k row Htr Hw Herr Hc.
    destruct (exportOne_pulls fuel i sheet e) as [Hcalm _].
    apply (calm_split _ _ _ Hcalm Htr).
    unfold stopping. now rewrite Hw, Herr, Hc.
Qed.

(** C8 (the row index).  The pulls of one spec carry the indices 0, 1, 2, ...
    in this order, [rowIndex++] after each pull that returned a row, whatever
    the row numbers and the splits; a pull that returned the sentinel is the
    last pull of that spec, and a pull that is followed by another one
    returned a row and no error. *)
Theorem pulls_are_numbered_from_zero fuel i sheet e :
  (exists n, (n <= fuel)%nat /\
             pullsOf (trace (exportOne fuel i sheet e)) = countFrom 0 n /\
             (Z.of_nat n <= 2 ^ 63 -> countFrom 0 n = map Z.of_nat (seq 0 n))) /\
  (forall pre c post k row,
     trace (exportOne fuel i sheet e) = pre ++ c :: post ->
     what c = EvPull k row -> failed c = None -> Cells row = None ->
     Forall notPull post) /\
  (forall pre c post k row,
     trace (exportOne fuel i sheet e) = pre ++ c :: post ->
     what c = EvPull k row -> ~ Forall notPull post ->
     failed c = None /\ Cells row <> None).
Proof.
  destruct (exportOne_pulls fuel i sheet e) as [Hcalm (n & Hn & Hp)]. split; [ | split].
  - exists n. split; [exact Hn | ]. split; [exact Hp | ].
    intros Hb. rewrite countFrom_seq by lia. apply map_ext. intros k. lia.
  - intros pre c post k row Htr Hw Herr Hc.
    eapply Forall_impl; [apply flushCall_notPull | ].
    apply (calm_split _ _ _ Hcalm Htr).
    unfold stopping. now rewrite Hw, Herr, Hc.
  - intros pre c post k row Htr Hw Hpost.
    assert (Hs : stopping c = false).
    { destruct (stopping c) eqn:Hs; [ | reflexivity]. destruct Hpost.
      eapply Forall_impl; [apply flushCall_notPull | ].
      apply (calm_split _ _ _ Hcalm Htr Hs). }
    unfold stopping in Hs. rewrite Hw in Hs.
    destruct (failed c); [discriminate | ].
    destruct (Cells row); [split; congruence | discriminate].
Qed.

Lemma failed_call_position (p : list Call) :
  forall pre c post rest x0,
    pre ++ c :: post = p ++ rest -> Forall ok p -> failed c = Some x0 ->
    exists d, rest = d ++ c :: post /\ pre = p ++ d.
Proof.
  induction p as [| a p IH]; intros pre c post rest x0 Heq Hp Hc.
  - exists pre. auto.
  - inversion Hp as [| ? ? Ha Hp']; subst. destruct pre as [| a' pre]; simpl in Heq.
    + injection Heq as -> _. unfold ok in Ha. congruence.
    + injection Heq as -> Heq. destruct (IH _ _ _ _ _ Heq Hp' Hc) as (d & Hr & Hpre).
      exists d. split; [exact Hr | now rewrite Hpre].
Qed.

Lemma deferClose_run {A} (body : M A) (e : Exporter) :
  result (deferClose body e) = result (body e) /\
  exists closing,
    trace (deferClose body e) = trace (body e) ++ closing /\
    match result (body e) with
    | Diverge => closing = []
    | _ => exists err, closing = [mkCall EvClose err]
    end.
Proof.
  unfold deferClose. destruct (Close (File (final (body e)))) as [b err].
  destruct (result (body e)) eqn:Hr; simpl; (split; [auto | ]);
    try (exists [mkCall EvClose err]; split; [reflexivity | now exists err]).
  exists []. now rewrite app_nil_r.
Qed.

Lemma strict_Export_body fuel sheets : strict carries (exportSheets fuel 0 sheets ;; saveAs).
Proof. apply strict_bind; [apply strict_exportSheets | intros _; apply strict_saveAs]. Qed.

(** C9 (errors abort the export).  Whenever a call of the export fails, be it
    a sheet creation or deletion, the hook, a pull, a write of a value, style,
    formula, merge or streamed row, a flush, the opening of a stream or the
    save: [Export] returns that error, as it is or wrapped with the context of
    the stage; the only call made after the failing one is the deferred
    [Close] (no further pull, row or sheet, no retry); and no call failed
    before it. *)
Theorem first_error_aborts_export fuel sheets e pre c post x0 :
  trace (Export fuel sheets e) = pre ++ c :: post ->
  failed c = Some x0 ->
  what c <> EvClose ->
  (exists x, result (Export fuel sheets e) = Raise x /\ carries x x0) /\
  (exists err, post = [mkCall EvClose err]) /\
  Forall ok pre.
Proof.
  intros Htr Hc Hw. unfold Export in *.
  destruct (deferClose_run (exportSheets fuel 0 sheets ;; saveAs) e)
    as [Hres (closing & Ht & Hcl)].
  pose proof (strict_Export_body fuel sheets e) as Hb. unfold aborted in Hb.
  rewrite Hres. rewrite Ht in Htr. symmetry in Htr.
  destruct (result ((exportSheets fuel 0 sheets ;; saveAs) e)) as [[] | x | | ].
  - destruct Hcl as (err & ->).
    destruct (failed_call_position _ _ _ _ Htr Hb Hc) as (d & Hd & _).
    destruct d as [| c1 d]; simpl in Hd.
    + injection Hd as <- _. now destruct Hw.
    + destruct d; discriminate.
  - destruct Hcl as (err & ->).
    destruct Hb as (p & cf & x1 & Hp & Hok & Hcf & HR). rewrite Hp, <- app_assoc in Htr.
    destruct (failed_call_position _ _ _ _ Htr Hok Hc) as (d & Hd & Hpre).
    destruct d as [| c1 d]; simpl in Hd.
    + injection Hd as <- <-. rewrite app_nil_r in Hpre. subst pre.
      split; [exists x; split; [reflexivity | congruence] | ].
      split; [now exists err | exact Hok].
    + injection Hd as <- Hd. destruct d as [| c2 d]; simpl in Hd.
      * injection Hd as <- _. now destruct Hw.
      * destruct d; discriminate.
  - destruct Hcl as (err & ->).
    destruct (failed_call_position _ _ _ _ Htr Hb Hc) as (d & Hd & _).
    destruct d as [| c1 d]; simpl in Hd.
    + injection Hd as <- _. now destruct Hw.
    + destruct d; discriminate.
  - subst closing. rewrite app_nil_r in Htr.
    rewrite <- (app_nil_r (trace _)) in Htr.
    destruct (failed_call_position _ _ _ _ Htr Hb Hc) as (d & Hd & _).
    destruct d; discriminate.
Qed.

(** ** The buffered write of a row *)

Lemma makes_ret e : makes [] (ret tt e).
Proof. split; [reflexivity | now exists []]. Qed.

Lemma makes_call ev op e : makes [ev] (call ev op e).
Proof.
  unfold call. destruct (op (File e)) as [b err]. split; [reflexivity | now exists []].
Qed.

Lemma makes_bind E1 E2 (m : M unit) (k : unit -> M unit) e :
  makes E1 (m e) -> (forall e', makes E2 (k tt e')) -> makes (E1 ++ E2) (bind m k e).
Proof.
  intros [H1 (r1 & Hr1)] Hk. unfold bind, makes.
  destruct (result (m e)) as [[] | x | | ] eqn:Hm; simpl;
    try (split; [discriminate | exists (r1 ++ E2); now rewrite Hr1, app_assoc]).
  destruct (Hk (final (m e))) as [H2 (r2 & Hr2)].
  unfold events in *. rewrite map_app, (H1 eq_refl). split.
  - intros Hr. now rewrite (H2 Hr).
  - exists r2. now rewrite Hr2, app_assoc.
Qed.

Lemma memoryWriteCell_makes sheetName rowID j cell e :
  makes (cellEvents sheetName rowID j cell) (memoryWriteCell sheetName rowID j cell e).
Proof.
  unfold memoryWriteCell, cellEvents.
  apply makes_bind; [apply makes_call | intros e1].
  apply makes_bind.
  - destruct (StyleID cell >? 0); [apply makes_call | apply makes_ret].
  - intros e2. destruct (String.eqb (Formula cell) ""); [apply makes_ret | apply makes_call].
Qed.

Lemma indexedFrom_cons {A} (j : Z) (a : A) (l : list A) :
  indexedFrom j (a :: l) = (j, a) :: indexedFrom (j + 1) l.
Proof.
  unfold indexedFrom. cbn [List.length seq map combine]. rewrite Z.add_0_r. f_equal.
  rewrite <- seq_shift, map_map. f_equal. apply map_ext. intros k. lia.
Qed.

Lemma memoryWriteCells_makes sheetName rowID cells :
  forall j e,
    makes (flat_map (fun p => cellEvents sheetName rowID (fst p) (snd p)) (indexedFrom j cells))
          (memoryWriteCells sheetName rowID j cells e).
Proof.
  induction cells as [| cell rest IH]; intros j e.
  - apply makes_ret.
  - rewrite indexedFrom_cons. cbn [flat_map memoryWriteCells fst snd].
    apply makes_bind; [apply memoryWriteCell_makes | intros e'; apply IH].
Qed.

Lemma memoryMerges_makes sheetName merges e :
  makes (mergeEvents sheetName merges) (memoryMerges sheetName merges e).
Proof.
  revert e. induction merges as [| mergeCell rest IH]; intros e.
  - apply makes_ret.
  - cbn [mergeEvents map memoryMerges].
    apply (makes_bind (E1 := [_])); [apply makes_call | intros e'; apply IH].
Qed.

(** C7 (the buffered strategy writes cell by cell).  Writing a row at [rowID],
    [exportUsingMemory]'s [writeRowFunc] calls, for the cell at position [j],
    [SetCellValue] at the coordinates [(j + 1, rowID)], then [SetCellStyle]
    there exactly when [StyleID > 0], then [SetCellFormula] there exactly when
    the formula is not empty; and after the calls of all the cells,
    [MergeCell] for each merge range of the row.  When a call fails the calls
    made are a first part of these. *)
Theorem buffered_write_of_a_row sheetName rowID row e :
  (result (memoryWriteRowFunc sheetName rowID row e) = Ret tt ->
   events (trace (memoryWriteRowFunc sheetName rowID row e)) =
     rowEvents sheetName rowID row) /\
  (exists rest,
     rowEvents sheetName rowID row =
       events (trace (memoryWriteRowFunc sheetName rowID row e)) ++ rest).
Proof.
  unfold memoryWriteRowFunc, rowEvents.
  apply makes_bind; [apply memoryWriteCells_makes | intros e'; apply memoryMerges_makes].
Qed.

(** ** The deletion of the default sheet *)

Lemma closureCall_sheetWork (c : Call) : closureCall c -> sheetWork c.
Proof. unfold closureCall, sheetWork, isSheetWork. now intros ->. Qed.

Lemma sheetWork_notDelete (c : Call) : sheetWork c -> notDelete c.
Proof. unfold sheetWork, notDelete. destruct (what c); cbv; congruence. Qed.

Lemma notDelete_deletesOf (tr : list Call) : Forall notDelete tr -> deletesOf tr = [].
Proof.
  induction 1 as [| c tr Hc _ IH]; [reflexivity | ].
  simpl. rewrite IH. unfold notDelete in Hc. destruct (what c); simpl in *; congruence.
Qed.

Lemma bind_trace {A C} (m : M A) (k : A -> M C) (e : Exporter) :
  trace (bind m k e) =
    trace (m e) ++
    match result (m e) with
    | Ret a => trace (k a (final (m e)))
    | _ => []
    end.
Proof.
  unfold bind. destruct (result (m e)); simpl; now rewrite ?app_nil_r.
Qed.

Lemma Forall_continuation {A C} (P : Call -> Prop) (m : M A) (k : A -> M C) (e : Exporter) :
  (forall a, emits P (k a)) ->
  Forall P match result (m e) with
           | Ret a => trace (k a (final (m e)))
           | _ => []
           end.
Proof. intros Hk. destruct (result (m e)); try constructor. apply Hk. Qed.

Section HelperWork.

Variable sheet : SheetData.
Variable initFunc : string -> M unit.
Variable writeRowFunc : string -> Z -> Row -> M unit.

Hypothesis init_closure : forall s, emits closureCall (initFunc s).
Hypothesis write_closure : forall s r row, emits closureCall (writeRowFunc s r row).

Lemma pull_work i src : emits sheetWork (pull sheet i src).
Proof.
  intros e. unfold pull. destruct (srcPull (RowFunc sheet) i src) as [[row err] s1].
  simpl. repeat constructor.
Qed.

Lemma callInit_work : emits sheetWork (callInit initFunc).
Proof.
  unfold callInit. apply emits_bind; [apply emits_get | intros e0].
  apply emits_bind; [apply emits_mark; reflexivity | intros _].
  eapply emits_impl; [apply closureCall_sheetWork | apply init_closure].
Qed.

Lemma splitIfFull_work rowID suf : emits sheetWork (splitIfFull sheet initFunc rowID suf).
Proof.
  unfold splitIfFull. destruct (rowID >? SheetMaxRows); [ | apply emits_ret].
  apply emits_bind; [apply emits_withContext, emits_call; reflexivity | intros _].
  apply emits_bind; [apply emits_setCurrentSheet | intros _].
  apply emits_bind; [apply callInit_work | intros _; apply emits_ret].
Qed.

Lemma helperLoop_work (fuel : nat) :
  forall src rowID suf i,
    emits sheetWork (helperLoop sheet initFunc writeRowFunc fuel src rowID suf i).
Proof.
  induction fuel as [| fuel IH]; intros src rowID suf i; cbn [helperLoop];
    [apply emits_diverge | ].
  apply emits_bind; [apply pull_work | intros p].
  destruct (Cells (fst p)); [ | apply emits_ret].
  apply emits_bind; [apply splitIfFull_work | intros q].
  apply emits_bind; [apply emits_get | intros e0].
  apply emits_bind; [apply emits_mark; reflexivity | intros _].
  apply emits_bind; [ | intros _; apply IH].
  eapply emits_impl; [apply closureCall_sheetWork | apply write_closure].
Qed.

Lemma exportHelper_work fuel :
  emits sheetWork (exportHelper sheet initFunc writeRowFunc fuel).
Proof.
  unfold exportHelper.
  apply emits_bind; [apply emits_setCurrentSheet | intros _].
  apply emits_bind; [apply callInit_work | intros _; apply helperLoop_work].
Qed.

End HelperWork.

Lemma exportSheet_work fuel sheet : emits sheetWork (exportSheet fuel sheet).
Proof.
  unfold exportSheet. apply emits_bind; [apply emits_get | intros e0].
  destruct (UseStreamWriter e0).
  - unfold exportUsingStreamWriter. apply emits_bind.
    + apply exportHelper_work.
      * apply streamInitFunc_closure.
      * intros s r row. eapply emits_impl;
          [apply cellCall_closureCall | apply streamWriteRowFunc_cells].
    + intros _. apply emits_onStream. intros sw. apply emits_call. reflexivity.
  - unfold exportUsingMemory. apply exportHelper_work.
    + intros s. apply runHook_closure.
    + intros s r row. eapply emits_impl;
        [apply cellCall_closureCall | apply memoryWriteRowFunc_cells].
Qed.

Lemma exportSheet_notDelete fuel sheet : emits notDelete (exportSheet fuel sheet).
Proof. eapply emits_impl; [apply sheetWork_notDelete | apply exportSheet_work]. Qed.

Lemma exportSheets_notDelete fuel sheets :
  forall i, 0 < i -> emits notDelete (exportSheets fuel i sheets).
Proof.
  induction sheets as [| sheet rest IH]; intros i Hi; simpl; [apply emits_ret | ].
  apply emits_bind; [ | intros _; apply IH; lia].
  unfold exportOne.
  apply emits_bind; [apply emits_withContext, emits_call; reflexivity | intros _].
  apply emits_bind; [ | intros _; apply exportSheet_notDelete].
  unfold deleteDefaultSheet. apply emits_bind; [apply emits_get | intros e0].
  replace (i =? 0) with false by (symmetry; apply Z.eqb_neq; lia).
  apply emits_ret.
Qed.

Lemma saveAs_notDelete : emits notDelete saveAs.
Proof.
  unfold saveAs. apply emits_bind; [apply emits_get | intros e0].
  apply emits_call. reflexivity.
Qed.

Lemma deleteDefaultSheet_first e :
  trace (deleteDefaultSheet 0 e) =
    if SheetCount (File e) >? 1
    then [mkCall (EvDeleteSheet "Sheet1") (snd (DeleteSheet "Sheet1" (File e)))]
    else [].
Proof.
  unfold deleteDefaultSheet. rewrite bind_get. cbn [Z.eqb andb].
  destruct (SheetCount (File e) >? 1); [ | reflexivity].
  unfold withContext, call. destruct (DeleteSheet "Sheet1" (File e)) as [b [x | ]];
    reflexivity.
Qed.

Lemma newSheet_run name e :
  trace (newSheet name e) = [mkCall (EvNewSheet name) (snd (NewSheet name (File e)))] /\
  File (final (newSheet name e)) = fst (NewSheet name (File e)) /\
  match snd (NewSheet name (File e)) with
  | None => result (newSheet name e) = Ret tt
  | Some x => result (newSheet name e) = Raise (Wrapf "failed to create a new sheet: " x)
  end.
Proof.
  unfold newSheet, withContext, call. destruct (NewSheet name (File e)) as [b [x | ]];
    simpl; auto.
Qed.

Lemma Export_shape fuel sheet rest e :
  exists t,
    Forall notDelete t /\
    trace (Export fuel (sheet :: rest) e) =
      mkCall (EvNewSheet (Name sheet)) (snd (NewSheet (Name sheet) (File e))) ::
      firstDeletion sheet e ++ t.
Proof.
  unfold Export.
  destruct (deferClose_run (exportSheets fuel 0 (sheet :: rest) ;; saveAs) e)
    as [_ (closing & -> & Hcl)].
  assert (Hclosing : Forall notDelete closing).
  { destruct (result ((exportSheets fuel 0 (sheet :: rest) ;; saveAs) e));
      try (destruct Hcl as (err & ->); repeat constructor).
    subst. constructor. }
  clear Hcl.
  rewrite bind_trace. cbn [exportSheets]. rewrite bind_trace. unfold exportOne at 1.
  rewrite bind_trace.
  set (T1 := match result ((exportOne fuel 0 sheet ;; exportSheets fuel (0 + 1) rest) e) with
             | Ret a => trace (saveAs (final ((exportOne fuel 0 sheet ;; exportSheets fuel (0 + 1) rest) e)))
             | _ => []
             end).
  assert (HT1 : Forall notDelete T1).
  { unfold T1. apply Forall_continuation. intros _. apply saveAs_notDelete. }
  set (T2 := match result (exportOne fuel 0 sheet e) with
             | Ret a => trace (exportSheets fuel (0 + 1) rest (final (exportOne fuel 0 sheet e)))
             | _ => []
             end).
  assert (HT2 : Forall notDelete T2).
  { unfold T2.
    apply (@Forall_continuation _ _ notDelete _ (fun _ : unit => exportSheets fuel (0 + 1) rest) _).
    intros _. apply exportSheets_notDelete. lia. }
  clearbody T1 T2.
  destruct (newSheet_run (Name sheet) e) as (Ht & Hf & Hr). rewrite Ht.
  unfold firstDeletion.
  destruct (NewSheet (Name sheet) (File e)) as [b [x | ]]; cbn [fst snd] in *; rewrite Hr.
  - exists (T2 ++ T1 ++ closing). split; [ | now rewrite <- ?app_assoc].
    repeat (apply Forall_app; split); assumption.
  - rewrite bind_trace, deleteDefaultSheet_first, Hf.
    set (T3 := match result _ with Ret a => _ | _ => [] end).
    assert (HT3 : Forall notDelete T3).
    { unfold T3.
      apply (@Forall_continuation _ _ notDelete _ (fun _ : unit => exportSheet fuel sheet) _).
      intros _. apply exportSheet_notDelete. }
    clearbody T3.
    exists (T3 ++ T2 ++ T1 ++ closing).
    split; [repeat (apply Forall_app; split); assumption | ].
    destruct (SheetCount b >? 1); simpl; now rewrite <- ?app_assoc.
Qed.

Lemma Export_nil fuel e :
  exists errS errC,
    trace (Export fuel [] e) = [mkCall (EvSaveAs (FileName e)) errS; mkCall EvClose errC].
Proof.
  unfold Export, deferClose, bind, exportSheets, saveAs, ret, get, call. simpl.
  destruct (SaveAs (FileName e) (File e)) as [b [x | ]]; simpl;
    destruct (Close b) as [b' errC]; simpl; eauto.
Qed.

Lemma Export_deletes fuel sheets e :
  deletesOf (trace (Export fuel sheets e)) =
    match sheets with
    | [] => []
    | sheet :: _ => deletesOf (firstDeletion sheet e)
    end.
Proof.
  destruct sheets as [| sheet rest].
  - destruct (Export_nil fuel e) as (errS & errC & ->). reflexivity.
  - destruct (Export_shape fuel sheet rest e) as (t & Ht & ->).
    cbn [deletesOf flat_map what]. fold (deletesOf (firstDeletion sheet e ++ t)).
    now rewrite deletesOf_app, (notDelete_deletesOf Ht), app_nil_r.
Qed.

Lemma firstDeletion_names sheet e :
  deletesOf (firstDeletion sheet e) =
    match NewSheet (Name sheet) (File e) with
    | (b, None) => if SheetCount b >? 1 then ["Sheet1"] else []
    | (_, Some _) => []
    end.
Proof.
  unfold firstDeletion. destruct (NewSheet (Name sheet) (File e)) as [b [x | ]];
    [reflexivity | ].
  destruct (SheetCount b >? 1); reflexivity.
Qed.

(** C6 (the default sheet is deleted once, at the first sheet).  [Export]
    calls [DeleteSheet] at most once, with the name "Sheet1": exactly when
    there is a first spec, the creation of its sheet succeeded and the workbook
    then counts more than one sheet; that call comes right after the creation
    of the first spec's sheet.  With no spec [Export] only saves and closes. *)
Theorem placeholder_deleted_once fuel sheets e :
  deletesOf (trace (Export fuel sheets e)) =
    match sheets with
    | [] => []
    | sheet :: _ =>
        match NewSheet (Name sheet) (File e) with
        | (b, None) => if SheetCount b >? 1 then ["Sheet1"] else []
        | (_, Some _) => []
        end
    end /\
  (forall pre c post,
     trace (Export fuel sheets e) = pre ++ c :: post -> isDelete (what c) = true ->
     exists sheet rest,
       sheets = sheet :: rest /\ pre = [mkCall (EvNewSheet (Name sheet)) None]) /\
  (sheets = [] ->
   events (trace (Export fuel sheets e)) = [EvSaveAs (FileName e); EvClose]).
Proof.
  split; [ | split].
  - rewrite Export_deletes. destruct sheets as [| sheet rest]; [reflexivity | ].
    apply firstDeletion_names.
  - intros pre c post Htr Hc. destruct sheets as [| sheet rest].
    + destruct (Export_nil fuel e) as (errS & errC & Ht). rewrite Ht in Htr.
      destruct pre as [| c0 [| c1 [| c2 pre]]]; simpl in Htr; try discriminate;
        injection Htr as <-; subst; discriminate.
    + exists sheet, rest. split; [reflexivity | ].
      destruct (Export_shape fuel sheet rest e) as (t & Ht & Hs). rewrite Hs in Htr.
      assert (Hin : forall post' d, d ++ c :: post' = t -> False).
      { intros post' d <-. apply Forall_app in Ht. destruct Ht as [_ Ht].
        inversion Ht as [| ? ? Hn _]; subst. unfold notDelete in Hn. congruence. }
      unfold firstDeletion in Htr.
      destruct (NewSheet (Name sheet) (File e)) as [b [x | ]]; cbn [snd] in Htr.
      * destruct pre as [| c0 pre]; simpl in Htr; injection Htr as <- Htr;
          [discriminate | ]. now destruct (Hin post pre).
      * destruct pre as [| c0 pre]; simpl in Htr; injection Htr as <- Htr;
          [discriminate | ].
        destruct (SheetCount b >? 1); simpl in Htr.
        -- destruct pre as [| c1 pre]; simpl in Htr; injection Htr as <- Htr;
             [reflexivity | ]. now destruct (Hin post pre).
        -- now destruct (Hin post pre).
  - intros ->. destruct (Export_nil fuel e) as (errS & errC & ->). reflexivity.
Qed.

Lemma exportOne_writes fuel i sheet rows e :
  hookKeepsExporter sheet -> Feeds (RowFunc sheet) rows ->
  Z.of_nat (List.length rows) <= SheetMaxRows ->
  result (exportOne fuel i sheet e) = Ret tt ->
  filter isWrite (events (trace (exportOne fuel i sheet e))) =
    writeBlock (Name sheet) 1 rows.
Proof.
  intros Hh Hf Hlen Hr. rewrite filter_isWrite_layout.
  rewrite (@exportOne_layout fuel i sheet rows e Hh Hf Hr). unfold sheetLayout.
  rewrite layoutRows_block by lia. simpl.
  now rewrite filter_app, filter_isWrite_hookRun, filter_isWrite_writeBlock.
Qed.

(** C10 (the deletion names "Sheet1").  Every deletion [Export] asks for is
    of the sheet named "Sheet1", whatever the workbook holds.  When the first
    spec is itself named "Sheet1" and, as the backend has it, creating a sheet
    of that name in a fresh workbook leaves it with one sheet, [Export] on a
    fresh exporter deletes nothing, and the rows of that spec are written on
    the sheet "Sheet1", from row 1 on.  (The rows fit on one sheet; the hook
    leaves the exporter's own fields alone.) *)
Theorem Sheet1_spec_reuses_placeholder fuel sheet rest rows fileName useStreamWriter :
  Name sheet = "Sheet1" ->
  SheetCount (fst (NewSheet "Sheet1" NewFile)) = 1 ->
  hookKeepsExporter sheet ->
  Feeds (RowFunc sheet) rows ->
  Z.of_nat (List.length rows) <= SheetMaxRows ->
  deletesOf (trace (Export fuel (sheet :: rest) (New fileName useStreamWriter))) = [] /\
  (result (exportOne fuel 0 sheet (New fileName useStreamWriter)) = Ret tt ->
   filter isWrite (events (trace (exportOne fuel 0 sheet (New fileName useStreamWriter)))) =
     writeBlock "Sheet1" 1 rows) /\
  (forall sheets e, Forall (eq "Sheet1") (deletesOf (trace (Export fuel sheets e)))).
Proof.
  intros Hname Hone Hh Hf Hlen. split; [ | split].
  - rewrite Export_deletes, firstDeletion_names, Hname. cbn [File New].
    destruct (NewSheet "Sheet1" NewFile) as [b [x | ]]; [reflexivity | ].
    cbn [fst] in Hone. now rewrite Hone.
  - intros Hr. rewrite <- Hname. now apply exportOne_writes.
  - intros sheets e. rewrite Export_deletes. destruct sheets as [| s0 rest0]; [constructor | ].
    rewrite firstDeletion_names. destruct (NewSheet (Name s0) (File e)) as [b [x | ]];
      [constructor | ].
    destruct (SheetCount b >? 1); repeat constructor.
Qed.

(** ** The flushes of the streaming strategy *)

Lemma afterCalls_app st t1 t2 : afterCalls st (t1 ++ t2) = afterCalls (afterCalls st t1) t2.
Proof. revert st. induction t1 as [| c t1 IH]; intros st; simpl; auto. Qed.

Lemma flushedBeforeSwitch_app st t1 t2 :
  flushedBeforeSwitch st (t1 ++ t2) <->
  flushedBeforeSwitch st t1 /\ flushedBeforeSwitch (afterCalls st t1) t2.
Proof.
  revert st. induction t1 as [| c t1 IH]; intros st; simpl; [tauto | ].
  rewrite IH. tauto.
Qed.

Lemma noSwitch_run (tr : list Call) :
  Forall noSwitch tr ->
  forall st, flushedBeforeSwitch st tr /\ fst (afterCalls st tr) = fst st.
Proof.
  induction 1 as [| c tr Hc _ IH]; intros st; simpl; [auto | ].
  destruct (IH (afterCall st c)) as [H1 H2]. rewrite H2.
  unfold noSwitch in Hc. split; [split; [ | exact H1] | ].
  - destruct (what c); simpl in *; try discriminate; exact I.
  - unfold afterCall. destruct (what c); simpl in *; try discriminate; reflexivity.
Qed.

Lemma tracks_plain {A} (m : M A) :
  keeps StreamWriter m -> keeps UseStreamWriter m -> emits noSwitch m -> tracks m.
Proof.
  intros Hs Hu Hn e l He. rewrite Hs, Hu.
  destruct (noSwitch_run (Hn e) (StreamWriter e, l)) as [H1 H2]. auto.
Qed.

Lemma tracks_bind {A C} (m : M A) (k : A -> M C) :
  tracks m -> (forall a, tracks (k a)) -> tracks (bind m k).
Proof.
  intros Hm Hk e l He. destruct (Hm e l He) as (Hu & Hf & Hs). unfold bind.
  destruct (result (m e)) as [a | x | | ]; simpl; auto.
  rewrite flushedBeforeSwitch_app, afterCalls_app.
  rewrite (surjective_pairing (afterCalls (StreamWriter e, l) (trace (m e)))), Hs.
  destruct (Hk a (final (m e)) (snd (afterCalls (StreamWriter e, l) (trace (m e)))) Hu)
    as (Hu' & Hf' & Hs').
  auto.
Qed.

Lemma keeps_setCurrentSheet_stream name : keeps StreamWriter (setCurrentSheet name).
Proof. intros e. reflexivity. Qed.

Lemma keeps_setCurrentSheet_mode name : keeps UseStreamWriter (setCurrentSheet name).
Proof. intros e. reflexivity. Qed.

Lemma tracks_ret {A} (a : A) : tracks (ret a).
Proof. apply tracks_plain; [apply keeps_ret | apply keeps_ret | apply emits_ret]. Qed.

Lemma tracks_get : tracks get.
Proof. apply tracks_plain; [apply keeps_get | apply keeps_get | apply emits_get]. Qed.

Lemma tracks_diverge {A} : tracks (@diverge A).
Proof. apply tracks_plain; try (intros e; reflexivity). apply emits_diverge. Qed.

Lemma tracks_mark ev : isSwitch ev = false -> tracks (mark ev).
Proof.
  intros H. apply tracks_plain; [apply keeps_mark | apply keeps_mark | now apply emits_mark].
Qed.

Lemma tracks_setCurrentSheet name : tracks (setCurrentSheet name).
Proof.
  apply tracks_plain;
    [apply keeps_setCurrentSheet_stream | apply keeps_setCurrentSheet_mode
    | apply emits_setCurrentSheet].
Qed.

Lemma tracks_newSheet name : tracks (newSheet name).
Proof.
  apply tracks_plain.
  - apply keeps_withContext, keeps_call, StreamWriter_fileFree.
  - apply keeps_withContext, keeps_call, UseStreamWriter_fileFree.
  - apply emits_withContext, emits_call. reflexivity.
Qed.

Lemma tracks_deleteDefaultSheet i : tracks (deleteDefaultSheet i).
Proof.
  unfold deleteDefaultSheet. apply tracks_bind; [apply tracks_get | intros e0].
  destruct ((i =? 0) && (SheetCount (File e0) >? 1)); [ | apply tracks_ret].
  apply tracks_plain.
  - apply keeps_withContext, keeps_call, StreamWriter_fileFree.
  - apply keeps_withContext, keeps_call, UseStreamWriter_fileFree.
  - apply emits_withContext, emits_call. reflexivity.
Qed.

Lemma tracks_pull sheet i src : tracks (pull sheet i src).
Proof.
  apply tracks_plain.
  - intros e. unfold pull. now destruct (srcPull (RowFunc sheet) i src) as [[row err] s1].
  - intros e. unfold pull. now destruct (srcPull (RowFunc sheet) i src) as [[row err] s1].
  - intros e. unfold pull. destruct (srcPull (RowFunc sheet) i src) as [[row err] s1].
    repeat constructor.
Qed.

Lemma cellCall_noSwitch (c : Call) : cellCall c -> noSwitch c.
Proof. unfold cellCall, noSwitch. destruct (what c); simpl; congruence. Qed.

Lemma tracks_streamWriteRowFunc sheetName rowID row :
  tracks (streamWriteRowFunc sheetName rowID row).
Proof.
  apply tracks_plain.
  - apply keeps_streamWriteRowFunc, StreamWriter_fileFree.
  - apply keeps_streamWriteRowFunc, UseStreamWriter_fileFree.
  - eapply emits_impl; [apply cellCall_noSwitch | apply streamWriteRowFunc_cells].
Qed.

Lemma tracks_runHook sheet : hookKeepsExporter sheet -> tracks (runHook sheet).
Proof.
  intros Hh. apply tracks_plain.
  - apply keeps_runHook; [apply StreamWriter_fileFree | exact Hh].
  - apply keeps_runHook; [apply UseStreamWriter_fileFree | exact Hh].
  - unfold runHook. destruct (InitFunc sheet); [ | apply emits_ret].
    apply emits_callHook. reflexivity.
Qed.

Lemma tracks_finalFlush : tracks (onStream (fun sw => call (EvFlush sw) (Flush sw))).
Proof.
  apply tracks_plain.
  - apply keeps_onStream. intros sw. apply keeps_call, StreamWriter_fileFree.
  - apply keeps_onStream. intros sw. apply keeps_call, UseStreamWriter_fileFree.
  - apply emits_onStream. intros sw. apply emits_call. reflexivity.
Qed.

Lemma bind_ret {A C} (a : A) (k : A -> M C) (e : Exporter) : bind (ret a) k e = k a e.
Proof. unfold bind, ret, before. simpl. now destruct (k a e). Qed.

Lemma bind_call {C} ev op (k : unit -> M C) (e : Exporter) :
  bind (call ev op) k e =
    match snd (op (File e)) with
    | None => before [mkCall ev None] (k tt (setFile e (fst (op (File e)))))
    | Some x => mkOut (setFile e (fst (op (File e)))) [mkCall ev (Some x)] (Raise x)
    end.
Proof. unfold bind, call. destruct (op (File e)) as [b [x | ]]; reflexivity. Qed.

Lemma tracks_streamInitFunc sheet sheetName :
  hookKeepsExporter sheet -> tracks (streamInitFunc sheet sheetName).
Proof.
  intros Hh e l He. unfold streamInitFunc. rewrite bind_get.
  assert (Hnew : forall e1 sw,
             UseStreamWriter e1 = true ->
             StreamWriter e1 = None \/ sw = StreamWriter e1 ->
             let o := (newStreamWriter sheetName ;; runHook sheet) e1 in
             UseStreamWriter (final o) = true /\
             flushedBeforeSwitch (StreamWriter e1, sw) (trace o) /\
             fst (afterCalls (StreamWriter e1, sw) (trace o)) = StreamWriter (final o)).
  { intros e1 sw He1 Hfl. unfold bind, newStreamWriter.
    destruct (NewStreamWriter sheetName (File e1)) as [[b sw'] [x | ]]; simpl; auto.
    set (e2 := mkExporter b (FileName e1) (CurrentSheet e1) (UseStreamWriter e1) sw').
    destruct (tracks_runHook Hh e2 None He1) as (Hu & Hf & Hs). auto. }
  destruct (StreamWriter e) as [sw | ] eqn:Hsw.
  - rewrite bind_call. destruct (Flush sw (File e)) as [b [x | ]]; simpl.
    + repeat split; auto.
    + destruct (Hnew (setFile e b) (Some sw) He) as (Hu & Hf & Hs); [right; now simpl | ].
      simpl in Hf, Hs. rewrite Hsw in Hf, Hs. auto.
  - rewrite bind_ret.
    destruct (Hnew e l He) as (Hu & Hf & Hs); [now left | ].
    rewrite Hsw in Hf, Hs. auto.
Qed.

Section StreamLoop.

Variable sheet : SheetData.
Hypothesis hook_keeps : hookKeepsExporter sheet.

Lemma tracks_callInit : tracks (callInit (streamInitFunc sheet)).
Proof.
  unfold callInit. apply tracks_bind; [apply tracks_get | intros e0].
  apply tracks_bind; [now apply tracks_mark | intros _].
  now apply tracks_streamInitFunc.
Qed.

Lemma tracks_splitIfFull rowID suf :
  tracks (splitIfFull sheet (streamInitFunc sheet) rowID suf).
Proof.
  unfold splitIfFull. destruct (rowID >? SheetMaxRows); [ | apply tracks_ret].
  apply tracks_bind; [apply tracks_newSheet | intros _].
  apply tracks_bind; [apply tracks_setCurrentSheet | intros _].
  apply tracks_bind; [apply tracks_callInit | intros _; apply tracks_ret].
Qed.

Lemma tracks_helperLoop (fuel : nat) :
  forall src rowID suf i,
    tracks (helperLoop sheet (streamInitFunc sheet) streamWriteRowFunc fuel src rowID suf i).
Proof.
  induction fuel as [| fuel IH]; intros src rowID suf i; cbn [helperLoop];
    [apply tracks_diverge | ].
  apply tracks_bind; [apply tracks_pull | intros p].
  destruct (Cells (fst p)); [ | apply tracks_ret].
  apply tracks_bind; [apply tracks_splitIfFull | intros q].
  apply tracks_bind; [apply tracks_get | intros e0].
  apply tracks_bind; [now apply tracks_mark | intros _].
  apply tracks_bind; [apply tracks_streamWriteRowFunc | intros _; apply IH].
Qed.

Lemma tracks_exportHelper fuel :
  tracks (exportHelper sheet (streamInitFunc sheet) streamWriteRowFunc fuel).
Proof.
  unfold exportHelper.
  apply tracks_bind; [apply tracks_setCurrentSheet | intros _].
  apply tracks_bind; [apply tracks_callInit | intros _; apply tracks_helperLoop].
Qed.

Lemma tracks_exportUsingStreamWriter fuel : tracks (exportUsingStreamWriter fuel sheet).
Proof.
  unfold exportUsingStreamWriter.
  apply tracks_bind; [apply tracks_exportHelper | intros _; apply tracks_finalFlush].
Qed.

Lemma tracks_exportSheet fuel : tracks (exportSheet fuel sheet).
Proof.
  intros e l He. unfold exportSheet. rewrite bind_get, He.
  now apply tracks_exportUsingStreamWriter.
Qed.

Lemma tracks_exportOne fuel i : tracks (exportOne fuel i sheet).
Proof.
  unfold exportOne.
  apply tracks_bind; [apply tracks_newSheet | intros _].
  apply tracks_bind; [apply tracks_deleteDefaultSheet | intros _; apply tracks_exportSheet].
Qed.

End StreamLoop.

Lemma exportUsingStreamWriter_flushed fuel sheet e l :
  hookKeepsExporter sheet -> UseStreamWriter e = true ->
  result (exportUsingStreamWriter fuel sheet e) = Ret tt ->
  flushedNow (afterCalls (StreamWriter e, l) (trace (exportUsingStreamWriter fuel sheet e))).
Proof.
  intros Hh He Hr. unfold exportUsingStreamWriter in *.
  apply bind_Ret_inv in Hr. destruct Hr as ([] & H1 & Hr & T1 & F1).
  rewrite T1, afterCalls_app.
  destruct (tracks_exportHelper Hh fuel e l He) as (_ & _ & Hs).
  set (e1 := final (exportHelper sheet (streamInitFunc sheet) streamWriteRowFunc fuel e)) in *.
  set (st1 := afterCalls (StreamWriter e, l) _) in *.
  unfold onStream in *. destruct (StreamWriter e1) as [sw | ] eqn:Hsw; [ | discriminate].
  unfold call in *. destruct (Flush sw (File e1)) as [b [x | ]]; [discriminate | ].
  simpl. right. simpl. now rewrite Hs.
Qed.

Lemma exportOne_flushed fuel i sheet e l :
  hookKeepsExporter sheet -> UseStreamWriter e = true ->
  result (exportOne fuel i sheet e) = Ret tt ->
  flushedNow (afterCalls (StreamWriter e, l) (trace (exportOne fuel i sheet e))).
Proof.
  intros Hh He Hr. unfold exportOne in *.
  apply bind_Ret_inv in Hr. destruct Hr as ([] & H1 & Hr & T1 & F1).
  apply bind_Ret_inv in Hr. destruct Hr as ([] & H2 & Hr & T2 & F2).
  rewrite T1, T2, !afterCalls_app.
  destruct (tracks_newSheet (Name sheet) e l He) as (Hu1 & _ & Hs1).
  set (e1 := final (newSheet (Name sheet) e)) in *.
  set (st1 := afterCalls (StreamWriter e, l) _) in *.
  rewrite (surjective_pairing st1), Hs1.
  destruct (tracks_deleteDefaultSheet i e1 (snd st1) Hu1) as (Hu2 & _ & Hs2).
  set (e2 := final (deleteDefaultSheet i e1)) in *.
  set (st2 := afterCalls (StreamWriter e1, snd st1) _) in *.
  rewrite (surjective_pairing st2), Hs2.
  unfold exportSheet in *. rewrite bind_get in Hr |- *. rewrite Hu2 in Hr |- *.
  now apply exportUsingStreamWriter_flushed.
Qed.

Lemma tracks_exportSheets fuel sheets :
  Forall hookKeepsExporter sheets -> forall i, tracks (exportSheets fuel i sheets).
Proof.
  induction 1 as [| sheet rest Hh _ IH]; intros i; simpl; [apply tracks_ret | ].
  apply tracks_bind; [now apply tracks_exportOne | intros _; apply IH].
Qed.

Lemma exportSheets_flushed fuel sheets :
  Forall hookKeepsExporter sheets ->
  forall i e l,
    UseStreamWriter e = true ->
    sheets <> [] \/ flushedNow (StreamWriter e, l) ->
    result (exportSheets fuel i sheets e) = Ret tt ->
    flushedNow (afterCalls (StreamWriter e, l) (trace (exportSheets fuel i sheets e))).
Proof.
  induction 1 as [| sheet rest Hh Hrest IH]; intros i e l He Hst Hr.
  - simpl. destruct Hst as [Hst | Hst]; [now destruct Hst | exact Hst].
  - cbn [exportSheets] in *.
    apply bind_Ret_inv in Hr. destruct Hr as ([] & H1 & Hr & T1 & F1).
    rewrite T1, afterCalls_app.
    destruct (tracks_exportOne Hh fuel i e l He) as (Hu1 & _ & Hs1).
    pose proof (@exportOne_flushed fuel i sheet e l Hh He H1) as Hfl.
    set (e1 := final (exportOne fuel i sheet e)) in *.
    set (st1 := afterCalls (StreamWriter e, l) _) in *.
    rewrite (surjective_pairing st1), Hs1.
    apply IH; [exact Hu1 | | exact Hr].
    right. unfold flushedNow in *. simpl. now rewrite <- Hs1.
Qed.

Lemma Export_flushedBeforeSwitch fuel sheets e :
  UseStreamWriter e = true ->
  Forall hookKeepsExporter sheets ->
  sheets <> [] \/ StreamWriter e = None ->
  flushedBeforeSwitch (StreamWriter e, None) (trace (Export fuel sheets e)).
Proof.
  intros He Hh Hst. unfold Export.
  destruct (deferClose_run (exportSheets fuel 0 sheets ;; saveAs) e)
    as [_ (closing & -> & Hcl)].
  assert (Hclosing : Forall noSwitch closing).
  { destruct (result ((exportSheets fuel 0 sheets ;; saveAs) e));
      try (destruct Hcl as (err & ->); repeat constructor).
    subst. constructor. }
  clear Hcl. rewrite flushedBeforeSwitch_app. split; [ | now apply noSwitch_run].
  rewrite bind_trace, flushedBeforeSwitch_app.
  destruct (tracks_exportSheets fuel Hh 0 e None He) as (Hu & Hf & Hs).
  split; [exact Hf | ].
  destruct (result (exportSheets fuel 0 sheets e)) as [[] | x | | ] eqn:Hr; try exact I.
  unfold saveAs. rewrite bind_get. unfold call.
  destruct (SaveAs _ _) as [b err]. simpl. split; [ | exact I].
  apply exportSheets_flushed; auto.
  destruct Hst as [Hst | Hst]; [now left | right; now left].
Qed.

Lemma flushedBeforeSwitch_at st (pre post : list Call) (c : Call) :
  flushedBeforeSwitch st (pre ++ c :: post) -> isSwitch (what c) = true ->
  flushedNow (afterCalls st pre).
Proof.
  intros H Hc. apply flushedBeforeSwitch_app in H. destruct H as [_ H].
  simpl in H. destruct H as [H _]. destruct (what c); try discriminate; exact H.
Qed.

Lemma flushed_is_last_call (pre : list Call) :
  forall st sw,
    snd (afterCalls st pre) = Some sw ->
    snd st = Some sw /\ pre = [] \/ exists pre', pre = pre' ++ [mkCall (EvFlush sw) None].
Proof.
  induction pre as [| c pre IH]; intros st sw H; [left; auto | right].
  simpl in H. destruct (IH _ _ H) as [[Hst ->] | (pre' & ->)].
  - exists []. simpl. f_equal. destruct c as [ev err]. unfold afterCall in Hst.
    destruct ev; simpl in Hst; try discriminate.
    destruct err; [discriminate | ]. now injection Hst as ->.
  - exists (c :: pre'). reflexivity.
Qed.

(** C4 (flush before the stream changes).  In streaming mode, with hooks
    that leave the exporter's own fields alone, on an exporter that starts
    with no stream (as [New] makes it) or has a spec to export: whenever
    [Export] calls [NewStreamWriter], which replaces the stream the exporter
    holds (at the first sheet of a spec and at every split), or [SaveAs],
    while the exporter holds the stream [sw], the call made just before is a
    [Flush] of [sw] that succeeded. *)
Theorem flush_before_stream_switch fuel sheets e pre c post sw :
  UseStreamWriter e = true ->
  Forall hookKeepsExporter sheets ->
  sheets <> [] \/ StreamWriter e = None ->
  trace (Export fuel sheets e) = pre ++ c :: post ->
  isSwitch (what c) = true ->
  heldAfter (StreamWriter e) pre = Some sw ->
  exists pre', pre = pre' ++ [mkCall (EvFlush sw) None].
Proof.
  intros He Hh Hst Htr Hc Hheld.
  pose proof (@Export_flushedBeforeSwitch fuel sheets e He Hh Hst) as H. rewrite Htr in H.
  apply flushedBeforeSwitch_at in H; [ | exact Hc].
  unfold heldAfter in Hheld. destruct H as [H | H]; [congruence | ].
  rewrite Hheld in H.
  destruct (flushed_is_last_call _ _ H) as [[Hn _] | Hex]; [discriminate | exact Hex].
Qed.

(** * Further properties of the exporter *)

(** ** The streamed write of a row *)

Lemma streamMerges_makes sw merges e :
  makes (streamMergeEvents sw merges) (streamMerges sw merges e).
Proof.
  revert e. induction merges as [| mergeCell rest IH]; intros e.
  - apply makes_ret.
  - cbn [streamMergeEvents map streamMerges].
    apply (makes_bind (E1 := [_])); [apply makes_call | intros e'; apply IH].
Qed.

(** X1 (the streaming strategy writes row by row).  Writing a row at [rowID],
    [exportUsingStreamWriter]'s [writeRowFunc] calls [SetRow] once, at the
    coordinates [(1, rowID)], with all the cells of the row and its options,
    and then [MergeCell] for each merge range, all on the stream the exporter
    holds, whatever the sheet name it is given; when a call fails the calls
    made are a first part of these.  With no stream held it panics before any
    call. *)
Theorem streamed_write_of_a_row sheetName rowID row e :
  match StreamWriter e with
  | Some sw =>
      (result (streamWriteRowFunc sheetName rowID row e) = Ret tt ->
       events (trace (streamWriteRowFunc sheetName rowID row e)) =
         streamRowEvents sw rowID row) /\
      (exists rest,
         streamRowEvents sw rowID row =
           events (trace (streamWriteRowFunc sheetName rowID row e)) ++ rest)
  | None =>
      result (streamWriteRowFunc sheetName rowID row e) = Panic /\
      trace (streamWriteRowFunc sheetName rowID row e) = []
  end.
Proof.
  unfold streamWriteRowFunc, onStream. destruct (StreamWriter e) as [sw | ].
  - unfold streamRowEvents.
    apply (makes_bind (E1 := [_])); [apply makes_call | intros e'; apply streamMerges_makes].
  - split; reflexivity.
Qed.

(** ** The place of every row *)

Lemma physicalSheet_pos name k : 0 < k -> physicalSheet name k = Sprintf_s_d name k.
Proof.
  intros Hk. unfold physicalSheet. destruct (k =? 0) eqn:H; [ | reflexivity].
  apply Z.eqb_eq in H. lia.
Qed.

(** The writes of the loop, by the index of the row: [k] is the index of the
    next row, [rowID] and [suf] the loop's variables before it. *)
Lemma filter_isWrite_layoutRows sheet (rows : list Row) :
  forall current rowID suf k,
    1 <= rowID <= SheetMaxRows + 1 -> 0 <= suf ->
    k = suf * SheetMaxRows + rowID - 1 ->
    current = physicalSheet (Name sheet) suf ->
    k + Z.of_nat (List.length rows) < 2 ^ 63 ->
    filter isWrite (layoutRows sheet current rowID suf rows) =
      map (fun p => placeOf (Name sheet) (fst p) (snd p)) (indexedFrom k rows).
Proof.
  pose proof SheetMaxRows_eq as HN.
  induction rows as [| row rest IH]; intros current rowID suf k Hrow Hsuf Hk Hcur Hlen;
    [reflexivity | ].
  rewrite indexedFrom_cons. cbn [map fst snd layoutRows]. cbn [List.length] in Hlen.
  destruct (rowID >? SheetMaxRows) eqn:Hfull.
  - apply Z.gtb_lt in Hfull.
    assert (Hs : incr suf = suf + 1) by (apply incr_small; nia).
    assert (Hq : k / SheetMaxRows = suf + 1).
    { symmetry. apply Z.div_unique with (r := 0); lia. }
    assert (Hm : k mod SheetMaxRows = 0).
    { symmetry. apply Z.mod_unique with (q := suf + 1); lia. }
    cbn [filter isWrite]. rewrite filter_app, filter_isWrite_hookRun. cbn [app filter isWrite].
    f_equal.
    + unfold placeOf. rewrite Hq, Hm, Hs, physicalSheet_pos by lia. reflexivity.
    + apply IH.
      * change (incr 1) with 2. lia.
      * lia.
      * change (incr 1) with 2. lia.
      * rewrite Hs, physicalSheet_pos by lia. reflexivity.
      * lia.
  - rewrite Z.gtb_ltb in Hfull. apply Z.ltb_ge in Hfull.
    assert (Hq : k / SheetMaxRows = suf).
    { symmetry. apply Z.div_unique with (r := rowID - 1); lia. }
    assert (Hm : k mod SheetMaxRows = rowID - 1).
    { symmetry. apply Z.mod_unique with (q := suf); lia. }
    cbn [filter isWrite]. f_equal.
    + unfold placeOf. rewrite Hq, Hm, <- Hcur. f_equal. lia.
    + apply IH; try lia; try assumption. rewrite incr_small by lia. lia.
      rewrite incr_small by lia. lia.
Qed.

(** The writes of the layout of a spec, by the index of the row. *)
Lemma sheetLayout_writes sheet (rows : list Row) :
  Z.of_nat (List.length rows) < 2 ^ 63 ->
  filter isWrite (sheetLayout sheet rows) = placed (Name sheet) rows.
Proof.
  intros Hlen. unfold sheetLayout.
  cbn [filter isWrite]. rewrite filter_app, filter_isWrite_hookRun. cbn [app].
  pose proof SheetMaxRows_eq as HN.
  apply filter_isWrite_layoutRows; try lia. reflexivity.
Qed.

(** X2 (the place of every row).  When the export of a spec returns nil, the
    rows its source fed were written in their order, the row of index [k]
    (from 0) at row [k mod SheetMaxRows + 1] of the physical sheet number
    [k / SheetMaxRows]: the spec's own sheet for number 0, the sheet
    [<name>_<number>] after it. *)
Theorem rows_are_placed_by_index fuel i sheet rows e :
  hookKeepsExporter sheet ->
  Feeds (RowFunc sheet) rows ->
  Z.of_nat (List.length rows) < 2 ^ 63 ->
  result (exportOne fuel i sheet e) = Ret tt ->
  filter isWrite (events (trace (exportOne fuel i sheet e))) = placed (Name sheet) rows.
Proof.
  intros Hh Hf Hlen Hr. rewrite filter_isWrite_layout.
  rewrite (@exportOne_layout fuel i sheet rows e Hh Hf Hr).
  cbn [filter isWrite]. now apply sheetLayout_writes.
Qed.

(** ** The sheets of a spec *)

Lemma createdIn_app (l1 l2 : list Event) : createdIn (l1 ++ l2) = createdIn l1 ++ createdIn l2.
Proof. apply flat_map_app. Qed.

Lemma createdIn_layout (tr : list Call) : sheetsOf tr = createdIn (layout tr).
Proof.
  unfold sheetsOf, layout. induction (events tr) as [| ev evs IH]; [reflexivity | ].
  destruct ev; simpl; rewrite ?IH; reflexivity.
Qed.

Lemma createdIn_hookRun sheet name : createdIn (hookRun sheet name) = [].
Proof. unfold hookRun. now destruct (InitFunc sheet). Qed.

(** The sheets the loop still creates: the ones after number [suf], up to the
    number of the sheet of the last row. *)
Lemma createdIn_layoutRows sheet (rows : list Row) :
  forall current rowID suf k,
    1 <= rowID <= SheetMaxRows + 1 -> 0 <= suf ->
    k = suf * SheetMaxRows + rowID - 1 ->
    k + Z.of_nat (List.length rows) < 2 ^ 63 ->
    createdIn (layoutRows sheet current rowID suf rows) =
      map (fun j => Sprintf_s_d (Name sheet) (suf + 1 + Z.of_nat j))
          (seq 0 (Z.to_nat ((k + Z.of_nat (List.length rows) - 1) / SheetMaxRows - suf))).
Proof.
  pose proof SheetMaxRows_eq as HN.
  induction rows as [| row rest IH]; intros current rowID suf k Hrow Hsuf Hk Hlen.
  - cbn [List.length Z.of_nat layoutRows createdIn flat_map].
    assert (Hq : (k + 0 - 1) / SheetMaxRows < suf + 1).
    { apply Z.div_lt_upper_bound; lia. }
    replace (Z.to_nat ((k + 0 - 1) / SheetMaxRows - suf)) with 0%nat by lia. reflexivity.
  - cbn [layoutRows]. cbn [List.length] in Hlen |- *.
    replace (k + Z.of_nat (S (List.length rest)) - 1)
      with (k + 1 + Z.of_nat (List.length rest) - 1) by lia.
    destruct (rowID >? SheetMaxRows) eqn:Hfull.
    + apply Z.gtb_lt in Hfull.
      assert (Hs : incr suf = suf + 1) by (apply incr_small; nia).
      assert (Hq : suf + 1 <= (k + 1 + Z.of_nat (List.length rest) - 1) / SheetMaxRows).
      { apply Z.div_le_lower_bound; lia. }
      cbn [createdIn flat_map app]. fold (createdIn (hookRun sheet (Sprintf_s_d (Name sheet) (incr suf)) ++
        EvWriteRow (Sprintf_s_d (Name sheet) (incr suf)) 1 row ::
        layoutRows sheet (Sprintf_s_d (Name sheet) (incr suf)) (incr 1) (incr suf) rest)).
      rewrite createdIn_app, createdIn_hookRun. cbn [app createdIn flat_map].
      fold (createdIn (layoutRows sheet (Sprintf_s_d (Name sheet) (incr suf)) (incr 1) (incr suf) rest)).
      rewrite (IH _ (incr 1) (incr suf) (k + 1)); try (change (incr 1) with 2; lia); try lia.
      rewrite Hs.
      replace (Z.to_nat ((k + 1 + Z.of_nat (List.length rest) - 1) / SheetMaxRows - suf))
        with (S (Z.to_nat ((k + 1 + Z.of_nat (List.length rest) - 1) / SheetMaxRows - (suf + 1))))
        by lia.
      cbn [seq map]. f_equal; [f_equal; lia | ].
      rewrite <- seq_shift, map_map. apply map_ext. intros j. f_equal. lia.
    + rewrite Z.gtb_ltb in Hfull. apply Z.ltb_ge in Hfull.
      cbn [createdIn flat_map app].
      fold (createdIn (layoutRows sheet current (incr rowID) suf rest)).
      apply IH; try lia; rewrite incr_small by lia; lia.
Qed.

Lemma createdIn_cons name (evs : list Event) :
  createdIn (EvNewSheet name :: evs) = name :: createdIn evs.
Proof. reflexivity. Qed.

(** The sheets of the layout of a spec, after its own. *)
Lemma sheetLayout_sheets sheet (rows : list Row) :
  Z.of_nat (List.length rows) < 2 ^ 63 ->
  Name sheet :: createdIn (sheetLayout sheet rows) = physicalSheetsFor (Name sheet) rows.
Proof.
  intros Hlen. unfold sheetLayout.
  pose proof SheetMaxRows_eq as HN.
  cbn [createdIn flat_map app].
  fold (createdIn (hookRun sheet (Name sheet) ++ layoutRows sheet (Name sheet) 1 0 rows)).
  rewrite createdIn_app, createdIn_hookRun. cbn [app].
  rewrite (@createdIn_layoutRows sheet rows (Name sheet) 1 0 0) by lia.
  unfold physicalSheetsFor, physicalSheets. cbn [seq map]. f_equal.
  rewrite <- seq_shift, map_map, Z.sub_0_r. apply map_ext. intros j.
  rewrite physicalSheet_pos by lia. f_equal. lia.
Qed.

(** X3 (the sheets of a spec).  When the export of a spec that was fed [n]
    rows returns nil, the sheets it created are the spec's own and one more
    for every [SheetMaxRows] rows begun after the first: numbers 0 to
    [(n - 1) / SheetMaxRows] in order, so a spec without rows has its one
    sheet and no sheet but the first is ever left without a row. *)
Theorem sheets_created_for_a_spec fuel i sheet rows e :
  hookKeepsExporter sheet ->
  Feeds (RowFunc sheet) rows ->
  Z.of_nat (List.length rows) < 2 ^ 63 ->
  result (exportOne fuel i sheet e) = Ret tt ->
  sheetsOf (trace (exportOne fuel i sheet e)) =
    physicalSheets (Name sheet)
      (S (Z.to_nat ((Z.of_nat (List.length rows) - 1) / SheetMaxRows))).
Proof.
  intros Hh Hf Hlen Hr. rewrite createdIn_layout.
  rewrite (@exportOne_layout fuel i sheet rows e Hh Hf Hr), createdIn_cons.
  now apply sheetLayout_sheets.
Qed.

(** ** The error [Export] returns *)

Lemma reports_ret {A} (a : A) : reports (ret a).
Proof. intros e x H. discriminate. Qed.

Lemma reports_get : reports get.
Proof. intros e x H. discriminate. Qed.

Lemma reports_panic {A} : reports (@panic A).
Proof. intros e x H. discriminate. Qed.

Lemma reports_diverge {A} : reports (@diverge A).
Proof. intros e x H. discriminate. Qed.

Lemma reports_setCurrentSheet name : reports (setCurrentSheet name).
Proof. intros e x H. discriminate. Qed.

Lemma reports_mark ev : reports (mark ev).
Proof. intros e x H. discriminate. Qed.

Lemma reportsOut_single {A} (e' : Exporter) (ev : Event) (err : option error) (a : A) :
  (forall x0, returnedFor ev x0 = x0) ->
  reportsOut (mkOut e' [mkCall ev err] match err with None => Ret a | Some x => Raise x end).
Proof.
  intros Hp x H. destruct err as [x0 | ]; simpl in H; [injection H as <- | discriminate].
  exists [], (mkCall ev (Some x0)), x0. simpl. rewrite Hp. auto.
Qed.

Lemma reports_call ev op : (forall x0, returnedFor ev x0 = x0) -> reports (call ev op).
Proof.
  intros Hp e. unfold call. destruct (op (File e)) as [b err]. now apply reportsOut_single.
Qed.

Lemma reports_callHook h : reports (callHook h).
Proof.
  intros e. unfold callHook. destruct (h e) as [e' err]. now apply reportsOut_single.
Qed.

Lemma reports_newStreamWriter sheetName : reports (newStreamWriter sheetName).
Proof.
  intros e. unfold newStreamWriter.
  destruct (NewStreamWriter sheetName (File e)) as [[b sw] err]. now apply reportsOut_single.
Qed.

Lemma reports_pull sheet i src : reports (pull sheet i src).
Proof.
  intros e. unfold pull. destruct (srcPull (RowFunc sheet) i src) as [[row err] s1].
  now apply reportsOut_single.
Qed.

Lemma reports_wrapped context ev op :
  (forall x0, returnedFor ev x0 = Wrapf context x0) ->
  reports (withContext context (call ev op)).
Proof.
  intros Hp e x. unfold withContext, call. destruct (op (File e)) as [b [x0 | ]]; simpl;
    intros H; [injection H as <- | discriminate].
  exists [], (mkCall ev (Some x0)), x0. simpl. rewrite Hp. auto.
Qed.

Lemma reports_newSheet name : reports (newSheet name).
Proof. unfold newSheet. now apply reports_wrapped. Qed.

Lemma reports_bind {A C} (m : M A) (k : A -> M C) :
  reports m -> (forall a, reports (k a)) -> reports (bind m k).
Proof.
  intros Hm Hk e x. specialize (Hm e). unfold bind, reportsOut in *.
  destruct (result (m e)) as [a | x1 | | ]; simpl; try discriminate.
  - intros H. destruct (Hk a (final (m e)) x H) as (pre & c & x0 & Ht & Hc & Hx).
    exists (trace (m e) ++ pre), c, x0. rewrite Ht, app_assoc. auto.
  - intros H. injection H as <-. now apply Hm.
Qed.

Lemma reports_onStream {A} (k : SW -> M A) :
  (forall sw, reports (k sw)) -> reports (onStream k).
Proof.
  intros Hk e. unfold onStream. destruct (StreamWriter e); [apply Hk | apply reports_panic].
Qed.

Ltac reports_step :=
  first
    [ apply reports_ret | apply reports_get | apply reports_panic | apply reports_diverge
    | apply reports_setCurrentSheet | apply reports_mark
    | apply reports_call; reflexivity
    | apply reports_callHook | apply reports_newStreamWriter | apply reports_pull
    | apply reports_newSheet
    | apply reports_wrapped; reflexivity
    | apply reports_onStream; intros ?
    | apply reports_bind; [ | intros ? ] ].

Lemma reports_runHook sheet : reports (runHook sheet).
Proof. unfold runHook. destruct (InitFunc sheet); reports_step. Qed.

Lemma reports_streamInitFunc sheet sheetName : reports (streamInitFunc sheet sheetName).
Proof.
  unfold streamInitFunc.
  apply reports_bind; [reports_step | intros e0].
  apply reports_bind; [destruct (StreamWriter e0); reports_step | intros _].
  apply reports_bind; [reports_step | intros _; apply reports_runHook].
Qed.

Lemma reports_streamMerges sw merges : reports (streamMerges sw merges).
Proof.
  induction merges as [| mergeCell rest IH]; simpl; [reports_step | ].
  apply reports_bind; [reports_step | intros _; exact IH].
Qed.

Lemma reports_streamWriteRowFunc sheetName rowID row :
  reports (streamWriteRowFunc sheetName rowID row).
Proof.
  unfold streamWriteRowFunc. apply reports_onStream. intros sw.
  apply reports_bind; [reports_step | intros _; apply reports_streamMerges].
Qed.

Lemma reports_memoryWriteCell sheetName rowID j cell :
  reports (memoryWriteCell sheetName rowID j cell).
Proof.
  unfold memoryWriteCell.
  apply reports_bind; [reports_step | intros _].
  apply reports_bind; [destruct (StyleID cell >? 0); reports_step | intros _].
  destruct (String.eqb (Formula cell) ""); reports_step.
Qed.

Lemma reports_memoryWriteCells sheetName rowID cells :
  forall j, reports (memoryWriteCells sheetName rowID j cells).
Proof.
  induction cells as [| cell rest IH]; intros j; simpl; [reports_step | ].
  apply reports_bind; [apply reports_memoryWriteCell | intros _; apply IH].
Qed.

Lemma reports_memoryMerges sheetName merges : reports (memoryMerges sheetName merges).
Proof.
  induction merges as [| mergeCell rest IH]; simpl; [reports_step | ].
  apply reports_bind; [reports_step | intros _; exact IH].
Qed.

Lemma reports_memoryWriteRowFunc sheetName rowID row :
  reports (memoryWriteRowFunc sheetName rowID row).
Proof.
  unfold memoryWriteRowFunc.
  apply reports_bind; [apply reports_memoryWriteCells | intros _; apply reports_memoryMerges].
Qed.

Section HelperReports.

Variable sheet : SheetData.
Variable initFunc : string -> M unit.
Variable writeRowFunc : string -> Z -> Row -> M unit.

Hypothesis init_reports : forall s, reports (initFunc s).
Hypothesis write_reports : forall s r row, reports (writeRowFunc s r row).

Lemma reports_callInit : reports (callInit initFunc).
Proof.
  unfold callInit. apply reports_bind; [reports_step | intros e0].
  apply reports_bind; [reports_step | intros _; apply init_reports].
Qed.

Lemma reports_splitIfFull rowID suf : reports (splitIfFull sheet initFunc rowID suf).
Proof.
  unfold splitIfFull. destruct (rowID >? SheetMaxRows); [ | reports_step].
  apply reports_bind; [apply reports_newSheet | intros _].
  apply reports_bind; [reports_step | intros _].
  apply reports_bind; [apply reports_callInit | intros _; reports_step].
Qed.

Lemma reports_helperLoop (fuel : nat) :
  forall src rowID suf i,
    reports (helperLoop sheet initFunc writeRowFunc fuel src rowID suf i).
Proof.
  induction fuel as [| fuel IH]; intros src rowID suf i; cbn [helperLoop]; [reports_step | ].
  apply reports_bind; [reports_step | intros p].
  destruct (Cells (fst p)); [ | reports_step].
  apply reports_bind; [apply reports_splitIfFull | intros q].
  apply reports_bind; [reports_step | intros e0].
  apply reports_bind; [reports_step | intros _].
  apply reports_bind; [apply write_reports | intros _; apply IH].
Qed.

Lemma reports_exportHelper fuel : reports (exportHelper sheet initFunc writeRowFunc fuel).
Proof.
  unfold exportHelper.
  apply reports_bind; [reports_step | intros _].
  apply reports_bind; [apply reports_callInit | intros _; apply reports_helperLoop].
Qed.

End HelperReports.

Lemma reports_exportSheet fuel sheet : reports (exportSheet fuel sheet).
Proof.
  unfold exportSheet. apply reports_bind; [reports_step | intros e0].
  destruct (UseStreamWriter e0).
  - unfold exportUsingStreamWriter. apply reports_bind.
    + apply reports_exportHelper;
        [apply reports_streamInitFunc | apply reports_streamWriteRowFunc].
    + intros _. reports_step. reports_step.
  - unfold exportUsingMemory.
    apply reports_exportHelper;
      [intros s; apply reports_runHook | apply reports_memoryWriteRowFunc].
Qed.

Lemma reports_deleteDefaultSheet i : reports (deleteDefaultSheet i).
Proof.
  unfold deleteDefaultSheet. apply reports_bind; [reports_step | intros e0].
  destruct ((i =? 0) && (SheetCount (File e0) >? 1)); reports_step.
Qed.

Lemma reports_exportOne fuel i sheet : reports (exportOne fuel i sheet).
Proof.
  unfold exportOne.
  apply reports_bind; [apply reports_newSheet | intros _].
  apply reports_bind; [apply reports_deleteDefaultSheet | intros _; apply reports_exportSheet].
Qed.

Lemma reports_exportSheets fuel sheets : forall i, reports (exportSheets fuel i sheets).
Proof.
  induction sheets as [| sheet rest IH]; intros i; simpl; [reports_step | ].
  apply reports_bind; [apply reports_exportOne | intros _; apply IH].
Qed.

Lemma reports_saveAs : reports saveAs.
Proof. unfold saveAs. apply reports_bind; [reports_step | intros e0; reports_step]. Qed.

(** X4 (where an error comes from).  When [Export] returns an error, the call
    before the deferred [Close] is the one that failed, and the error returned
    is that call's: wrapped as "failed to create a new sheet: ..." when the
    call is a [NewSheet], of a spec or of a split, as "failed to delete
    default sheet: ..." when it is the [DeleteSheet], and the very error of
    the call in every other case: the hook, a pull, a write, a merge, the
    opening or the flush of a stream, the save. *)
Theorem error_returned_by_origin fuel sheets e x :
  result (Export fuel sheets e) = Raise x ->
  exists pre c x0 err,
    trace (Export fuel sheets e) = pre ++ [c; mkCall EvClose err] /\
    failed c = Some x0 /\
    x = returnedFor (what c) x0.
Proof.
  intros Hr. unfold Export in *.
  destruct (deferClose_run (exportSheets fuel 0 sheets ;; saveAs) e)
    as [Hres (closing & Ht & Hcl)].
  rewrite Hres in Hr. rewrite Hr in Hcl. destruct Hcl as (err & ->).
  assert (Hb : reports (exportSheets fuel 0 sheets ;; saveAs)).
  { apply reports_bind; [apply reports_exportSheets | intros _; apply reports_saveAs]. }
  destruct (Hb e x Hr) as (pre & c & x0 & Hp & Hc & Hx).
  exists pre, c, x0, err. rewrite Ht, Hp, <- app_assoc. auto.
Qed.

(** ** What the whole export leaves unchanged *)

Section KeepsAll.

Context {X : Type} (f : Exporter -> X).
Hypothesis f_fileFree : fileFree f.
Hypothesis f_current : forall name, keeps f (setCurrentSheet name).
Hypothesis f_stream : forall name, keeps f (newStreamWriter name).

Lemma kept_diverge {A} : keeps f (@diverge A).
Proof. intros e. reflexivity. Qed.

Lemma kept_pull sheet i src : keeps f (pull sheet i src).
Proof.
  intros e. unfold pull. destruct (srcPull (RowFunc sheet) i src) as [[row err] s1].
  reflexivity.
Qed.

Lemma kept_newSheet name : keeps f (newSheet name).
Proof. unfold newSheet. apply keeps_withContext, keeps_call, f_fileFree. Qed.

Lemma kept_streamInitFunc sheet sheetName :
  hookKeepsExporter sheet -> keeps f (streamInitFunc sheet sheetName).
Proof.
  intros Hh. unfold streamInitFunc.
  apply keeps_bind; [apply keeps_get | intros e0].
  apply keeps_bind;
    [destruct (StreamWriter e0); [apply keeps_call, f_fileFree | apply keeps_ret] | intros _].
  apply keeps_bind; [apply f_stream | intros _].
  apply keeps_runHook; [apply f_fileFree | exact Hh].
Qed.

Section KeptLoop.

Variable sheet : SheetData.
Variable initFunc : string -> M unit.
Variable writeRowFunc : string -> Z -> Row -> M unit.

Hypothesis init_keeps : forall s, keeps f (initFunc s).
Hypothesis write_keeps : forall s r row, keeps f (writeRowFunc s r row).

Lemma kept_callInit : keeps f (callInit initFunc).
Proof.
  unfold callInit. apply keeps_bind; [apply keeps_get | intros e0].
  apply keeps_bind; [apply keeps_mark | intros _; apply init_keeps].
Qed.

Lemma kept_splitIfFull rowID suf : keeps f (splitIfFull sheet initFunc rowID suf).
Proof.
  unfold splitIfFull. destruct (rowID >? SheetMaxRows); [ | apply keeps_ret].
  apply keeps_bind; [apply kept_newSheet | intros _].
  apply keeps_bind; [apply f_current | intros _].
  apply keeps_bind; [apply kept_callInit | intros _; apply keeps_ret].
Qed.

Lemma kept_helperLoop (fuel : nat) :
  forall src rowID suf i,
    keeps f (helperLoop sheet initFunc writeRowFunc fuel src rowID suf i).
Proof.
  induction fuel as [| fuel IH]; intros src rowID suf i; cbn [helperLoop];
    [apply kept_diverge | ].
  apply keeps_bind; [apply kept_pull | intros p].
  destruct (Cells (fst p)); [ | apply keeps_ret].
  apply keeps_bind; [apply kept_splitIfFull | intros q].
  apply keeps_bind; [apply keeps_get | intros e0].
  apply keeps_bind; [apply keeps_mark | intros _].
  apply keeps_bind; [apply write_keeps | intros _; apply IH].
Qed.

Lemma kept_exportHelper fuel : keeps f (exportHelper sheet initFunc writeRowFunc fuel).
Proof.
  unfold exportHelper.
  apply keeps_bind; [apply f_current | intros _].
  apply keeps_bind; [apply kept_callInit | intros _; apply kept_helperLoop].
Qed.

End KeptLoop.

Lemma kept_exportSheet fuel sheet :
  hookKeepsExporter sheet -> keeps f (exportSheet fuel sheet).
Proof.
  intros Hh. unfold exportSheet. apply keeps_bind; [apply keeps_get | intros e0].
  destruct (UseStreamWriter e0).
  - unfold exportUsingStreamWriter. apply keeps_bind.
    + apply kept_exportHelper.
      * intros s. now apply kept_streamInitFunc.
      * intros s r row. apply keeps_streamWriteRowFunc, f_fileFree.
    + intros _. apply keeps_onStream. intros sw. apply keeps_call, f_fileFree.
  - unfold exportUsingMemory. apply kept_exportHelper.
    + intros s. apply keeps_runHook; [apply f_fileFree | exact Hh].
    + intros s r row. apply keeps_memoryWriteRowFunc, f_fileFree.
Qed.

Lemma kept_deleteDefaultSheet i : keeps f (deleteDefaultSheet i).
Proof.
  unfold deleteDefaultSheet. apply keeps_bind; [apply keeps_get | intros e0].
  destruct ((i =? 0) && (SheetCount (File e0) >? 1));
    [apply keeps_withContext, keeps_call, f_fileFree | apply keeps_ret].
Qed.

Lemma kept_exportOne fuel i sheet :
  hookKeepsExporter sheet -> keeps f (exportOne fuel i sheet).
Proof.
  intros Hh. unfold exportOne.
  apply keeps_bind; [apply kept_newSheet | intros _].
  apply keeps_bind; [apply kept_deleteDefaultSheet | intros _; now apply kept_exportSheet].
Qed.

Lemma kept_exportSheets fuel sheets :
  Forall hookKeepsExporter sheets -> forall i, keeps f (exportSheets fuel i sheets).
Proof.
  induction 1 as [| sheet rest Hh Hrest IH]; intros i; simpl; [apply keeps_ret | ].
  apply keeps_bind; [now apply kept_exportOne | intros _; apply IH].
Qed.

End KeepsAll.

Lemma FileName_fileFree : fileFree FileName.
Proof. intros e b. reflexivity. Qed.

Lemma exportSheets_FileName fuel sheets i :
  Forall hookKeepsExporter sheets -> keeps FileName (exportSheets fuel i sheets).
Proof.
  intros Hh. apply kept_exportSheets; try assumption.
  - apply FileName_fileFree.
  - intros name e. reflexivity.
  - intros name e. unfold newStreamWriter.
    destruct (NewStreamWriter name (File e)) as [[b sw] err]. reflexivity.
Qed.

(** ** The save and the close *)

Lemma sheetWork_sheetsCall (c : Call) : sheetWork c -> sheetsCall c.
Proof. unfold sheetWork, sheetsCall. destruct (what c); cbv; intros; split; congruence. Qed.

Lemma exportSheets_sheetsCall fuel sheets :
  forall i, emits sheetsCall (exportSheets fuel i sheets).
Proof.
  induction sheets as [| sheet rest IH]; intros i; simpl; [apply emits_ret | ].
  apply emits_bind; [ | intros _; apply IH].
  unfold exportOne.
  apply emits_bind; [apply emits_withContext, emits_call; split; reflexivity | intros _].
  apply emits_bind.
  - unfold deleteDefaultSheet. apply emits_bind; [apply emits_get | intros e0].
    destruct ((i =? 0) && (SheetCount (File e0) >? 1)); [ | apply emits_ret].
    apply emits_withContext, emits_call. split; reflexivity.
  - intros _. eapply emits_impl; [apply sheetWork_sheetsCall | apply exportSheet_work].
Qed.

(** The calls of [Export]: those of the loop over the specs, the save when
    the loop returned nil, the close when [Export] comes to an end. *)
Lemma Export_run fuel sheets e :
  exists t,
    Forall sheetsCall t /\
    ((exists name errS errC,
        trace (Export fuel sheets e) = t ++ [mkCall (EvSaveAs name) errS; mkCall EvClose errC] /\
        result (Export fuel sheets e) = resOf errS /\
        name = FileName (final (exportSheets fuel 0 sheets e))) \/
     (exists errC,
        trace (Export fuel sheets e) = t ++ [mkCall EvClose errC] /\
        result (Export fuel sheets e) <> Ret tt /\
        result (Export fuel sheets e) <> Diverge) \/
     (trace (Export fuel sheets e) = t /\ result (Export fuel sheets e) = Diverge)).
Proof.
  exists (trace (exportSheets fuel 0 sheets e)).
  split; [apply exportSheets_sheetsCall | ].
  unfold Export.
  destruct (deferClose_run (exportSheets fuel 0 sheets ;; saveAs) e)
    as [Hres (closing & Ht & Hcl)].
  rewrite Hres, Ht. clear Hres Ht.
  rewrite bind_trace.
  assert (Hb : result ((exportSheets fuel 0 sheets ;; saveAs) e) =
               match result (exportSheets fuel 0 sheets e) with
               | Ret _ => result (saveAs (final (exportSheets fuel 0 sheets e)))
               | Raise x => Raise x
               | Panic => Panic
               | Diverge => Diverge
               end).
  { unfold bind. destruct (result (exportSheets fuel 0 sheets e)); reflexivity. }
  rewrite Hb in *. clear Hb.
  assert (Hsave : forall e', exists errS,
             trace (saveAs e') = [mkCall (EvSaveAs (FileName e')) errS] /\
             result (saveAs e') = resOf errS).
  { intros e'. unfold saveAs. rewrite bind_get. unfold call.
    destruct (SaveAs (FileName e') (File e')) as [b errS]. exists errS. auto. }
  destruct (result (exportSheets fuel 0 sheets e)) as [[] | x | | ] eqn:Hs.
  - left. destruct (Hsave (final (exportSheets fuel 0 sheets e))) as (errS & Hst & Hsr).
    rewrite Hst, Hsr in *.
    assert (Hcl' : exists err, closing = [mkCall EvClose err]) by (destruct errS; exact Hcl).
    destruct Hcl' as (errC & ->).
    exists (FileName (final (exportSheets fuel 0 sheets e))), errS, errC.
    rewrite <- app_assoc. auto.
  - right. left. destruct Hcl as (errC & ->). exists errC. rewrite app_nil_r.
    repeat split; discriminate.
  - right. left. destruct Hcl as (errC & ->). exists errC. rewrite app_nil_r.
    repeat split; discriminate.
  - right. right. subst closing. now rewrite !app_nil_r.
Qed.

Lemma sheetsCall_notClose (t : list Call) : Forall sheetsCall t -> Forall notClose t.
Proof. apply Forall_impl. intros c [_ H]. exact H. Qed.

(** X5 (the deferred close).  When [Export] comes to an end, by a return or
    by a panic, [Close] is its last call and it is called that once; while
    [Export] runs [Close] is not called. *)
Theorem Close_is_the_last_call fuel sheets e :
  match result (Export fuel sheets e) with
  | Diverge => Forall notClose (trace (Export fuel sheets e))
  | _ => exists pre err,
           trace (Export fuel sheets e) = pre ++ [mkCall EvClose err] /\
           Forall notClose pre
  end.
Proof.
  destruct (Export_run fuel sheets e)
    as (t & Ht & [(name & errS & errC & Htr & Hr & _) | [(errC & Htr & Hr & Hd) | (Htr & Hr)]]).
  - assert (H : exists pre err,
               trace (Export fuel sheets e) = pre ++ [mkCall EvClose err] /\
               Forall notClose pre).
    { exists (t ++ [mkCall (EvSaveAs name) errS]), errC. rewrite Htr, <- app_assoc.
      split; [reflexivity | ]. apply Forall_app. split; [now apply sheetsCall_notClose | ].
      repeat constructor. }
    rewrite Hr. destruct errS; exact H.
  - assert (H : exists pre err,
               trace (Export fuel sheets e) = pre ++ [mkCall EvClose err] /\
               Forall notClose pre).
    { exists t, errC. split; [exact Htr | now apply sheetsCall_notClose]. }
    destruct (result (Export fuel sheets e)); try exact H. contradiction.
  - rewrite Hr, Htr. now apply sheetsCall_notClose.
Qed.

Lemma app_two_inj {A} (x y : list A) (a b c d : A) :
  x ++ [a; b] = y ++ [c; d] -> x = y /\ a = c /\ b = d.
Proof.
  intros H. change (x ++ [a] ++ [b] = y ++ [c] ++ [d]) in H. rewrite !app_assoc in H.
  apply app_inj_tail in H as [H ->]. apply app_inj_tail in H as [-> ->]. auto.
Qed.

(** A call that is the save, in a list that ends with the save and the
    close. *)
Lemma save_position (t pre post : list Call) (c s cl : Call) :
  Forall sheetsCall t -> isSave (what c) = true -> isSave (what cl) = false ->
  t ++ [s; cl] = pre ++ c :: post ->
  c = s /\ pre = t /\ post = [cl].
Proof.
  intros Ht Hc Hcl Heq. apply app_eq_app in Heq.
  destruct Heq as (l & [(H1 & H2) | (H1 & H2)]).
  - destruct l as [| c' l]; simpl in H2.
    + rewrite app_nil_r in H1. injection H2 as H2 H3. subst. auto.
    + injection H2 as H2 _. subst c'.
      rewrite H1 in Ht. apply Forall_app in Ht as [_ Ht].
      apply Forall_inv in Ht. destruct Ht as [Hs _]. congruence.
  - destruct l as [| a [| b l]]; simpl in H2.
    + injection H2 as H2 H3. rewrite app_nil_r in H1. subst. auto.
    + injection H2 as _ H2 H3. subst. congruence.
    + injection H2 as _ _ H2. destruct l; discriminate.
Qed.

(** X6 (the save).  Once the hooks leave the exporter's own fields alone:
    [Export] returns nil exactly when its last call before [Close] is a
    [SaveAs] that succeeded, whatever [Close] then returns; and [SaveAs] is
    called at most once, under the file name the exporter was given, with
    only [Close] after it: after an error of a spec nothing is saved. *)
Theorem file_saved_once_at_the_end fuel sheets e :
  Forall hookKeepsExporter sheets ->
  (result (Export fuel sheets e) = Ret tt <->
   exists pre err,
     trace (Export fuel sheets e) =
       pre ++ [mkCall (EvSaveAs (FileName e)) None; mkCall EvClose err]) /\
  (forall pre c post,
     trace (Export fuel sheets e) = pre ++ c :: post ->
     isSave (what c) = true ->
     what c = EvSaveAs (FileName e) /\ exists err, post = [mkCall EvClose err]).
Proof.
  intros Hh.
  pose proof (@exportSheets_FileName fuel sheets 0 Hh e) as Hname.
  destruct (Export_run fuel sheets e)
    as (t & Ht & [(name & errS & errC & Htr & Hr & Hn) | [(errC & Htr & Hr & Hd) | (Htr & Hr)]]).
  - rewrite Hname in Hn. subst name. split.
    + split.
      * intros H. rewrite Hr in H. destruct errS; [discriminate | ]. eauto.
      * intros (pre & err & H). rewrite Htr in H.
        apply app_two_inj in H as (_ & H & _). injection H as ->. exact Hr.
    + intros pre c post H Hc. rewrite Htr in H.
      destruct (@save_position t pre post c (mkCall (EvSaveAs (FileName e)) errS)
                  (mkCall EvClose errC) Ht Hc eq_refl H) as (-> & _ & ->).
      split; [reflexivity | eauto].
  - split.
    + split; [intros H; contradiction | ].
      intros (pre & err & H). rewrite Htr in H.
      change (pre ++ [mkCall (EvSaveAs (FileName e)) None; mkCall EvClose err])
        with (pre ++ [mkCall (EvSaveAs (FileName e)) None] ++ [mkCall EvClose err]) in H.
      rewrite app_assoc in H. apply app_inj_tail_iff in H as [H _].
      rewrite H in Ht. apply Forall_app in Ht as [_ Ht]. apply Forall_inv in Ht.
      destruct Ht as [Hs _]. discriminate.
    + intros pre c post H Hc. rewrite Htr in H. exfalso.
      apply app_eq_app in H. destruct H as (l & [(H1 & H2) | (H1 & H2)]).
      * destruct l as [| c' l]; simpl in H2.
        -- injection H2 as H2 _. subst c. discriminate Hc.
        -- injection H2 as H2 _. subst c'. rewrite H1 in Ht.
           apply Forall_app in Ht as [_ Ht].
           apply Forall_inv in Ht. destruct Ht as [Hs _]. congruence.
      * destruct l as [| a l]; simpl in H2.
        -- injection H2 as H2 _. subst c. discriminate Hc.
        -- injection H2 as _ H2. destruct l; discriminate.
  - split.
    + split; [intros H; rewrite Hr in H; discriminate | ].
      intros (pre & err & H). rewrite Htr in H. rewrite H in Ht.
      apply Forall_app in Ht as [_ Ht]. apply Forall_inv in Ht.
      destruct Ht as [Hs _]. discriminate.
    + intros pre c post H Hc. rewrite Htr in H. rewrite H in Ht. exfalso.
      apply Forall_app in Ht as [_ Ht]. apply Forall_inv in Ht.
      destruct Ht as [Hs _]. congruence.
Qed.

(** ** Sources that never end *)

Section Endless.

Variable sheet : SheetData.
Variable initFunc : string -> M unit.
Variable writeRowFunc : string -> Z -> Row -> M unit.

Hypothesis endless : neverEnds (RowFunc sheet).

Lemma helperLoop_endless (fuel : nat) :
  forall src rowID suf i e,
    result (helperLoop sheet initFunc writeRowFunc fuel src rowID suf i e) <> Ret tt.
Proof.
  induction fuel as [| fuel IH]; intros src rowID suf i e; [discriminate | ].
  destruct (endless i src) as (row & s1 & Hp & Hc).
  destruct (Cells row) as [cs | ] eqn:Hcs; [ | now destruct Hc].
  rewrite (loop_row sheet initFunc writeRowFunc fuel src rowID suf i e Hp Hcs).
  simpl. unfold afterPull. intros Hr.
  apply bind_Ret_inv in Hr. destruct Hr as (q & _ & Hr & _).
  apply bind_Ret_inv in Hr. destruct Hr as (e0 & _ & Hr & _).
  apply bind_Ret_inv in Hr. destruct Hr as ([] & _ & Hr & _).
  apply bind_Ret_inv in Hr. destruct Hr as ([] & _ & Hr & _).
  now apply IH in Hr.
Qed.

Lemma exportHelper_endless fuel e :
  result (exportHelper sheet initFunc writeRowFunc fuel e) <> Ret tt.
Proof.
  unfold exportHelper. intros Hr.
  apply bind_Ret_inv in Hr. destruct Hr as ([] & _ & Hr & _).
  apply bind_Ret_inv in Hr. destruct Hr as ([] & _ & Hr & _).
  now apply helperLoop_endless in Hr.
Qed.

End Endless.

Lemma exportOne_endless fuel i sheet e :
  neverEnds (RowFunc sheet) -> result (exportOne fuel i sheet e) <> Ret tt.
Proof.
  intros Hn Hr. unfold exportOne in Hr.
  apply bind_Ret_inv in Hr. destruct Hr as ([] & _ & Hr & _).
  apply bind_Ret_inv in Hr. destruct Hr as ([] & _ & Hr & _).
  unfold exportSheet in Hr. rewrite bind_get in Hr.
  destruct (UseStreamWriter _).
  - unfold exportUsingStreamWriter in Hr.
    apply bind_Ret_inv in Hr. destruct Hr as ([] & Hr & _).
    exact (@exportHelper_endless sheet (streamInitFunc sheet) streamWriteRowFunc Hn fuel _ Hr).
  - exact (@exportHelper_endless sheet (memoryInitFunc sheet) memoryWriteRowFunc Hn fuel _ Hr).
Qed.

Lemma exportSheets_endless fuel sheets sheet :
  In sheet sheets -> neverEnds (RowFunc sheet) ->
  forall i e, result (exportSheets fuel i sheets e) <> Ret tt.
Proof.
  intros Hin Hn. induction sheets as [| s rest IH]; [contradiction | ].
  intros i e Hr. cbn [exportSheets] in Hr.
  apply bind_Ret_inv in Hr. destruct Hr as ([] & H1 & Hr & _).
  destruct Hin as [-> | Hin].
  - now apply exportOne_endless in H1.
  - now apply (IH Hin) in Hr.
Qed.

(** X7 (a source has to end).  [exportHelper] leaves its loop with nil only
    at the sentinel: when the source of one of the specs returns a row with
    its cells, and no error, at every call, [Export] does not return nil,
    however long it runs. *)
Theorem endless_source_never_returns_nil fuel sheets sheet e :
  In sheet sheets ->
  neverEnds (RowFunc sheet) ->
  result (Export fuel sheets e) <> Ret tt.
Proof.
  intros Hin Hn. unfold Export.
  destruct (deferClose_run (exportSheets fuel 0 sheets ;; saveAs) e) as [-> _].
  intros Hr. apply bind_Ret_inv in Hr. destruct Hr as ([] & Hr & _).
  now apply (@exportSheets_endless fuel sheets sheet Hin Hn 0 e) in Hr.
Qed.

(** ** The calls of each strategy, and panics *)

Section Safe.

Variable P : Call -> Prop.

Lemma safe_ret {A} (I J : Exporter -> Prop) (a : A) :
  (forall e, I e -> J e) -> safe I J P (ret a).
Proof. intros HIJ e He. repeat split; [constructor | discriminate | intros _ _; now apply HIJ]. Qed.

Lemma safe_diverge {A} (I J : Exporter -> Prop) : safe I J P (@diverge A).
Proof. intros e He. repeat split; [constructor | discriminate | discriminate]. Qed.

Lemma safe_weaken {A} (I I' J J' : Exporter -> Prop) (m : M A) :
  (forall e, I' e -> I e) -> (forall e, J e -> J' e) -> safe I J P m -> safe I' J' P m.
Proof.
  intros HI HJ Hm e He. destruct (Hm e (HI e He)) as (H1 & H2 & H3).
  repeat split; auto. intros a Ha. eauto.
Qed.

Lemma safeOut_bind {A C} (J K : Exporter -> Prop) (m : M A) (k : A -> M C) (e : Exporter) :
  safeOut J P (m e) -> (forall a, safe J K P (k a)) -> safeOut K P (bind m k e).
Proof.
  intros (H1 & H2 & H3) Hk. unfold bind, safeOut.
  destruct (result (m e)) as [a | x | | ] eqn:Hr; simpl;
    try (repeat split; [assumption | discriminate | discriminate]).
  - destruct (Hk a (final (m e)) (H3 a eq_refl)) as (K1 & K2 & K3).
    repeat split; [apply Forall_app; split; assumption | assumption | assumption].
  - contradiction.
Qed.

Lemma safe_bind {A C} (I J K : Exporter -> Prop) (m : M A) (k : A -> M C) :
  safe I J P m -> (forall a, safe J K P (k a)) -> safe I K P (bind m k).
Proof. intros Hm Hk e He. apply safeOut_bind with (J := J); auto. Qed.

Lemma safe_get {A} (I K : Exporter -> Prop) (k : Exporter -> M A) :
  (forall e, I e -> safeOut K P (k e e)) -> safe I K P (bind get k).
Proof. intros Hk e He. rewrite bind_get. now apply Hk. Qed.

Lemma safe_mark (I : Exporter -> Prop) ev : P (mkCall ev None) -> safe I I P (mark ev).
Proof.
  intros HP e He. repeat split; [repeat constructor; exact HP | discriminate | ].
  intros _ _. exact He.
Qed.

Lemma safe_call (I : Exporter -> Prop) ev op :
  stable I -> (forall err, P (mkCall ev err)) -> safe I I P (call ev op).
Proof.
  intros [Hs _] HP e He. unfold call. destruct (op (File e)) as [b err].
  repeat split; simpl.
  - repeat constructor. apply HP.
  - destruct err; discriminate.
  - intros _ _. now apply Hs.
Qed.

Lemma safe_withContext {A} (I J : Exporter -> Prop) context (m : M A) :
  safe I J P m -> safe I J P (withContext context m).
Proof.
  intros Hm e He. destruct (Hm e He) as (H1 & H2 & H3). unfold withContext, safeOut.
  destruct (result (m e)) eqn:Hr; simpl; rewrite ?Hr; repeat split; auto; discriminate.
Qed.

Lemma safe_setCurrentSheet (I : Exporter -> Prop) name :
  stable I -> safe I I P (setCurrentSheet name).
Proof.
  intros [_ Hs] e He. repeat split; [constructor | discriminate | ].
  intros _ _. now apply Hs.
Qed.

Lemma safe_pull (I : Exporter -> Prop) sheet i src :
  (forall row err, P (mkCall (EvPull i row) err)) -> safe I I P (pull sheet i src).
Proof.
  intros HP e He. unfold pull. destruct (srcPull (RowFunc sheet) i src) as [[row err] s1].
  repeat split; simpl.
  - repeat constructor. apply HP.
  - destruct err; discriminate.
  - intros _ _. exact He.
Qed.

Lemma safe_runHook (I : Exporter -> Prop) sheet :
  stable I -> hookKeepsExporter sheet ->
  (forall current err, P (mkCall (EvInitHook current) err)) ->
  safe I I P (runHook sheet).
Proof.
  intros [Hs _] Hh HP. unfold runHook.
  destruct (InitFunc sheet) as [h | ] eqn:Hi; [ | now apply safe_ret].
  intros e He. unfold callHook. specialize (Hh h e Hi). destruct (h e) as [e' err].
  simpl in Hh. repeat split; simpl.
  - repeat constructor. apply HP.
  - destruct err; discriminate.
  - intros _ _. rewrite Hh. now apply Hs.
Qed.

Lemma safe_newSheet (I : Exporter -> Prop) name :
  stable I -> (forall err, P (mkCall (EvNewSheet name) err)) -> safe I I P (newSheet name).
Proof. intros Hs HP. unfold newSheet. now apply safe_withContext, safe_call. Qed.

Section SafeLoop.

Variable sheet : SheetData.
Variable initFunc : string -> M unit.
Variable writeRowFunc : string -> Z -> Row -> M unit.
Variables T H : Exporter -> Prop.

Hypothesis T_stable : stable T.
Hypothesis H_stable : stable H.
Hypothesis H_T : forall e, H e -> T e.
Hypothesis init_safe : forall s, safe T H P (initFunc s).
Hypothesis write_safe : forall s r row, safe H H P (writeRowFunc s r row).
Hypothesis P_newSheet : forall name err, P (mkCall (EvNewSheet name) err).
Hypothesis P_pull : forall i row err, P (mkCall (EvPull i row) err).
Hypothesis P_init : forall name, P (mkCall (EvInit name) None).
Hypothesis P_write : forall name r row, P (mkCall (EvWriteRow name r row) None).

Lemma safe_callInit : safe T H P (callInit initFunc).
Proof.
  unfold callInit. apply safe_get. intros e He.
  apply safeOut_bind with (J := T); [now apply safe_mark | intros _; apply init_safe].
Qed.

Lemma safe_splitIfFull rowID suf : safe H H P (splitIfFull sheet initFunc rowID suf).
Proof.
  unfold splitIfFull. destruct (rowID >? SheetMaxRows); [ | now apply safe_ret].
  apply safe_bind with (J := H); [now apply safe_newSheet | intros _].
  apply safe_bind with (J := T);
    [apply safe_weaken with (I := T) (J := T); auto; now apply safe_setCurrentSheet
    | intros _].
  apply safe_bind with (J := H); [apply safe_callInit | intros _; now apply safe_ret].
Qed.

Lemma safe_helperLoop (fuel : nat) :
  forall src rowID suf i,
    safe H H P (helperLoop sheet initFunc writeRowFunc fuel src rowID suf i).
Proof.
  induction fuel as [| fuel IH]; intros src rowID suf i; cbn [helperLoop];
    [apply safe_diverge | ].
  apply safe_bind with (J := H); [now apply safe_pull | intros p].
  destruct (Cells (fst p)); [ | now apply safe_ret].
  apply safe_bind with (J := H); [apply safe_splitIfFull | intros q].
  apply safe_get. intros e He.
  apply safeOut_bind with (J := H); [now apply safe_mark | intros _].
  apply safe_bind with (J := H); [apply write_safe | intros _; apply IH].
Qed.

Lemma safe_exportHelper fuel : safe T H P (exportHelper sheet initFunc writeRowFunc fuel).
Proof.
  unfold exportHelper.
  apply safe_bind with (J := T); [now apply safe_setCurrentSheet | intros _].
  apply safe_bind with (J := H); [apply safe_callInit | intros _; apply safe_helperLoop].
Qed.

End SafeLoop.

End Safe.

(** From a run at a state in [I] to the computation run from any such
    state. *)
Ltac from_state I e He :=
  match goal with
  | |- @safeOut ?A ?J ?P (?m e) =>
      let Hm := fresh "Hm" in
      assert (Hm : @safe A I J P m); [ | exact (Hm e He)]
  end.

Lemma buffered_stable : stable buffered.
Proof. split; intros e x He; exact He. Qed.

Lemma streaming_stable : stable streaming.
Proof. split; intros e x He; exact He. Qed.

Lemma holding_stable : stable holding.
Proof. split; intros e x He; exact He. Qed.

(** *** The buffered strategy *)

Lemma safe_memoryWriteCell sheetName rowID j cell :
  safe buffered buffered bufferedCall (memoryWriteCell sheetName rowID j cell).
Proof.
  pose proof buffered_stable as Hs. unfold memoryWriteCell.
  apply safe_bind with (J := buffered); [now apply safe_call | intros _].
  apply safe_bind with (J := buffered).
  - destruct (StyleID cell >? 0); [now apply safe_call | now apply safe_ret].
  - intros _. destruct (String.eqb (Formula cell) ""); [now apply safe_ret | now apply safe_call].
Qed.

Lemma safe_memoryWriteCells sheetName rowID cells :
  forall j, safe buffered buffered bufferedCall (memoryWriteCells sheetName rowID j cells).
Proof.
  induction cells as [| cell rest IH]; intros j; simpl; [now apply safe_ret | ].
  apply safe_bind with (J := buffered); [apply safe_memoryWriteCell | intros _; apply IH].
Qed.

Lemma safe_memoryMerges sheetName merges :
  safe buffered buffered bufferedCall (memoryMerges sheetName merges).
Proof.
  pose proof buffered_stable as Hs.
  induction merges as [| mergeCell rest IH]; simpl; [now apply safe_ret | ].
  apply safe_bind with (J := buffered); [now apply safe_call | intros _; exact IH].
Qed.

Lemma safe_exportUsingMemory fuel sheet :
  hookKeepsExporter sheet ->
  safe buffered buffered bufferedCall (exportUsingMemory fuel sheet).
Proof.
  intros Hh. pose proof buffered_stable as Hs. unfold exportUsingMemory.
  apply safe_exportHelper; auto; try reflexivity.
  - intros s. unfold memoryInitFunc. apply safe_runHook; auto. reflexivity.
  - intros s r row. unfold memoryWriteRowFunc.
    apply safe_bind with (J := buffered);
      [apply safe_memoryWriteCells | intros _; apply safe_memoryMerges].
Qed.

(** *** The streaming strategy *)

Lemma safe_newStreamWriter sheetName :
  streamOrError -> safe streaming holding streamedCall (newStreamWriter sheetName).
Proof.
  intros Hb e He. unfold newStreamWriter. specialize (Hb sheetName (File e)).
  destruct (NewStreamWriter sheetName (File e)) as [[b sw] err]. simpl in Hb.
  split; [ | split]; simpl.
  - repeat constructor.
  - destruct err; discriminate.
  - intros a Hr. split; [exact He | ]. simpl. apply Hb.
    destruct err; [discriminate | reflexivity].
Qed.

Lemma safe_streamInitFunc sheet sheetName :
  streamOrError -> hookKeepsExporter sheet ->
  safe streaming holding streamedCall (streamInitFunc sheet sheetName).
Proof.
  intros Hb Hh. pose proof streaming_stable as Hs. pose proof holding_stable as Hs'.
  unfold streamInitFunc. apply safe_get. intros e He.
  apply safeOut_bind with (J := streaming).
  - assert (Hm : safe streaming streaming streamedCall
                   match StreamWriter e with
                   | Some sw => call (EvFlush sw) (Flush sw)
                   | None => ret tt
                   end).
    { destruct (StreamWriter e); [now apply safe_call | now apply safe_ret]. }
    exact (Hm e He).
  - intros _. apply safe_bind with (J := holding); [now apply safe_newStreamWriter | intros _].
    apply safe_runHook; auto. reflexivity.
Qed.

Lemma safe_streamMerges sw merges :
  safe holding holding streamedCall (streamMerges sw merges).
Proof.
  pose proof holding_stable as Hs.
  induction merges as [| mergeCell rest IH]; simpl; [now apply safe_ret | ].
  apply safe_bind with (J := holding); [now apply safe_call | intros _; exact IH].
Qed.

Lemma safe_streamWriteRowFunc sheetName rowID row :
  safe holding holding streamedCall (streamWriteRowFunc sheetName rowID row).
Proof.
  pose proof holding_stable as Hs. intros e He. unfold streamWriteRowFunc, onStream.
  destruct (StreamWriter e) as [sw | ] eqn:Hsw; [ | now destruct He].
  from_state holding e He.
  apply safe_bind with (J := holding); [now apply safe_call | intros _; apply safe_streamMerges].
Qed.

Lemma safe_finalFlush :
  safe holding holding streamedCall (onStream (fun sw => call (EvFlush sw) (Flush sw))).
Proof.
  pose proof holding_stable as Hs. intros e He. unfold onStream.
  destruct (StreamWriter e) as [sw | ] eqn:Hsw; [ | now destruct He].
  from_state holding e He. now apply safe_call.
Qed.

Lemma safe_exportUsingStreamWriter fuel sheet :
  streamOrError -> hookKeepsExporter sheet ->
  safe streaming holding streamedCall (exportUsingStreamWriter fuel sheet).
Proof.
  intros Hb Hh. unfold exportUsingStreamWriter.
  apply safe_bind with (J := holding); [ | intros _; apply safe_finalFlush].
  apply safe_exportHelper; auto; try reflexivity.
  - apply streaming_stable.
  - apply holding_stable.
  - intros e [He _]. exact He.
  - intros s. now apply safe_streamInitFunc.
  - apply safe_streamWriteRowFunc.
Qed.

(** *** The whole export *)

Lemma safe_deleteDefaultSheet (P : Call -> Prop) (I : Exporter -> Prop) i :
  stable I -> (forall name err, P (mkCall (EvDeleteSheet name) err)) ->
  safe I I P (deleteDefaultSheet i).
Proof.
  intros Hs HP. unfold deleteDefaultSheet. apply safe_get. intros e He.
  from_state I e He.
  destruct ((i =? 0) && (SheetCount (File e) >? 1)).
  - apply safe_withContext, safe_call; auto.
  - now apply safe_ret.
Qed.

Lemma safe_buffered_exportSheets fuel sheets :
  Forall hookKeepsExporter sheets ->
  forall i, safe buffered buffered bufferedCall (exportSheets fuel i sheets).
Proof.
  pose proof buffered_stable as Hs.
  induction 1 as [| sheet rest Hh Hrest IH]; intros i; simpl; [now apply safe_ret | ].
  apply safe_bind with (J := buffered); [ | intros _; apply IH].
  unfold exportOne.
  apply safe_bind with (J := buffered); [now apply safe_newSheet | intros _].
  apply safe_bind with (J := buffered); [now apply safe_deleteDefaultSheet | intros _].
  unfold exportSheet. apply safe_get. intros e He.
  from_state buffered e He.
  unfold buffered in He. rewrite He. now apply safe_exportUsingMemory.
Qed.

Lemma safe_streaming_exportSheets fuel sheets :
  streamOrError -> Forall hookKeepsExporter sheets ->
  forall i, safe streaming streaming streamedCall (exportSheets fuel i sheets).
Proof.
  intros Hb. pose proof streaming_stable as Hs.
  induction 1 as [| sheet rest Hh Hrest IH]; intros i; simpl; [now apply safe_ret | ].
  apply safe_bind with (J := streaming); [ | intros _; apply IH].
  unfold exportOne.
  apply safe_bind with (J := streaming); [now apply safe_newSheet | intros _].
  apply safe_bind with (J := streaming); [now apply safe_deleteDefaultSheet | intros _].
  unfold exportSheet. apply safe_get. intros e He.
  from_state streaming e He.
  unfold streaming in He. rewrite He.
  apply (@safe_weaken streamedCall unit streaming streaming holding streaming); auto.
  - intros e' [He' _]. exact He'.
  - now apply safe_exportUsingStreamWriter.
Qed.

Lemma safe_Export (P : Call -> Prop) (I : Exporter -> Prop) fuel sheets e :
  stable I ->
  (forall name err, P (mkCall (EvSaveAs name) err)) ->
  (forall err, P (mkCall EvClose err)) ->
  safe I I P (exportSheets fuel 0 sheets) ->
  I e ->
  Forall P (trace (Export fuel sheets e)) /\ result (Export fuel sheets e) <> Panic.
Proof.
  intros Hs HS HC Hm He.
  assert (Hb : safe I I P (exportSheets fuel 0 sheets ;; saveAs)).
  { apply safe_bind with (J := I); [exact Hm | intros _].
    unfold saveAs. apply safe_get. intros e' He'. from_state I e' He'. now apply safe_call. }
  destruct (Hb e He) as (H1 & H2 & _). unfold Export.
  destruct (deferClose_run (exportSheets fuel 0 sheets ;; saveAs) e)
    as [-> (closing & -> & Hcl)].
  split; [ | exact H2]. apply Forall_app. split; [exact H1 | ].
  destruct (result ((exportSheets fuel 0 sheets ;; saveAs) e));
    try (destruct Hcl as (err & ->); repeat constructor; apply HC).
  subst closing. constructor.
Qed.

(** X8 (the buffered strategy).  An exporter made for the buffered strategy,
    with hooks that leave its own fields alone, opens no stream and makes no
    call on a stream, whatever the specs and the rows; and [Export] does not
    panic. *)
Theorem buffered_export_uses_no_stream fuel sheets e :
  UseStreamWriter e = false ->
  Forall hookKeepsExporter sheets ->
  Forall bufferedCall (trace (Export fuel sheets e)) /\
  result (Export fuel sheets e) <> Panic.
Proof.
  intros He Hh. apply safe_Export with (I := buffered); auto; try reflexivity.
  - apply buffered_stable.
  - now apply safe_buffered_exportSheets.
Qed.

(** X9 (the streaming strategy).  An exporter made for the streaming
    strategy, with hooks that leave its own fields alone, writes no cell,
    style, formula or merge on the workbook itself: rows go through streams
    only.  And when [NewStreamWriter] returns a stream whenever it returns no
    error, [Export] does not panic: no method is called on a nil stream. *)
Theorem streamed_export_does_not_panic fuel sheets e :
  UseStreamWriter e = true ->
  Forall hookKeepsExporter sheets ->
  streamOrError ->
  Forall streamedCall (trace (Export fuel sheets e)) /\
  result (Export fuel sheets e) <> Panic.
Proof.
  intros He Hh Hb. apply safe_Export with (I := streaming); auto; try reflexivity.
  - apply streaming_stable.
  - now apply safe_streaming_exportSheets.
Qed.

(** ** The cells of a buffered export *)

Section HelperCells.

Variable sheet : SheetData.
Variable initFunc : string -> M unit.
Variable writeRowFunc : string -> Z -> Row -> M unit.
Variable W : string -> Z -> Row -> list Event.

Hypothesis init_setup : forall s, emits setupCall (initFunc s).
Hypothesis write_cells : forall s r row, emits cellCall (writeRowFunc s r row).
Hypothesis write_calls :
  forall s r row e, result (writeRowFunc s r row e) = Ret tt ->
                    events (trace (writeRowFunc s r row e)) = W s r row.

Lemma cellsIn_app (t1 t2 : list Call) : cellsIn (t1 ++ t2) = cellsIn t1 ++ cellsIn t2.
Proof. unfold cellsIn, events. now rewrite map_app, filter_app. Qed.

Lemma rowCalls_app (l1 l2 : list Event) : rowCalls W (l1 ++ l2) = rowCalls W l1 ++ rowCalls W l2.
Proof. apply flat_map_app. Qed.

Lemma rowCallsIn_app (t1 t2 : list Call) :
  rowCalls W (events (t1 ++ t2)) = rowCalls W (events t1) ++ rowCalls W (events t2).
Proof. unfold events. now rewrite map_app, rowCalls_app. Qed.

Lemma setup_trace (tr : list Call) :
  Forall setupCall tr -> cellsIn tr = [] /\ rowCalls W (events tr) = [].
Proof.
  induction 1 as [| c tr [Hc Hw] _ [IH1 IH2]]; [split; reflexivity | ].
  unfold cellsIn, events in *. cbn [map filter rowCalls flat_map]. rewrite Hc.
  fold (rowCalls W (map what tr)). rewrite IH1, IH2.
  destruct (what c); try discriminate; split; reflexivity.
Qed.

Lemma cells_trace (tr : list Call) :
  Forall cellCall tr -> cellsIn tr = events tr /\ rowCalls W (events tr) = [].
Proof.
  induction 1 as [| c tr Hc _ [IH1 IH2]]; [split; reflexivity | ].
  unfold cellCall, cellsIn, events in *. cbn [map filter rowCalls flat_map]. rewrite Hc.
  fold (rowCalls W (map what tr)). rewrite IH1, IH2.
  destruct (what c); try discriminate; split; reflexivity.
Qed.

Lemma callInit_setup : emits setupCall (callInit initFunc).
Proof.
  unfold callInit. apply emits_bind; [apply emits_get | intros e0].
  apply emits_bind; [apply emits_mark; split; reflexivity | intros _; apply init_setup].
Qed.

Lemma splitIfFull_setup rowID suf : emits setupCall (splitIfFull sheet initFunc rowID suf).
Proof.
  unfold splitIfFull. destruct (rowID >? SheetMaxRows); [ | apply emits_ret].
  apply emits_bind; [apply emits_withContext, emits_call; split; reflexivity | intros _].
  apply emits_bind; [apply emits_setCurrentSheet | intros _].
  apply emits_bind; [apply callInit_setup | intros _; apply emits_ret].
Qed.

Lemma pull_setup i src : emits setupCall (pull sheet i src).
Proof.
  intros e. unfold pull. destruct (srcPull (RowFunc sheet) i src) as [[row err] s1].
  repeat constructor.
Qed.

(** The calls on cells of the loop are the calls of its row writes, each
    after the mark of its write. *)
Lemma helperLoop_cells (fuel : nat) :
  forall src rowID suf i e,
    result (helperLoop sheet initFunc writeRowFunc fuel src rowID suf i e) = Ret tt ->
    cellsIn (trace (helperLoop sheet initFunc writeRowFunc fuel src rowID suf i e)) =
      rowCalls W (events (trace (helperLoop sheet initFunc writeRowFunc fuel src rowID suf i e))).
Proof.
  induction fuel as [| fuel IH]; intros src rowID suf i e Hr; [discriminate | ].
  cbn [helperLoop] in Hr |- *.
  apply bind_Ret_inv in Hr. destruct Hr as (p & H0 & Hr & T0 & F0).
  rewrite T0, cellsIn_app, rowCallsIn_app.
  destruct (setup_trace (pull_setup i src e)) as [-> ->]. cbn [app].
  destruct (Cells (fst p)); [ | reflexivity].
  apply bind_Ret_inv in Hr. destruct Hr as (q & H1 & Hr & T1 & F1).
  apply bind_Ret_inv in Hr. destruct Hr as (e0 & H2 & Hr & T2 & F2).
  apply bind_Ret_inv in Hr. destruct Hr as ([] & H3 & Hr & T3 & F3).
  apply bind_Ret_inv in Hr. destruct Hr as ([] & H4 & Hr & T4 & F4).
  rewrite T1, T2, T3, T4. rewrite !cellsIn_app, !rowCallsIn_app.
  destruct (setup_trace (splitIfFull_setup rowID suf (final (pull sheet i src e)))) as [-> ->].
  match goal with
  | |- context [trace (writeRowFunc ?s ?r ?row ?e1)] =>
      destruct (cells_trace (write_cells s r row e1)) as [Hc1 Hc2];
      rewrite Hc1, Hc2, (write_calls s r row e1 H4)
  end.
  rewrite (IH _ _ _ _ _ Hr).
  simpl. now rewrite app_nil_r.
Qed.

Lemma exportHelper_cells fuel e :
  result (exportHelper sheet initFunc writeRowFunc fuel e) = Ret tt ->
  cellsIn (trace (exportHelper sheet initFunc writeRowFunc fuel e)) =
    rowCalls W (events (trace (exportHelper sheet initFunc writeRowFunc fuel e))).
Proof.
  intros Hr. unfold exportHelper in Hr |- *.
  apply bind_Ret_inv in Hr. destruct Hr as ([] & H1 & Hr & T1 & F1).
  apply bind_Ret_inv in Hr. destruct Hr as ([] & H2 & Hr & T2 & F2).
  rewrite T1, T2, !cellsIn_app, !rowCallsIn_app.
  destruct (setup_trace (callInit_setup (final (setCurrentSheet (Name sheet) e)))) as [-> ->].
  rewrite (helperLoop_cells _ _ _ _ _ _ Hr). reflexivity.
Qed.

Lemma rowCalls_writes (evs : list Event) : rowCalls W evs = rowCalls W (filter isWrite evs).
Proof.
  induction evs as [| ev evs IH]; [reflexivity | ].
  destruct ev; cbn [rowCalls flat_map filter isWrite app]; fold (rowCalls W evs);
    try exact IH.
  fold (rowCalls W (filter isWrite evs)). now rewrite IH.
Qed.

Lemma rowCalls_placed name (rows : list Row) :
  rowCalls W (placed name rows) =
    flat_map (fun p => W (physicalSheet name (fst p / SheetMaxRows))
                         (fst p mod SheetMaxRows + 1) (snd p))
             (indexedFrom 0 rows).
Proof.
  unfold placed. induction (indexedFrom 0 rows) as [| p l IH]; [reflexivity | ].
  cbn [map rowCalls flat_map placeOf]. fold (rowCalls W (map (fun p => placeOf name (fst p) (snd p)) l)).
  now rewrite IH.
Qed.

End HelperCells.

Lemma runHook_setup sheet : emits setupCall (runHook sheet).
Proof.
  unfold runHook. destruct (InitFunc sheet); [ | apply emits_ret].
  apply emits_callHook. intros. split; reflexivity.
Qed.

Lemma memoryWriteRowFunc_calls sheetName rowID row e :
  result (memoryWriteRowFunc sheetName rowID row e) = Ret tt ->
  events (trace (memoryWriteRowFunc sheetName rowID row e)) = rowEvents sheetName rowID row.
Proof.
  assert (H : makes (rowEvents sheetName rowID row) (memoryWriteRowFunc sheetName rowID row e)).
  { unfold memoryWriteRowFunc, rowEvents.
    apply makes_bind; [apply memoryWriteCells_makes | intros e'; apply memoryMerges_makes]. }
  apply H.
Qed.

Lemma exportOne_cells fuel i sheet e :
  result (exportOne fuel i sheet e) = Ret tt ->
  UseStreamWriter e = false ->
  cellsIn (trace (exportOne fuel i sheet e)) =
    rowCalls rowEvents (events (trace (exportOne fuel i sheet e))).
Proof.
  intros Hr He. unfold exportOne in Hr |- *.
  apply bind_Ret_inv in Hr. destruct Hr as ([] & H1 & Hr & T1 & F1).
  apply bind_Ret_inv in Hr. destruct Hr as ([] & H2 & Hr & T2 & F2).
  rewrite T1, T2, !cellsIn_app, !rowCallsIn_app.
  assert (Hn : emits setupCall (newSheet (Name sheet))).
  { apply emits_withContext, emits_call. split; reflexivity. }
  assert (Hd : emits setupCall (deleteDefaultSheet i)).
  { unfold deleteDefaultSheet. apply emits_bind; [apply emits_get | intros e0].
    destruct ((i =? 0) && (SheetCount (File e0) >? 1)); [ | apply emits_ret].
    apply emits_withContext, emits_call. split; reflexivity. }
  destruct (setup_trace rowEvents (Hn e)) as [-> ->].
  destruct (setup_trace rowEvents (Hd (final (newSheet (Name sheet) e)))) as [-> ->].
  cbn [app].
  assert (Hmode : UseStreamWriter (final (deleteDefaultSheet i (final (newSheet (Name sheet) e))))
                  = false).
  { rewrite (kept_deleteDefaultSheet UseStreamWriter_fileFree).
    rewrite (kept_newSheet UseStreamWriter_fileFree). exact He. }
  unfold exportSheet in Hr |- *. rewrite bind_get in Hr |- *. rewrite Hmode in Hr |- *.
  unfold exportUsingMemory in Hr |- *.
  apply exportHelper_cells; auto.
  - intros s. apply runHook_setup.
  - apply memoryWriteRowFunc_cells.
  - apply memoryWriteRowFunc_calls.
Qed.

(** X10 (the cells of a buffered export).  When the buffered export of a spec
    returns nil, its calls on cells are, row after row in the order the
    source fed them, the calls of the buffered write of the row (value, style
    and formula of each cell, then the merges), made for the row of index [k]
    at row [k mod SheetMaxRows + 1] of the physical sheet number
    [k / SheetMaxRows] of the spec; and no other call touches a cell. *)
Theorem buffered_cells_of_a_spec fuel i sheet rows e :
  UseStreamWriter e = false ->
  hookKeepsExporter sheet ->
  Feeds (RowFunc sheet) rows ->
  Z.of_nat (List.length rows) < 2 ^ 63 ->
  result (exportOne fuel i sheet e) = Ret tt ->
  cellsIn (trace (exportOne fuel i sheet e)) =
    flat_map (fun p => rowEvents (physicalSheet (Name sheet) (fst p / SheetMaxRows))
                                 (fst p mod SheetMaxRows + 1) (snd p))
             (indexedFrom 0 rows).
Proof.
  intros He Hh Hf Hlen Hr.
  rewrite (exportOne_cells _ _ _ _ Hr He), rowCalls_writes, filter_isWrite_layout.
  rewrite (@exportOne_layout fuel i sheet rows e Hh Hf Hr).
  cbn [filter isWrite]. rewrite (@sheetLayout_writes sheet rows Hlen).
  apply rowCalls_placed.
Qed.

(** ** The specs, one after the other *)

Lemma events_app (t1 t2 : list Call) : events (t1 ++ t2) = events t1 ++ events t2.
Proof. apply map_app. Qed.

Lemma sheetsOf_app (t1 t2 : list Call) : sheetsOf (t1 ++ t2) = sheetsOf t1 ++ sheetsOf t2.
Proof. unfold sheetsOf. now rewrite events_app, createdIn_app. Qed.

Lemma exportSheets_placed fuel sheets rowss :
  Forall2 fed sheets rowss ->
  Forall hookKeepsExporter sheets ->
  forall i e,
    result (exportSheets fuel i sheets e) = Ret tt ->
    filter isWrite (events (trace (exportSheets fuel i sheets e))) =
      flat_map (fun sr => placed (Name (fst sr)) (snd sr)) (combine sheets rowss) /\
    sheetsOf (trace (exportSheets fuel i sheets e)) =
      flat_map (fun sr => physicalSheetsFor (Name (fst sr)) (snd sr)) (combine sheets rowss).
Proof.
  induction 1 as [| sheet rows sheets rowss [Hf Hlen] Hrest IH]; intros Hh i e Hr;
    [split; reflexivity | ].
  apply Forall_cons_iff in Hh as [Hh Hhs].
  cbn [exportSheets] in Hr |- *.
  apply bind_Ret_inv in Hr. destruct Hr as ([] & H1 & Hr & T1 & F1).
  rewrite T1, events_app, filter_app, sheetsOf_app.
  destruct (IH Hhs _ _ Hr) as [IH1 IH2]. rewrite IH1, IH2.
  rewrite filter_isWrite_layout, createdIn_layout.
  rewrite (@exportOne_layout fuel i sheet rows e Hh Hf H1), createdIn_cons.
  cbn [filter isWrite]. rewrite (@sheetLayout_writes sheet rows Hlen), (@sheetLayout_sheets sheet rows Hlen).
  split; reflexivity.
Qed.

(** X11 (the specs, one after the other).  When [Export] returns nil, the
    specs were exported in the order of the list, each from its own source
    and each from row 1 of its own sheet on: the rows written are those of the
    first spec, placed by their index on its physical sheets, then those of
    the second, and so on; and the sheets created are the physical sheets of
    the first spec, then those of the second, and so on. *)
Theorem specs_are_exported_in_order fuel sheets rowss e :
  Forall hookKeepsExporter sheets ->
  Forall2 fed sheets rowss ->
  result (Export fuel sheets e) = Ret tt ->
  filter isWrite (events (trace (Export fuel sheets e))) =
    flat_map (fun sr => placed (Name (fst sr)) (snd sr)) (combine sheets rowss) /\
  sheetsOf (trace (Export fuel sheets e)) =
    flat_map (fun sr => physicalSheetsFor (Name (fst sr)) (snd sr)) (combine sheets rowss).
Proof.
  intros Hh Hfed Hr. unfold Export in *.
  destruct (deferClose_run (exportSheets fuel 0 sheets ;; saveAs) e)
    as [Hres (closing & Ht & Hcl)].
  rewrite Hres in Hr. rewrite Hr in Hcl. destruct Hcl as (errC & ->). rewrite Ht.
  apply bind_Ret_inv in Hr. destruct Hr as ([] & H1 & Hr & T1 & F1). rewrite T1.
  destruct (@exportSheets_placed fuel sheets rowss Hfed Hh 0 e H1) as [P1 P2].
  assert (Hs : exists errS, trace (saveAs (final (exportSheets fuel 0 sheets e))) =
                            [mkCall (EvSaveAs (FileName (final (exportSheets fuel 0 sheets e)))) errS]).
  { unfold saveAs. rewrite bind_get. unfold call.
    destruct (SaveAs _ _) as [b errS]. now exists errS. }
  destruct Hs as (errS & ->).
  rewrite !events_app, !filter_app, !sheetsOf_app, P1, P2. simpl.
  now rewrite !app_nil_r.
Qed.

(** ** The stream of every row *)

Lemma opened_app g t1 t2 : opened g (t1 ++ t2) = opened (opened g t1) t2.
Proof. revert g. induction t1 as [| c t1 IH]; intros g; simpl; auto. Qed.

Lemma allInPlace_app g t1 t2 :
  allInPlace g (t1 ++ t2) <-> allInPlace g t1 /\ allInPlace (opened g t1) t2.
Proof.
  revert g. induction t1 as [| c t1 IH]; intros g; simpl; [tauto | ].
  rewrite IH. tauto.
Qed.

Lemma places_ret {A} (I J : streamInUse -> Exporter -> Prop) (a : A) :
  (forall g e, I g e -> J g e) -> places I J (ret a).
Proof. intros HIJ e g He. split; [exact Logic.I | intros _ _; now apply HIJ]. Qed.

Lemma places_diverge {A} (I J : streamInUse -> Exporter -> Prop) : places I J (@diverge A).
Proof. intros e g He. split; [exact Logic.I | discriminate]. Qed.

Lemma places_panic {A} (I J : streamInUse -> Exporter -> Prop) : places I J (@panic A).
Proof. intros e g He. split; [exact Logic.I | discriminate]. Qed.

Lemma places_weaken {A} (I I' J J' : streamInUse -> Exporter -> Prop) (m : M A) :
  (forall g e, I' g e -> I g e) -> (forall g e, J g e -> J' g e) ->
  places I J m -> places I' J' m.
Proof.
  intros HI HJ Hm e g He. destruct (Hm e g (HI g e He)) as (H1 & H2).
  split; [exact H1 | ]. intros a Ha. eauto.
Qed.

Lemma placesOut_bind {A C} (J K : streamInUse -> Exporter -> Prop) (m : M A) (k : A -> M C)
    (e : Exporter) (g : streamInUse) :
  placesOut J g (m e) -> (forall a, places J K (k a)) -> placesOut K g (bind m k e).
Proof.
  intros (H1 & H2) Hk. unfold bind, placesOut.
  destruct (result (m e)) as [a | x | | ] eqn:Hr; simpl;
    try (split; [assumption | discriminate]).
  destruct (Hk a (final (m e)) _ (H2 a eq_refl)) as (K1 & K2).
  rewrite opened_app. split; [apply allInPlace_app; split; assumption | assumption].
Qed.

Lemma places_bind {A C} (I J K : streamInUse -> Exporter -> Prop) (m : M A) (k : A -> M C) :
  places I J m -> (forall a, places J K (k a)) -> places I K (bind m k).
Proof. intros Hm Hk e g He. apply placesOut_bind with (J := J); auto. Qed.

Lemma places_get {A} (I K : streamInUse -> Exporter -> Prop) (k : Exporter -> M A) :
  (forall e g, I g e -> placesOut K g (k e e)) -> places I K (bind get k).
Proof. intros Hk e g He. rewrite bind_get. now apply Hk. Qed.

Lemma places_single {A} (I : streamInUse -> Exporter -> Prop) (g : streamInUse)
    (e' : Exporter) (ev : Event) (err : option error) (r : res A) :
  inPlace g (mkCall ev err) -> opens g (mkCall ev err) = g -> I g e' ->
  placesOut I g (mkOut e' [mkCall ev err] r).
Proof.
  intros Hin Hop He. split; simpl; [split; [exact Hin | exact Logic.I] | ].
  intros _ _. now rewrite Hop.
Qed.

Lemma places_call (I : streamInUse -> Exporter -> Prop) ev op :
  steady I ->
  (forall g e err, I g e -> inPlace g (mkCall ev err)) ->
  (forall g err, opens g (mkCall ev err) = g) ->
  places I I (call ev op).
Proof.
  intros Hs Hin Hop e g He. unfold call. destruct (op (File e)) as [b err].
  apply places_single; eauto.
Qed.

Lemma places_withContext {A} (I J : streamInUse -> Exporter -> Prop) context (m : M A) :
  places I J m -> places I J (withContext context m).
Proof.
  intros Hm e g He. destruct (Hm e g He) as (H1 & H2). unfold withContext, placesOut.
  destruct (result (m e)) eqn:Hr; simpl; rewrite ?Hr; split; auto; discriminate.
Qed.

Lemma places_pull (I : streamInUse -> Exporter -> Prop) sheet i src :
  places I I (pull sheet i src).
Proof.
  intros e g He. unfold pull. destruct (srcPull (RowFunc sheet) i src) as [[row err] s1].
  apply places_single; auto. exact Logic.I.
Qed.

Lemma places_runHook sheet :
  hookKeepsExporter sheet -> places onCurrent onCurrent (runHook sheet).
Proof.
  intros Hh. unfold runHook.
  destruct (InitFunc sheet) as [h | ] eqn:Hi; [ | now apply places_ret].
  intros e g He. unfold callHook. specialize (Hh h e Hi). destruct (h e) as [e' err].
  simpl in Hh. apply places_single; [ | reflexivity | ].
  - unfold inPlace. simpl. now destruct He.
  - rewrite Hh. exact He.
Qed.

Lemma places_newSheet (I : streamInUse -> Exporter -> Prop) name :
  steady I -> places I I (newSheet name).
Proof.
  intros Hs. unfold newSheet. apply places_withContext, places_call; auto.
  intros. exact Logic.I.
Qed.

Lemma inStep_steady : steady inStep.
Proof. intros g e b He. exact He. Qed.

Lemma onCurrent_steady : steady onCurrent.
Proof. intros g e b He. exact He. Qed.

Lemma places_setCurrentSheet name : places inStep (inStepAt name) (setCurrentSheet name).
Proof.
  intros e g [He1 He2]. split; [exact Logic.I | ]. intros _ _. simpl. repeat split; assumption.
Qed.

Lemma places_newStreamWriter s : places (inStepAt s) onCurrent (newStreamWriter s).
Proof.
  intros e g [[He1 He2] He3]. unfold newStreamWriter.
  destruct (NewStreamWriter s (File e)) as [[b sw] err].
  split; simpl; [split; exact Logic.I | ]. intros _ _. unfold opens. simpl.
  repeat split; simpl; auto. now rewrite He3.
Qed.

Lemma places_streamInitFunc sheet s :
  hookKeepsExporter sheet -> places (inStepAt s) onCurrent (streamInitFunc sheet s).
Proof.
  intros Hh. unfold streamInitFunc. apply places_get. intros e g He.
  apply placesOut_bind with (J := inStepAt s).
  - destruct (StreamWriter e) as [sw | ] eqn:Hsw.
    + assert (Hm : places (fun g e => inStepAt s g e /\ StreamWriter e = Some sw) (inStepAt s)
                     (call (EvFlush sw) (Flush sw))).
      { apply places_weaken with (I := fun g e => inStepAt s g e /\ StreamWriter e = Some sw)
                                 (J := fun g e => inStepAt s g e /\ StreamWriter e = Some sw).
        - auto.
        - intros g0 e0 [H0 _]. exact H0.
        - apply places_call.
          + intros g0 e0 b H0. exact H0.
          + intros g0 e0 err [[[_ H1] _] H2]. unfold inPlace. simpl. now rewrite <- H1.
          + reflexivity. }
      apply Hm. split; assumption.
    + now apply (@places_ret unit (inStepAt s) (inStepAt s) tt).
  - intros _. apply places_bind with (J := onCurrent); [apply places_newStreamWriter | intros _].
    now apply places_runHook.
Qed.

Lemma onHeld_steady sw : steady (onHeld sw).
Proof. intros g e b He. exact He. Qed.

Lemma onHeld_inPlace sw g e : onHeld sw g e -> fst g = Some sw.
Proof. intros [[[_ H1] _] H2]. now rewrite <- H1. Qed.

Lemma places_streamMerges sw merges :
  places (onHeld sw) (onHeld sw) (streamMerges sw merges).
Proof.
  induction merges as [| mergeCell rest IH]; simpl; [now apply places_ret | ].
  apply places_bind with (J := onHeld sw); [ | intros _; exact IH].
  apply places_call; [apply onHeld_steady | | reflexivity].
  intros g e err He. unfold inPlace. simpl. now apply onHeld_inPlace with (e := e).
Qed.

Lemma places_onHeld {A} (k : SW -> M A) :
  (forall sw, places (onHeld sw) (onHeld sw) (k sw)) ->
  places onCurrent onCurrent (onStream k).
Proof.
  intros Hk e g He. unfold onStream. destruct (StreamWriter e) as [sw | ] eqn:Hsw.
  - destruct (Hk sw e g (conj He Hsw)) as (H1 & H2). split; [exact H1 | ].
    intros a Ha. now destruct (H2 a Ha).
  - now apply places_panic with (I := onCurrent).
Qed.

Lemma places_streamWriteRowFunc sheetName rowID row :
  places onCurrent onCurrent (streamWriteRowFunc sheetName rowID row).
Proof.
  unfold streamWriteRowFunc. apply places_onHeld. intros sw.
  apply places_bind with (J := onHeld sw); [ | intros _; apply places_streamMerges].
  apply places_call; [apply onHeld_steady | | reflexivity].
  intros g e err He. unfold inPlace. simpl. now apply onHeld_inPlace with (e := e).
Qed.

Lemma places_finalFlush :
  places onCurrent onCurrent (onStream (fun sw => call (EvFlush sw) (Flush sw))).
Proof.
  apply places_onHeld. intros sw.
  apply places_call; [apply onHeld_steady | | reflexivity].
  intros g e err He. unfold inPlace. simpl. now apply onHeld_inPlace with (e := e).
Qed.

Section StreamPlaces.

Variable sheet : SheetData.
Hypothesis hook_keeps : hookKeepsExporter sheet.

Lemma places_callInit : places inStep onCurrent (callInit (streamInitFunc sheet)).
Proof.
  unfold callInit. apply places_get. intros e g He.
  apply placesOut_bind with (J := inStepAt (CurrentSheet e)).
  - apply places_single; [exact Logic.I | reflexivity | split; [exact He | reflexivity]].
  - intros _. now apply places_streamInitFunc.
Qed.

Lemma onCurrent_inStep g e : onCurrent g e -> inStep g e.
Proof. now intros [H _]. Qed.

Lemma places_splitIfFull rowID suf :
  places onCurrent onCurrent (splitIfFull sheet (streamInitFunc sheet) rowID suf).
Proof.
  unfold splitIfFull. destruct (rowID >? SheetMaxRows); [ | now apply places_ret].
  apply places_bind with (J := onCurrent);
    [apply places_newSheet, onCurrent_steady | intros _].
  apply places_bind with (J := inStep).
  - apply places_weaken with (I := inStep) (J := inStepAt (Sprintf_s_d (Name sheet) (incr suf))).
    + apply onCurrent_inStep.
    + now intros g e [H _].
    + apply places_setCurrentSheet.
  - intros _. apply places_bind with (J := onCurrent); [apply places_callInit | intros _].
    now apply places_ret.
Qed.

Lemma places_helperLoop (fuel : nat) :
  forall src rowID suf i,
    places onCurrent onCurrent
      (helperLoop sheet (streamInitFunc sheet) streamWriteRowFunc fuel src rowID suf i).
Proof.
  induction fuel as [| fuel IH]; intros src rowID suf i; cbn [helperLoop];
    [apply places_diverge | ].
  apply places_bind with (J := onCurrent); [apply places_pull | intros p].
  destruct (Cells (fst p)); [ | now apply places_ret].
  apply places_bind with (J := onCurrent); [apply places_splitIfFull | intros q].
  apply places_get. intros e g He.
  apply placesOut_bind with (J := onCurrent).
  - apply places_single; [ | reflexivity | exact He]. unfold inPlace. simpl. now destruct He.
  - intros _. apply places_bind with (J := onCurrent);
      [apply places_streamWriteRowFunc | intros _; apply IH].
Qed.

Lemma places_exportUsingStreamWriter fuel :
  places inStep inStep (exportUsingStreamWriter fuel sheet).
Proof.
  unfold exportUsingStreamWriter.
  apply places_weaken with (I := inStep) (J := onCurrent);
    [auto | apply onCurrent_inStep | ].
  apply places_bind with (J := onCurrent); [ | intros _; apply places_finalFlush].
  unfold exportHelper.
  apply places_bind with (J := inStep).
  - apply places_weaken with (I := inStep) (J := inStepAt (Name sheet));
      [auto | now intros g e [H _] | apply places_setCurrentSheet].
  - intros _. apply places_bind with (J := onCurrent);
      [apply places_callInit | intros _; apply places_helperLoop].
Qed.

Lemma places_exportOne fuel i : places inStep inStep (exportOne fuel i sheet).
Proof.
  unfold exportOne.
  apply places_bind with (J := inStep); [apply places_newSheet, inStep_steady | intros _].
  apply places_bind with (J := inStep).
  - unfold deleteDefaultSheet. apply places_get. intros e g He.
    destruct ((i =? 0) && (SheetCount (File e) >? 1)).
    + assert (Hm : places inStep inStep
                     (withContext "failed to delete default sheet: "
                        (call (EvDeleteSheet "Sheet1") (DeleteSheet "Sheet1")))).
      { apply places_withContext, places_call; [apply inStep_steady | | reflexivity].
        intros. exact Logic.I. }
      now apply Hm.
    + now apply (@places_ret unit inStep inStep tt).
  - intros _. unfold exportSheet. apply places_get. intros e g He.
    destruct He as [He1 He2]. rewrite He1.
    apply places_exportUsingStreamWriter. split; assumption.
Qed.

End StreamPlaces.

Lemma places_exportSheets fuel sheets :
  Forall hookKeepsExporter sheets ->
  forall i, places inStep inStep (exportSheets fuel i sheets).
Proof.
  induction 1 as [| sheet rest Hh Hrest IH]; intros i; simpl; [now apply places_ret | ].
  apply places_bind with (J := inStep); [now apply places_exportOne | intros _; apply IH].
Qed.

Lemma allInPlace_at g (pre post : list Call) (c : Call) :
  allInPlace g (pre ++ c :: post) -> inPlace (opened g pre) c.
Proof. intros H. apply allInPlace_app in H as [_ H]. now destruct H. Qed.

(** X12 (the stream of every row).  In the calls of an exporter made for the
    streaming strategy, with hooks that leave its own fields alone: every
    [SetRow], every [MergeCell] of a stream and every [Flush] is made on the
    stream that the last [NewStreamWriter] before it returned (on the stream
    the exporter came with, before the first); whenever the loop writes a
    row on a sheet, by its count of rows and sheets, the last
    [NewStreamWriter] before it was called for that very sheet; and so it was
    whenever the hook runs, for the sheet that is then the current one.  So
    the rows reach the sheets they are counted on, and the hook finds the
    stream of its sheet open. *)
Theorem streamed_rows_reach_their_sheet fuel sheets e pre c post :
  UseStreamWriter e = true ->
  Forall hookKeepsExporter sheets ->
  trace (Export fuel sheets e) = pre ++ c :: post ->
  inPlace (opened (StreamWriter e, None) pre) c.
Proof.
  intros He Hh Ht. apply allInPlace_at with (post := post). rewrite <- Ht. clear Ht.
  assert (Hb : places inStep inStep (exportSheets fuel 0 sheets ;; saveAs)).
  { apply places_bind with (J := inStep); [now apply places_exportSheets | intros _].
    unfold saveAs. apply places_get. intros e' g' He'.
    assert (Hm : places inStep inStep (call (EvSaveAs (FileName e')) (SaveAs (FileName e')))).
    { apply places_call; [apply inStep_steady | | reflexivity]. intros. exact Logic.I. }
    now apply Hm. }
  destruct (Hb e (StreamWriter e, None)) as (H1 & _); [split; [exact He | reflexivity] | ].
  unfold Export.
  destruct (deferClose_run (exportSheets fuel 0 sheets ;; saveAs) e)
    as [_ (closing & -> & Hcl)].
  apply allInPlace_app. split; [exact H1 | ].
  destruct (result ((exportSheets fuel 0 sheets ;; saveAs) e));
    try (destruct Hcl as (err & ->); split; exact Logic.I).
  subst closing. exact Logic.I.
Qed.

(** ** The flush at the end of a spec and at the start of the next *)

Lemma bind_Ret_run {A C} (m : M A) (k : A -> M C) (e : Exporter) (a : A) :
  result (m e) = Ret a -> bind m k e = before (trace (m e)) (k a (final (m e))).
Proof. intros H. unfold bind. now rewrite H. Qed.

Lemma exportSheets_Ret_app fuel (l1 l2 : list SheetData) :
  forall i e,
    result (exportSheets fuel i (l1 ++ l2) e) = Ret tt ->
    result (exportSheets fuel i l1 e) = Ret tt /\
    result (exportSheets fuel (i + Z.of_nat (List.length l1)) l2
              (final (exportSheets fuel i l1 e))) = Ret tt /\
    trace (exportSheets fuel i (l1 ++ l2) e) =
      trace (exportSheets fuel i l1 e) ++
      trace (exportSheets fuel (i + Z.of_nat (List.length l1)) l2
               (final (exportSheets fuel i l1 e))).
Proof.
  induction l1 as [| s l1 IH]; intros i e Hr.
  - simpl. rewrite Z.add_0_r. auto.
  - cbn [app exportSheets] in Hr |- *.
    apply bind_Ret_inv in Hr. destruct Hr as ([] & H1 & Hr & T1 & F1).
    destruct (IH _ _ Hr) as (Ha & Hb & Hc).
    rewrite T1, Hc.
    rewrite (@bind_Ret_run _ _ (exportOne fuel i s) (fun _ => exportSheets fuel (i + 1) l1)
               e tt H1).
    simpl.
    replace (i + Z.pos (Pos.of_succ_nat (List.length l1)))
      with (i + 1 + Z.of_nat (List.length l1)) by lia.
    rewrite app_assoc. auto.
Qed.

Lemma exportOne_mode fuel i sheet :
  hookKeepsExporter sheet -> keeps UseStreamWriter (exportOne fuel i sheet).
Proof.
  intros Hh. apply kept_exportOne; try assumption.
  - apply UseStreamWriter_fileFree.
  - intros name e. reflexivity.
  - intros name e. unfold newStreamWriter.
    destruct (NewStreamWriter name (File e)) as [[b sw] err]. reflexivity.
Qed.

Lemma exportSheets_mode fuel sheets i :
  Forall hookKeepsExporter sheets -> keeps UseStreamWriter (exportSheets fuel i sheets).
Proof.
  intros Hh. apply kept_exportSheets; try assumption.
  - apply UseStreamWriter_fileFree.
  - intros name e. reflexivity.
  - intros name e. unfold newStreamWriter.
    destruct (NewStreamWriter name (File e)) as [[b sw] err]. reflexivity.
Qed.

(** A streamed spec that returns nil ends with the flush of the stream it
    leaves in the exporter. *)
Lemma streamed_spec_end fuel i sheet e :
  UseStreamWriter e = true ->
  result (exportOne fuel i sheet e) = Ret tt ->
  exists sw pre,
    trace (exportOne fuel i sheet e) = pre ++ [mkCall (EvFlush sw) None] /\
    StreamWriter (final (exportOne fuel i sheet e)) = Some sw.
Proof.
  intros He Hr. unfold exportOne in Hr |- *.
  apply bind_Ret_inv in Hr. destruct Hr as ([] & H1 & Hr & T1 & F1).
  apply bind_Ret_inv in Hr. destruct Hr as ([] & H2 & Hr & T2 & F2).
  rewrite T1, T2, F1, F2.
  assert (Hmode : UseStreamWriter (final (deleteDefaultSheet i (final (newSheet (Name sheet) e))))
                  = true).
  { rewrite (kept_deleteDefaultSheet UseStreamWriter_fileFree).
    rewrite (kept_newSheet UseStreamWriter_fileFree). exact He. }
  unfold exportSheet in Hr |- *. rewrite bind_get in Hr |- *. rewrite Hmode in Hr |- *.
  unfold exportUsingStreamWriter in Hr |- *.
  apply bind_Ret_inv in Hr. destruct Hr as ([] & H3 & Hr & T3 & F3).
  rewrite T3, F3.
  set (e3 := final (exportHelper sheet (streamInitFunc sheet) streamWriteRowFunc fuel _)) in *.
  unfold onStream in Hr |- *. destruct (StreamWriter e3) as [sw | ] eqn:Hsw; [ | discriminate].
  unfold call in Hr |- *. destruct (Flush sw (File e3)) as [b [x | ]]; [discriminate | ].
  simpl. exists sw. eexists. split; [rewrite !app_assoc; reflexivity | exact Hsw].
Qed.

(** A streamed spec that is not the first and returns nil, run by an
    exporter that holds a stream, starts with the creation of its sheet, the
    call of its init closure and the flush of that stream. *)
Lemma streamed_spec_start fuel i sheet e sw :
  UseStreamWriter e = true ->
  StreamWriter e = Some sw ->
  i <> 0 ->
  result (exportOne fuel i sheet e) = Ret tt ->
  exists post,
    trace (exportOne fuel i sheet e) =
      [mkCall (EvNewSheet (Name sheet)) None; mkCall (EvInit (Name sheet)) None;
       mkCall (EvFlush sw) None] ++ post.
Proof.
  intros He Hsw Hi Hr. unfold exportOne in Hr |- *.
  apply bind_Ret_inv in Hr. destruct Hr as ([] & H1 & Hr & T1 & F1).
  apply bind_Ret_inv in Hr. destruct Hr as ([] & H2 & Hr & T2 & F2).
  rewrite T1, T2.
  destruct (newSheet_run (Name sheet) e) as (Hn & _ & Hnr).
  destruct (snd (NewSheet (Name sheet) (File e))) as [x | ];
    [rewrite Hnr in H1; discriminate | ].
  rewrite Hn.
  assert (Hd : trace (deleteDefaultSheet i (final (newSheet (Name sheet) e))) = []).
  { unfold deleteDefaultSheet. rewrite bind_get.
    replace (i =? 0) with false by (symmetry; now apply Z.eqb_neq). reflexivity. }
  rewrite Hd.
  set (e2 := final (deleteDefaultSheet i (final (newSheet (Name sheet) e)))) in *.
  assert (Hmode : UseStreamWriter e2 = true).
  { unfold e2. rewrite (kept_deleteDefaultSheet UseStreamWriter_fileFree).
    rewrite (kept_newSheet UseStreamWriter_fileFree). exact He. }
  assert (Hheld : StreamWriter e2 = Some sw).
  { unfold e2. rewrite (kept_deleteDefaultSheet StreamWriter_fileFree).
    rewrite (kept_newSheet StreamWriter_fileFree). exact Hsw. }
  unfold exportSheet in Hr |- *. rewrite bind_get in Hr |- *. rewrite Hmode in Hr |- *.
  unfold exportUsingStreamWriter in Hr |- *.
  apply bind_Ret_inv in Hr. destruct Hr as ([] & H3 & _ & T3 & _). rewrite T3.
  unfold exportHelper in H3 |- *.
  apply bind_Ret_inv in H3. destruct H3 as ([] & _ & H3 & T4 & _). rewrite T4.
  set (e3 := final (setCurrentSheet (Name sheet) e2)) in *.
  assert (Hheld3 : StreamWriter e3 = Some sw) by exact Hheld.
  apply bind_Ret_inv in H3. destruct H3 as ([] & H3 & _ & T5 & _). rewrite T5.
  unfold callInit in H3 |- *. rewrite bind_get in H3 |- *.
  apply bind_Ret_inv in H3. destruct H3 as ([] & _ & H3 & T6 & _). rewrite T6.
  change (final (mark (EvInit (CurrentSheet e3)) e3)) with e3 in *.
  unfold streamInitFunc in H3 |- *. rewrite bind_get in H3 |- *. rewrite Hheld3 in H3 |- *.
  apply bind_Ret_inv in H3. destruct H3 as ([] & H3 & _ & T7 & _). rewrite T7.
  unfold call in H3 |- *. destruct (Flush sw (File e3)) as [b [x | ]]; [discriminate | ].
  simpl. eexists. reflexivity.
Qed.

(** X13 (the flush at the end of a spec).  In a streaming export that returns
    nil, the stream of the last sheet of a spec that another spec follows is
    flushed at the end of its spec and again by the init closure of the next
    one, before the next stream is opened: the calls hold, in a row, the
    [Flush] of that stream, the [NewSheet] of the next spec, the call of its
    init closure and a [Flush] of the same stream. *)
Theorem stream_flushed_again_by_next_spec fuel front s1 s2 back e :
  UseStreamWriter e = true ->
  Forall hookKeepsExporter (front ++ s1 :: s2 :: back) ->
  result (Export fuel (front ++ s1 :: s2 :: back) e) = Ret tt ->
  exists sw pre post,
    trace (Export fuel (front ++ s1 :: s2 :: back) e) =
      pre ++
      [mkCall (EvFlush sw) None; mkCall (EvNewSheet (Name s2)) None;
       mkCall (EvInit (Name s2)) None; mkCall (EvFlush sw) None] ++
      post.
Proof.
  intros He Hh Hr. unfold Export in *.
  destruct (deferClose_run (exportSheets fuel 0 (front ++ s1 :: s2 :: back) ;; saveAs) e)
    as [Hres (closing & Ht & _)].
  rewrite Hres in Hr. rewrite Ht. clear Hres Ht.
  apply bind_Ret_inv in Hr. destruct Hr as ([] & Hs & _ & T0 & _). rewrite T0. clear T0.
  destruct (exportSheets_Ret_app _ _ _ _ _ Hs) as (Hf & Hl & T1). rewrite T1. clear T1.
  apply Forall_app in Hh as [Hhf Hhl].
  apply Forall_cons_iff in Hhl as [Hh1 Hhl]. apply Forall_cons_iff in Hhl as [Hh2 _].
  set (e1 := final (exportSheets fuel 0 front e)) in *.
  assert (He1 : UseStreamWriter e1 = true).
  { unfold e1. now rewrite (@exportSheets_mode fuel front 0 Hhf e). }
  cbn [exportSheets] in Hl |- *.
  apply bind_Ret_inv in Hl. destruct Hl as ([] & Ha & Hl & T2 & _). rewrite T2. clear T2.
  apply bind_Ret_inv in Hl. destruct Hl as ([] & Hb & _ & T3 & _). rewrite T3. clear T3.
  destruct (streamed_spec_end _ _ _ _ He1 Ha) as (sw & pre1 & -> & Hheld).
  set (e2 := final (exportOne fuel (0 + Z.of_nat (List.length front)) s1 e1)) in *.
  assert (He2 : UseStreamWriter e2 = true).
  { unfold e2. now rewrite (@exportOne_mode fuel _ s1 Hh1 e1). }
  assert (Hi : 0 + Z.of_nat (List.length front) + 1 <> 0) by lia.
  destruct (streamed_spec_start _ _ _ He2 Hheld Hi Hb) as (post2 & ->).
  exists sw, (trace (exportSheets fuel 0 front e) ++ pre1). eexists.
  rewrite <- !app_assoc. cbn [app]. reflexivity.
Qed.

(** ** The flushes of a spec, counted *)

Lemma flushedIn_app t1 t2 : flushedIn (t1 ++ t2) = flushedIn t1 ++ flushedIn t2.
Proof. apply flat_map_app. Qed.

Lemma openedIn_app t1 t2 : openedIn (t1 ++ t2) = openedIn t1 ++ openedIn t2.
Proof. apply flat_map_app. Qed.

Lemma streamFree_trace (tr : list Call) :
  Forall streamFree tr -> flushedIn tr = [] /\ openedIn tr = [].
Proof.
  induction 1 as [| c tr Hc _ [IH1 IH2]]; [split; reflexivity | ].
  unfold flushedIn, openedIn, streamFree in *. cbn [flat_map].
  rewrite IH1, IH2. destruct (what c); try contradiction; split; reflexivity.
Qed.

Lemma conserves_quiet {A} (m : M A) :
  emits streamFree m -> keeps StreamWriter m -> conserves m.
Proof.
  intros He Hk e a _. destruct (streamFree_trace (He e)) as [-> ->].
  rewrite Hk. simpl. now rewrite app_nil_r.
Qed.

Lemma conserves_bind {A C} (m : M A) (k : A -> M C) :
  conserves m -> (forall a, conserves (k a)) -> conserves (bind m k).
Proof.
  intros Hm Hk e c Hr.
  apply bind_Ret_inv in Hr. destruct Hr as (a & H1 & H2 & T & F).
  rewrite T, F, flushedIn_app, openedIn_app.
  specialize (Hm e a H1). specialize (Hk a (final (m e)) c H2).
  rewrite <- app_assoc, Hk, app_assoc, Hm, app_assoc. reflexivity.
Qed.

Lemma conserves_ret {A} (a : A) : conserves (ret a).
Proof. apply conserves_quiet; [apply emits_ret | apply keeps_ret]. Qed.

Lemma conserves_get : conserves get.
Proof. apply conserves_quiet; [apply emits_get | apply keeps_get]. Qed.

Lemma conserves_diverge {A} : conserves (@diverge A).
Proof. intros e a H. discriminate. Qed.

Lemma conserves_newSheet name : conserves (newSheet name).
Proof.
  apply conserves_quiet.
  - apply emits_withContext, emits_call. intros. exact Logic.I.
  - apply kept_newSheet, StreamWriter_fileFree.
Qed.

Lemma conserves_pull sheet i src : conserves (pull sheet i src).
Proof.
  apply conserves_quiet.
  - intros e. unfold pull. destruct (srcPull (RowFunc sheet) i src) as [[row err] s1].
    repeat constructor.
  - intros e. unfold pull. destruct (srcPull (RowFunc sheet) i src) as [[row err] s1].
    reflexivity.
Qed.

Lemma conserves_mark ev :
  streamFree (mkCall ev None) -> conserves (mark ev).
Proof. intros H. apply conserves_quiet; [now apply emits_mark | apply keeps_mark]. Qed.

Lemma conserves_setCurrentSheet name : conserves (setCurrentSheet name).
Proof.
  apply conserves_quiet; [apply emits_setCurrentSheet | apply keeps_setCurrentSheet_stream].
Qed.

Lemma cellCall_streamFree (c : Call) : cellCall c -> streamFree c.
Proof. unfold cellCall, streamFree. destruct (what c); simpl; intros; auto; discriminate. Qed.

Lemma conserves_streamWriteRowFunc sheetName rowID row :
  conserves (streamWriteRowFunc sheetName rowID row).
Proof.
  apply conserves_quiet.
  - eapply emits_impl; [apply cellCall_streamFree | apply streamWriteRowFunc_cells].
  - apply keeps_streamWriteRowFunc, StreamWriter_fileFree.
Qed.

Lemma conserves_runHook sheet : hookKeepsExporter sheet -> conserves (runHook sheet).
Proof.
  intros Hh. apply conserves_quiet.
  - unfold runHook. destruct (InitFunc sheet); [ | apply emits_ret].
    apply emits_callHook. intros. exact Logic.I.
  - apply keeps_runHook; [apply StreamWriter_fileFree | exact Hh].
Qed.

(** The init closure of the streaming strategy flushes the stream it finds
    and leaves the one it opens. *)
Lemma conserves_streamInitFunc sheet sheetName :
  hookKeepsExporter sheet -> conserves (streamInitFunc sheet sheetName).
Proof.
  intros Hh e a Hr. unfold streamInitFunc in Hr |- *. rewrite bind_get in Hr |- *.
  apply bind_Ret_inv in Hr. destruct Hr as ([] & H1 & Hr & T1 & F1).
  apply bind_Ret_inv in Hr. destruct Hr as ([] & H2 & Hr & T2 & F2).
  rewrite T1, T2, F1, F2, !flushedIn_app, !openedIn_app.
  pose proof (@conserves_runHook sheet Hh) as Hk. unfold conserves in Hk.
  specialize (Hk _ _ Hr).
  assert (Hq : flushedIn (trace (runHook sheet
                 (final (newStreamWriter sheetName
                    (final (match StreamWriter e with
                            | Some sw => call (EvFlush sw) (Flush sw)
                            | None => ret tt
                            end e)))))) = [] /\
               openedIn (trace (runHook sheet
                 (final (newStreamWriter sheetName
                    (final (match StreamWriter e with
                            | Some sw => call (EvFlush sw) (Flush sw)
                            | None => ret tt
                            end e)))))) = []).
  { apply streamFree_trace. unfold runHook. destruct (InitFunc sheet); [ | constructor].
    apply emits_callHook. intros. exact Logic.I. }
  destruct Hq as [Hq1 Hq2]. rewrite Hq1, Hq2 in *. simpl in Hk. rewrite !app_nil_r in Hk.
  rewrite !app_nil_r. rewrite Hk. clear Hk Hq1 Hq2 Hr H2 T1 T2 F1 F2.
  destruct (StreamWriter e) as [sw | ] eqn:Hsw.
  - unfold call, newStreamWriter in *. destruct (Flush sw (File e)) as [b err]. simpl.
    destruct (NewStreamWriter sheetName b) as [[b' h] err']. simpl.
    now rewrite app_nil_r.
  - unfold newStreamWriter. simpl.
    destruct (NewStreamWriter sheetName (File e)) as [[b' h] err']. simpl.
    now rewrite app_nil_r.
Qed.

Section StreamFlushes.

Variable sheet : SheetData.
Hypothesis hook_keeps : hookKeepsExporter sheet.

Lemma conserves_callInit : conserves (callInit (streamInitFunc sheet)).
Proof.
  unfold callInit. apply conserves_bind; [apply conserves_get | intros e0].
  apply conserves_bind; [now apply conserves_mark | intros _].
  now apply conserves_streamInitFunc.
Qed.

Lemma conserves_splitIfFull rowID suf :
  conserves (splitIfFull sheet (streamInitFunc sheet) rowID suf).
Proof.
  unfold splitIfFull. destruct (rowID >? SheetMaxRows); [ | apply conserves_ret].
  apply conserves_bind; [apply conserves_newSheet | intros _].
  apply conserves_bind; [apply conserves_setCurrentSheet | intros _].
  apply conserves_bind; [apply conserves_callInit | intros _; apply conserves_ret].
Qed.

Lemma conserves_helperLoop (fuel : nat) :
  forall src rowID suf i,
    conserves (helperLoop sheet (streamInitFunc sheet) streamWriteRowFunc fuel src rowID suf i).
Proof.
  induction fuel as [| fuel IH]; intros src rowID suf i; cbn [helperLoop];
    [apply conserves_diverge | ].
  apply conserves_bind; [apply conserves_pull | intros p].
  destruct (Cells (fst p)); [ | apply conserves_ret].
  apply conserves_bind; [apply conserves_splitIfFull | intros q].
  apply conserves_bind; [apply conserves_get | intros e0].
  apply conserves_bind; [now apply conserves_mark | intros _].
  apply conserves_bind; [apply conserves_streamWriteRowFunc | intros _; apply IH].
Qed.

Lemma conserves_exportHelper fuel :
  conserves (exportHelper sheet (streamInitFunc sheet) streamWriteRowFunc fuel).
Proof.
  unfold exportHelper.
  apply conserves_bind; [apply conserves_setCurrentSheet | intros _].
  apply conserves_bind; [apply conserves_callInit | intros _; apply conserves_helperLoop].
Qed.

Lemma exportUsingStreamWriter_flushes fuel e :
  result (exportUsingStreamWriter fuel sheet e) = Ret tt ->
  flushedIn (trace (exportUsingStreamWriter fuel sheet e)) =
    heldList (StreamWriter e) ++ openedIn (trace (exportUsingStreamWriter fuel sheet e)).
Proof.
  intros Hr. unfold exportUsingStreamWriter in Hr |- *.
  apply bind_Ret_inv in Hr. destruct Hr as ([] & H1 & Hr & T1 & F1).
  rewrite T1, flushedIn_app, openedIn_app.
  pose proof (conserves_exportHelper fuel) as Hc. unfold conserves in Hc.
  specialize (Hc _ _ H1).
  set (e1 := final (exportHelper sheet (streamInitFunc sheet) streamWriteRowFunc fuel e)) in *.
  unfold onStream in Hr |- *. destruct (StreamWriter e1) as [sw | ]; [ | discriminate].
  unfold call. destruct (Flush sw (File e1)) as [b err]. simpl in Hc |- *.
  now rewrite Hc, app_nil_r.
Qed.

End StreamFlushes.

(** X14 (every stream is flushed once in its spec).  When the streaming
    export of a spec returns nil, the streams it flushed are, in this order:
    the stream the exporter came with, when it came with one; then each
    stream the spec opened, once, in the order they were opened.  So no stream
    opened is left without its flush, the last one included, and none is
    flushed twice within its spec. *)
Theorem streams_of_a_spec_flushed_once fuel i sheet e :
  UseStreamWriter e = true ->
  hookKeepsExporter sheet ->
  result (exportOne fuel i sheet e) = Ret tt ->
  flushedIn (trace (exportOne fuel i sheet e)) =
    heldList (StreamWriter e) ++ openedIn (trace (exportOne fuel i sheet e)).
Proof.
  intros He Hh Hr. unfold exportOne in Hr |- *.
  apply bind_Ret_inv in Hr. destruct Hr as ([] & H1 & Hr & T1 & F1).
  apply bind_Ret_inv in Hr. destruct Hr as ([] & H2 & Hr & T2 & F2).
  rewrite T1, T2, !flushedIn_app, !openedIn_app.
  assert (Hn : emits streamFree (newSheet (Name sheet))).
  { apply emits_withContext, emits_call. intros. exact Logic.I. }
  assert (Hd : emits streamFree (deleteDefaultSheet i)).
  { unfold deleteDefaultSheet. apply emits_bind; [apply emits_get | intros e0].
    destruct ((i =? 0) && (SheetCount (File e0) >? 1)); [ | apply emits_ret].
    apply emits_withContext, emits_call. intros. exact Logic.I. }
  destruct (streamFree_trace (Hn e)) as [-> ->].
  destruct (streamFree_trace (Hd (final (newSheet (Name sheet) e)))) as [-> ->].
  cbn [app].
  set (e2 := final (deleteDefaultSheet i (final (newSheet (Name sheet) e)))) in *.
  assert (Hmode : UseStreamWriter e2 = true).
  { unfold e2. rewrite (kept_deleteDefaultSheet UseStreamWriter_fileFree).
    rewrite (kept_newSheet UseStreamWriter_fileFree). exact He. }
  assert (Hheld : StreamWriter e2 = StreamWriter e).
  { unfold e2. rewrite (kept_deleteDefaultSheet StreamWriter_fileFree).
    now rewrite (kept_newSheet StreamWriter_fileFree). }
  unfold exportSheet in Hr |- *. rewrite bind_get in Hr |- *. rewrite Hmode in Hr |- *.
  rewrite <- Hheld. now apply exportUsingStreamWriter_flushes.
Qed.

(** ** The row numbers *)

Lemma emits_bind_at {A C} (P : Call -> Prop) (m : M A) (k : A -> M C) (e : Exporter) :
  Forall P (trace (m e)) ->
  (forall a, result (m e) = Ret a -> Forall P (trace (k a (final (m e))))) ->
  Forall P (trace (bind m k e)).
Proof.
  intros Hm Hk. rewrite bind_trace. apply Forall_app. split; [exact Hm | ].
  destruct (result (m e)) as [a | x | | ]; try constructor. now apply Hk.
Qed.

Lemma closureCall_withinSheet (c : Call) : closureCall c -> withinSheet c.
Proof.
  unfold closureCall, withinSheet. destruct (what c); simpl; intros; auto; discriminate.
Qed.

Section HelperRows.

Variable sheet : SheetData.
Variable initFunc : string -> M unit.
Variable writeRowFunc : string -> Z -> Row -> M unit.

Hypothesis init_closure : forall s, emits closureCall (initFunc s).
Hypothesis write_closure : forall s r row, emits closureCall (writeRowFunc s r row).

Lemma splitIfFull_within rowID suf : emits withinSheet (splitIfFull sheet initFunc rowID suf).
Proof.
  unfold splitIfFull. destruct (rowID >? SheetMaxRows); [ | apply emits_ret].
  apply emits_bind; [apply emits_withContext, emits_call; intros; exact Logic.I | intros _].
  apply emits_bind; [apply emits_setCurrentSheet | intros _].
  apply emits_bind; [ | intros _; apply emits_ret].
  unfold callInit. apply emits_bind; [apply emits_get | intros e0].
  apply emits_bind; [apply emits_mark; exact Logic.I | intros _].
  eapply emits_impl; [apply closureCall_withinSheet | apply init_closure].
Qed.

(** The row number the split leaves is on the sheet. *)
Lemma splitIfFull_rowID rowID suf e q :
  1 <= rowID ->
  result (splitIfFull sheet initFunc rowID suf e) = Ret q ->
  1 <= fst q <= SheetMaxRows.
Proof.
  pose proof SheetMaxRows_eq as HN.
  intros H1 Hr. unfold splitIfFull in Hr. destruct (rowID >? SheetMaxRows) eqn:Hfull.
  - apply bind_Ret_inv in Hr. destruct Hr as ([] & _ & Hr & _).
    apply bind_Ret_inv in Hr. destruct Hr as ([] & _ & Hr & _).
    apply bind_Ret_inv in Hr. destruct Hr as ([] & _ & Hr & _).
    simpl in Hr. injection Hr as <-. simpl. lia.
  - simpl in Hr. injection Hr as <-. simpl.
    rewrite Z.gtb_ltb in Hfull. apply Z.ltb_ge in Hfull. lia.
Qed.

Lemma helperLoop_within (fuel : nat) :
  forall src rowID suf i e,
    1 <= rowID <= SheetMaxRows + 1 ->
    Forall withinSheet (trace (helperLoop sheet initFunc writeRowFunc fuel src rowID suf i e)).
Proof.
  pose proof SheetMaxRows_eq as HN.
  induction fuel as [| fuel IH]; intros src rowID suf i e Hrow; [constructor | ].
  cbn [helperLoop]. apply emits_bind_at.
  - unfold pull. destruct (srcPull (RowFunc sheet) i src) as [[row err] s1].
    constructor; [exact Logic.I | constructor].
  - intros p _. destruct (Cells (fst p)); [ | constructor].
    apply emits_bind_at; [apply splitIfFull_within | intros q Hq].
    apply splitIfFull_rowID in Hq; [ | lia].
    rewrite bind_get.
    apply emits_bind_at; [constructor; [exact Hq | constructor] | intros _ _].
    apply emits_bind_at.
    + eapply Forall_impl; [apply closureCall_withinSheet | apply write_closure].
    + intros _ _. apply IH. rewrite incr_small by lia. lia.
Qed.

Lemma exportHelper_within fuel :
  emits withinSheet (exportHelper sheet initFunc writeRowFunc fuel).
Proof.
  pose proof SheetMaxRows_eq as HN.
  intros e. unfold exportHelper.
  apply emits_bind_at; [constructor | intros _ _].
  apply emits_bind_at.
  - unfold callInit. rewrite bind_get.
    apply emits_bind_at; [constructor; [exact Logic.I | constructor] | intros _ _].
    eapply Forall_impl; [apply closureCall_withinSheet | apply init_closure].
  - intros _ _. apply helperLoop_within. lia.
Qed.

End HelperRows.

Lemma exportSheets_within fuel sheets :
  forall i, emits withinSheet (exportSheets fuel i sheets).
Proof.
  induction sheets as [| sheet rest IH]; intros i; simpl; [apply emits_ret | ].
  apply emits_bind; [ | intros _; apply IH].
  unfold exportOne.
  apply emits_bind; [apply emits_withContext, emits_call; intros; exact Logic.I | intros _].
  apply emits_bind.
  - unfold deleteDefaultSheet. apply emits_bind; [apply emits_get | intros e0].
    destruct ((i =? 0) && (SheetCount (File e0) >? 1)); [ | apply emits_ret].
    apply emits_withContext, emits_call. intros. exact Logic.I.
  - intros _. unfold exportSheet. apply emits_bind; [apply emits_get | intros e0].
    destruct (UseStreamWriter e0).
    + unfold exportUsingStreamWriter. apply emits_bind.
      * apply exportHelper_within.
        -- apply streamInitFunc_closure.
        -- intros s r row. eapply emits_impl;
             [apply cellCall_closureCall | apply streamWriteRowFunc_cells].
      * intros _. apply emits_onStream. intros sw. apply emits_call. intros. exact Logic.I.
    + unfold exportUsingMemory. apply exportHelper_within.
      * intros s. apply runHook_closure.
      * intros s r row. eapply emits_impl;
          [apply cellCall_closureCall | apply memoryWriteRowFunc_cells].
Qed.

(** X15 (no row beyond the sheet).  Whatever the specs, the rows, the hooks
    and the outcome, every row [Export] writes is written at a row number
    from 1 to [SheetMaxRows]: the loop starts a new sheet before it would
    write the row after. *)
Theorem rows_stay_within_the_sheet fuel sheets e :
  Forall withinSheet (trace (Export fuel sheets e)).
Proof.
  unfold Export.
  destruct (deferClose_run (exportSheets fuel 0 sheets ;; saveAs) e)
    as [_ (closing & -> & Hcl)].
  apply Forall_app. split.
  - apply emits_bind; [apply exportSheets_within | intros _].
    unfold saveAs. apply emits_bind; [apply emits_get | intros e0].
    apply emits_call. intros. exact Logic.I.
  - destruct (result ((exportSheets fuel 0 sheets ;; saveAs) e));
      try (destruct Hcl as (err & ->); repeat constructor).
    subst closing. constructor.
Qed.

(** ** The end of the export *)

Lemma saveAs_halts : halts saveAs.
Proof. unfold saveAs. apply bind_halts; [apply get_halts | intros e0; apply call_halts]. Qed.

Lemma exportSheets_halts fuel sheets rowss :
  Forall2 (fedWithin fuel) sheets rowss ->
  forall i e, result (exportSheets fuel i sheets e) <> Diverge.
Proof.
  induction 1 as [| sheet rows sheets rowss [Hf Hfuel] Hrest IH]; intros i e;
    [discriminate | ].
  cbn [exportSheets]. apply bind_halts_at.
  - now apply exportOne_halts with (rows := rows).
  - intros _ _. apply IH.
Qed.

(** X16 (the export comes to an end).  When the source of every spec feeds
    its rows and then the sentinel, [Export] comes to an end: the loop of
    [exportHelper] turns once per row and once more for the sentinel, so as
    many turns as the longest source has rows, and one more, are enough for
    every spec. *)
Theorem Export_comes_to_an_end fuel sheets rowss e :
  Forall2 (fedWithin fuel) sheets rowss ->
  result (Export fuel sheets e) <> Diverge.
Proof.
  intros Hfed. unfold Export.
  destruct (deferClose_run (exportSheets fuel 0 sheets ;; saveAs) e) as [-> _].
  apply bind_halts_at; [now apply exportSheets_halts with (rowss := rowss) | intros _ _].
  apply saveAs_halts.
Qed.

(** ** The streams of a spec *)

Lemma opensOf_app t1 t2 : opensOf (t1 ++ t2) = opensOf t1 ++ opensOf t2.
Proof. apply flat_map_app. Qed.

Lemma initsIn_app l1 l2 : initsIn (l1 ++ l2) = initsIn l1 ++ initsIn l2.
Proof. apply flat_map_app. Qed.

Lemma noOpening_trace (tr : list Call) :
  Forall noOpening tr -> opensOf tr = [] /\ initsIn (events tr) = [].
Proof.
  induction 1 as [| c tr Hc _ [IH1 IH2]]; [split; reflexivity | ].
  unfold opensOf, initsIn, events, noOpening in *. cbn [map flat_map].
  rewrite IH1, IH2. destruct (what c); try contradiction; split; reflexivity.
Qed.

Lemma opensAtInit_quiet {A} (m : M A) : emits noOpening m -> opensAtInit m.
Proof. intros He e a _. now destruct (noOpening_trace (He e)) as [-> ->]. Qed.

Lemma opensAtInit_bind {A C} (m : M A) (k : A -> M C) :
  opensAtInit m -> (forall a, opensAtInit (k a)) -> opensAtInit (bind m k).
Proof.
  intros Hm Hk e c Hr.
  apply bind_Ret_inv in Hr. destruct Hr as (a & H1 & H2 & T & F).
  rewrite T, events_app, opensOf_app, initsIn_app.
  now rewrite (Hm e a H1), (Hk a (final (m e)) c H2).
Qed.

Lemma cellCall_noOpening (c : Call) : cellCall c -> noOpening c.
Proof. unfold cellCall, noOpening. destruct (what c); simpl; intros; auto; discriminate. Qed.

Section StreamOpens.

Variable sheet : SheetData.

Lemma opensAtInit_callInit : opensAtInit (callInit (streamInitFunc sheet)).
Proof.
  intros e a Hr. unfold callInit in Hr |- *. rewrite bind_get in Hr |- *.
  apply bind_Ret_inv in Hr. destruct Hr as ([] & _ & Hr & T1 & _). rewrite T1.
  change (final (mark (EvInit (CurrentSheet e)) e)) with e in *.
  unfold streamInitFunc in Hr |- *. rewrite bind_get in Hr |- *.
  apply bind_Ret_inv in Hr. destruct Hr as ([] & _ & Hr & T2 & _). rewrite T2.
  apply bind_Ret_inv in Hr. destruct Hr as ([] & _ & Hr & T3 & _). rewrite T3.
  rewrite !events_app, !opensOf_app, !initsIn_app.
  assert (Hf : Forall noOpening
                 (trace (match StreamWriter e with
                         | Some sw => call (EvFlush sw) (Flush sw)
                         | None => ret tt
                         end e))).
  { destruct (StreamWriter e) as [sw | ]; [ | constructor].
    unfold call. destruct (Flush sw (File e)). repeat constructor. }
  destruct (noOpening_trace Hf) as [-> ->].
  assert (Hh : forall e', Forall noOpening (trace (runHook sheet e'))).
  { intros e'. unfold runHook. destruct (InitFunc sheet); [ | constructor].
    apply emits_callHook. intros. exact Logic.I. }
  match goal with
  | |- context [trace (runHook sheet ?e')] =>
      destruct (noOpening_trace (Hh e')) as [-> ->]
  end.
  unfold newStreamWriter.
  destruct (NewStreamWriter (CurrentSheet e) _) as [[b h] err]. reflexivity.
Qed.

Lemma opensAtInit_splitIfFull rowID suf :
  opensAtInit (splitIfFull sheet (streamInitFunc sheet) rowID suf).
Proof.
  unfold splitIfFull. destruct (rowID >? SheetMaxRows);
    [ | apply opensAtInit_quiet, emits_ret].
  apply opensAtInit_bind;
    [apply opensAtInit_quiet, emits_withContext, emits_call; intros; exact Logic.I | intros _].
  apply opensAtInit_bind; [apply opensAtInit_quiet, emits_setCurrentSheet | intros _].
  apply opensAtInit_bind;
    [apply opensAtInit_callInit | intros _; apply opensAtInit_quiet, emits_ret].
Qed.

Lemma opensAtInit_helperLoop (fuel : nat) :
  forall src rowID suf i,
    opensAtInit (helperLoop sheet (streamInitFunc sheet) streamWriteRowFunc fuel src rowID suf i).
Proof.
  induction fuel as [| fuel IH]; intros src rowID suf i; cbn [helperLoop];
    [intros e a H; discriminate | ].
  apply opensAtInit_bind.
  - apply opensAtInit_quiet. intros e. unfold pull.
    destruct (srcPull (RowFunc sheet) i src) as [[row err] s1]. repeat constructor.
  - intros p. destruct (Cells (fst p)); [ | apply opensAtInit_quiet, emits_ret].
    apply opensAtInit_bind; [apply opensAtInit_splitIfFull | intros q].
    apply opensAtInit_bind; [apply opensAtInit_quiet, emits_get | intros e0].
    apply opensAtInit_bind;
      [apply opensAtInit_quiet, emits_mark; exact Logic.I | intros _].
    apply opensAtInit_bind; [ | intros _; apply IH].
    apply opensAtInit_quiet. eapply emits_impl;
      [apply cellCall_noOpening | apply streamWriteRowFunc_cells].
Qed.

Lemma opensAtInit_exportUsingStreamWriter fuel :
  opensAtInit (exportUsingStreamWriter fuel sheet).
Proof.
  unfold exportUsingStreamWriter. apply opensAtInit_bind.
  - unfold exportHelper.
    apply opensAtInit_bind; [apply opensAtInit_quiet, emits_setCurrentSheet | intros _].
    apply opensAtInit_bind; [apply opensAtInit_callInit | intros _].
    apply opensAtInit_helperLoop.
  - intros _. apply opensAtInit_quiet, emits_onStream. intros sw.
    apply emits_call. intros. exact Logic.I.
Qed.

End StreamOpens.

Lemma initsIn_layout (tr : list Call) : initsIn (events tr) = initsIn (layout tr).
Proof.
  unfold layout. induction (events tr) as [| ev evs IH]; [reflexivity | ].
  destruct ev; simpl; rewrite ?IH; reflexivity.
Qed.

Lemma initsIn_hookRun sheet name : initsIn (hookRun sheet name) = [].
Proof. unfold hookRun. now destruct (InitFunc sheet). Qed.

(** The init closure is called for every sheet the loop creates. *)
Lemma initsIn_layoutRows sheet (rows : list Row) :
  forall current rowID suf,
    initsIn (layoutRows sheet current rowID suf rows) =
      createdIn (layoutRows sheet current rowID suf rows).
Proof.
  induction rows as [| row rest IH]; intros current rowID suf; [reflexivity | ].
  cbn [layoutRows]. destruct (rowID >? SheetMaxRows).
  - cbn [initsIn createdIn flat_map app].
    fold (initsIn (hookRun sheet (Sprintf_s_d (Name sheet) (incr suf)) ++
      EvWriteRow (Sprintf_s_d (Name sheet) (incr suf)) 1 row ::
      layoutRows sheet (Sprintf_s_d (Name sheet) (incr suf)) (incr 1) (incr suf) rest)).
    fold (createdIn (hookRun sheet (Sprintf_s_d (Name sheet) (incr suf)) ++
      EvWriteRow (Sprintf_s_d (Name sheet) (incr suf)) 1 row ::
      layoutRows sheet (Sprintf_s_d (Name sheet) (incr suf)) (incr 1) (incr suf) rest)).
    rewrite initsIn_app, createdIn_app, initsIn_hookRun, createdIn_hookRun.
    cbn [app initsIn createdIn flat_map].
    fold (initsIn (layoutRows sheet (Sprintf_s_d (Name sheet) (incr suf)) (incr 1) (incr suf) rest)).
    fold (createdIn (layoutRows sheet (Sprintf_s_d (Name sheet) (incr suf)) (incr 1) (incr suf) rest)).
    now rewrite IH.
  - cbn [initsIn createdIn flat_map app].
    fold (initsIn (layoutRows sheet current (incr rowID) suf rest)).
    fold (createdIn (layoutRows sheet current (incr rowID) suf rest)).
    apply IH.
Qed.

(** X17 (one stream for each sheet).  When the streaming export of a spec
    returns nil, [NewStreamWriter] was called once for each physical sheet of
    the spec, in their order and on that sheet: the spec's own sheet, then
    each sheet the loop created. *)
Theorem one_stream_for_each_sheet fuel i sheet rows e :
  UseStreamWriter e = true ->
  hookKeepsExporter sheet ->
  Feeds (RowFunc sheet) rows ->
  Z.of_nat (List.length rows) < 2 ^ 63 ->
  result (exportOne fuel i sheet e) = Ret tt ->
  opensOf (trace (exportOne fuel i sheet e)) = physicalSheetsFor (Name sheet) rows.
Proof.
  intros He Hh Hf Hlen Hr.
  assert (Ho : opensOf (trace (exportOne fuel i sheet e)) =
               initsIn (events (trace (exportOne fuel i sheet e)))).
  { clear Hf Hlen. unfold exportOne in Hr |- *.
    apply bind_Ret_inv in Hr. destruct Hr as ([] & H1 & Hr & T1 & F1).
    apply bind_Ret_inv in Hr. destruct Hr as ([] & H2 & Hr & T2 & F2).
    rewrite T1, T2, !events_app, !opensOf_app, !initsIn_app.
    assert (Hn : emits noOpening (newSheet (Name sheet))).
    { apply emits_withContext, emits_call. intros. exact Logic.I. }
    assert (Hd : emits noOpening (deleteDefaultSheet i)).
    { unfold deleteDefaultSheet. apply emits_bind; [apply emits_get | intros e0].
      destruct ((i =? 0) && (SheetCount (File e0) >? 1)); [ | apply emits_ret].
      apply emits_withContext, emits_call. intros. exact Logic.I. }
    destruct (noOpening_trace (Hn e)) as [-> ->].
    destruct (noOpening_trace (Hd (final (newSheet (Name sheet) e)))) as [-> ->].
    cbn [app].
    set (e2 := final (deleteDefaultSheet i (final (newSheet (Name sheet) e)))) in *.
    assert (Hmode : UseStreamWriter e2 = true).
    { unfold e2. rewrite (kept_deleteDefaultSheet UseStreamWriter_fileFree).
      rewrite (kept_newSheet UseStreamWriter_fileFree). exact He. }
    unfold exportSheet in Hr |- *. rewrite bind_get in Hr |- *. rewrite Hmode in Hr |- *.
    pose proof (opensAtInit_exportUsingStreamWriter sheet fuel) as Hs.
    unfold opensAtInit in Hs. exact (Hs e2 tt Hr). }
  rewrite Ho, initsIn_layout.
  rewrite (@exportOne_layout fuel i sheet rows e Hh Hf Hr). unfold sheetLayout.
  cbn [initsIn flat_map app].
  fold (initsIn (hookRun sheet (Name sheet) ++ layoutRows sheet (Name sheet) 1 0 rows)).
  rewrite initsIn_app, initsIn_hookRun, initsIn_layoutRows. cbn [app].
  pose proof SheetMaxRows_eq as HN.
  rewrite (@createdIn_layoutRows sheet rows (Name sheet) 1 0 0) by lia.
  unfold physicalSheetsFor, physicalSheets. cbn [seq map]. f_equal.
  rewrite <- seq_shift, map_map, Z.sub_0_r. apply map_ext. intros j.
  rewrite physicalSheet_pos by lia. f_equal. lia.
Qed.

(** ** The names of the sheets of a spec *)








(** ** The exporter after the export *)

Lemma deferClose_final {X A} (f : Exporter -> X) (body : M A) (e : Exporter) :
  fileFree f -> f (final (deferClose body e)) = f (final (body e)).
Proof.
  intros Hf. unfold deferClose. destruct (result (body e)); try reflexivity;
    destruct (Close (File (final (body e)))) as [b err]; simpl; apply Hf.
Qed.

Lemma saveAs_keeps {X} (f : Exporter -> X) : fileFree f -> keeps f saveAs.
Proof.
  intros Hf. unfold saveAs. apply keeps_bind; [apply keeps_get | intros e0].
  now apply keeps_call.
Qed.

Lemma saveAs_run e :
  exists errS, trace (saveAs e) = [mkCall (EvSaveAs (FileName e)) errS] /\
               result (saveAs e) = resOf errS.
Proof.
  unfold saveAs. rewrite bind_get. unfold call.
  destruct (SaveAs (FileName e) (File e)) as [b errS]. exists errS. auto.
Qed.

Lemma exportSheets_app fuel (l1 l2 : list SheetData) :
  forall i e,
    result (exportSheets fuel i l1 e) = Ret tt ->
    exportSheets fuel i (l1 ++ l2) e =
      before (trace (exportSheets fuel i l1 e))
             (exportSheets fuel (i + Z.of_nat (List.length l1)) l2
                (final (exportSheets fuel i l1 e))).
Proof.
  induction l1 as [| s l1 IH]; intros i e H.
  - simpl. rewrite Z.add_0_r. unfold before. now destruct (exportSheets fuel i l2 e).
  - cbn [app exportSheets] in H |- *.
    apply bind_Ret_inv in H. destruct H as ([] & H1 & H2 & _ & _).
    rewrite (@bind_Ret_run _ _ (exportOne fuel i s)
               (fun _ => exportSheets fuel (i + 1) (l1 ++ l2)) e tt H1).
    rewrite (@bind_Ret_run _ _ (exportOne fuel i s)
               (fun _ => exportSheets fuel (i + 1) l1) e tt H1).
    rewrite (IH _ _ H2). unfold before. simpl.
    replace (i + Z.pos (Pos.of_succ_nat (List.length l1)))
      with (i + 1 + Z.of_nat (List.length l1)) by lia.
    now rewrite app_assoc.
Qed.

(** X19 (the exporter after a streamed export).  When a streaming [Export]
    of at least one spec returns nil, its last calls are the flush of the
    stream of the last sheet, the save and the close; and the exporter is left
    with its file name and its strategy as they were, and still holding that
    last stream: [Export] does not reset it. *)
Theorem exporter_after_a_streamed_export fuel sheets e :
  UseStreamWriter e = true ->
  sheets <> [] ->
  Forall hookKeepsExporter sheets ->
  result (Export fuel sheets e) = Ret tt ->
  FileName (final (Export fuel sheets e)) = FileName e /\
  UseStreamWriter (final (Export fuel sheets e)) = true /\
  exists sw pre errC,
    trace (Export fuel sheets e) =
      pre ++ [mkCall (EvFlush sw) None; mkCall (EvSaveAs (FileName e)) None;
              mkCall EvClose errC] /\
    StreamWriter (final (Export fuel sheets e)) = Some sw.
Proof.
  intros He Hne Hh Hr. unfold Export in *.
  rewrite !deferClose_final
    by (apply FileName_fileFree || apply UseStreamWriter_fileFree || apply StreamWriter_fileFree).
  destruct (deferClose_run (exportSheets fuel 0 sheets ;; saveAs) e)
    as [Hres (closing & Ht & Hcl)].
  rewrite Hres in Hr. rewrite Hr in Hcl. destruct Hcl as (errC & ->). rewrite Ht. clear Hres Ht.
  apply bind_Ret_inv in Hr. destruct Hr as ([] & Hs & Hr & T0 & F0). rewrite T0, F0. clear T0 F0.
  set (e1 := final (exportSheets fuel 0 sheets e)) in *.
  rewrite (saveAs_keeps FileName_fileFree), (saveAs_keeps UseStreamWriter_fileFree),
    (saveAs_keeps StreamWriter_fileFree).
  assert (Hname : FileName e1 = FileName e) by now apply exportSheets_FileName.
  assert (Hmode : UseStreamWriter e1 = true).
  { unfold e1. now rewrite (@exportSheets_mode fuel sheets 0 Hh e). }
  split; [exact Hname | ]. split; [exact Hmode | ].
  destruct (saveAs_run e1) as (errS & Hst & Hsr). rewrite Hst. rewrite Hsr in Hr.
  destruct errS; [discriminate | ]. rewrite Hname.
  destruct (exists_last Hne) as (front & last & ->).
  destruct (exportSheets_Ret_app _ _ _ _ _ Hs) as (Hf & Hl & T1).
  apply Forall_app in Hh as [Hhf Hhl]. apply Forall_cons_iff in Hhl as [Hh1 _].
  cbn [exportSheets] in Hl.
  apply bind_Ret_inv in Hl. destruct Hl as ([] & Ha & _ & T2 & F2).
  assert (He0 : UseStreamWriter (final (exportSheets fuel 0 front e)) = true).
  { now rewrite (@exportSheets_mode fuel front 0 Hhf e). }
  destruct (streamed_spec_end _ _ _ _ He0 Ha) as (sw & pre1 & Hp & Hheld).
  exists sw, (trace (exportSheets fuel 0 front e) ++ pre1), errC. split.
  - rewrite T1. cbn [exportSheets]. rewrite T2, Hp. simpl. rewrite <- !app_assoc.
    reflexivity.
  - unfold e1. rewrite (@exportSheets_app fuel front [last] 0 e Hf).
    cbn [exportSheets].
    rewrite (@bind_Ret_run _ _ (exportOne fuel (0 + Z.of_nat (List.length front)) last)
               (fun _ => ret tt)
               (final (exportSheets fuel 0 front e)) tt Ha).
    exact Hheld.
Qed.

(** ** The cells of a streamed export *)

Lemma bind_assoc {A C D} (m : M A) (k : A -> M C) (h : C -> M D) (e : Exporter) :
  bind (bind m k) h e = bind m (fun a => bind (k a) h) e.
Proof.
  unfold bind. destruct (result (m e)) as [a | x | | ]; simpl; try reflexivity.
  destruct (result (k a (final (m e)))) as [c | x | | ]; simpl; try reflexivity.
  unfold before. simpl. now rewrite app_assoc.
Qed.

Lemma bind_ext_at {A C} (m : M A) (k k' : A -> M C) (e : Exporter) :
  (forall a, result (m e) = Ret a -> k a (final (m e)) = k' a (final (m e))) ->
  bind m k e = bind m k' e.
Proof.
  intros H. unfold bind. destruct (result (m e)) as [a | x | | ]; try reflexivity.
  now rewrite (H a eq_refl).
Qed.

Lemma lastOpened_app h t1 t2 : lastOpened h (t1 ++ t2) = lastOpened (lastOpened h t1) t2.
Proof. revert h. induction t1 as [| c t1 IH]; intros h; simpl; auto. Qed.

Lemma streamCalls_app h t1 t2 :
  streamCalls h (t1 ++ t2) = streamCalls h t1 ++ streamCalls (lastOpened h t1) t2.
Proof.
  revert h. induction t1 as [| c t1 IH]; intros h; [reflexivity | ].
  cbn [app streamCalls lastOpened]. destruct (what c); rewrite ?IH; try reflexivity.
  now rewrite app_assoc.
Qed.

Lemma plain_trace (tr : list Call) :
  Forall plainCall tr ->
  cellsIn tr = [] /\ forall h, streamCalls h tr = [] /\ lastOpened h tr = h.
Proof.
  induction 1 as [| c tr Hc _ [IH1 IH2]]; [split; [reflexivity | intros h; split; reflexivity] | ].
  unfold cellsIn, events, plainCall in *. cbn [map filter streamCalls lastOpened].
  destruct (what c); try contradiction; try discriminate; rewrite ?IH1;
    (split; [reflexivity | intros h; apply IH2]).
Qed.

Lemma cellCalls_trace (tr : list Call) :
  Forall cellCall tr ->
  cellsIn tr = events tr /\ forall h, streamCalls h tr = [] /\ lastOpened h tr = h.
Proof.
  induction 1 as [| c tr Hc _ [IH1 IH2]]; [split; [reflexivity | intros h; split; reflexivity] | ].
  unfold cellsIn, events, cellCall in *. cbn [map filter streamCalls lastOpened].
  rewrite Hc, IH1.
  destruct (what c); try discriminate; (split; [reflexivity | intros h; apply IH2]).
Qed.

Lemma streams_quiet {A} (m : M A) :
  emits plainCall m -> keeps StreamWriter m -> streams m.
Proof.
  intros He Hk e a _. destruct (plain_trace (He e)) as [-> H].
  destruct (H (StreamWriter e)) as [-> ->]. rewrite Hk. split; reflexivity.
Qed.

Lemma streams_bind {A C} (m : M A) (k : A -> M C) :
  streams m -> (forall a, streams (k a)) -> streams (bind m k).
Proof.
  intros Hm Hk e c Hr.
  apply bind_Ret_inv in Hr. destruct Hr as (a & H1 & H2 & T & F).
  rewrite T, F, cellsIn_app, streamCalls_app, lastOpened_app.
  destruct (Hm e a H1) as [Hm1 Hm2]. destruct (Hk a (final (m e)) c H2) as [Hk1 Hk2].
  rewrite Hm1, Hk1, Hk2, Hm2. split; reflexivity.
Qed.

Lemma streams_diverge {A} : streams (@diverge A).
Proof. intros e a H. discriminate. Qed.

Lemma streams_newStreamWriter s : streams (newStreamWriter s).
Proof.
  intros e a _. unfold newStreamWriter.
  destruct (NewStreamWriter s (File e)) as [[b h] err]. split; reflexivity.
Qed.

Lemma streams_newSheet name : streams (newSheet name).
Proof.
  apply streams_quiet.
  - apply emits_withContext, emits_call. reflexivity.
  - apply kept_newSheet, StreamWriter_fileFree.
Qed.

Lemma streams_runHook sheet : hookKeepsExporter sheet -> streams (runHook sheet).
Proof.
  intros Hh. apply streams_quiet.
  - unfold runHook. destruct (InitFunc sheet); [ | apply emits_ret].
    apply emits_callHook. reflexivity.
  - apply keeps_runHook; [apply StreamWriter_fileFree | exact Hh].
Qed.

Lemma streams_streamInitFunc sheet sheetName :
  hookKeepsExporter sheet -> streams (streamInitFunc sheet sheetName).
Proof.
  intros Hh. unfold streamInitFunc.
  apply streams_bind; [apply streams_quiet; [apply emits_get | apply keeps_get] | intros e0].
  apply streams_bind.
  - apply streams_quiet.
    + destruct (StreamWriter e0); [apply emits_call; reflexivity | apply emits_ret].
    + destruct (StreamWriter e0); [apply keeps_call, StreamWriter_fileFree | apply keeps_ret].
  - intros _. apply streams_bind; [apply streams_newStreamWriter | intros _].
    now apply streams_runHook.
Qed.

Lemma streamWriteRowFunc_calls sheetName rowID row e sw :
  StreamWriter e = Some sw ->
  result (streamWriteRowFunc sheetName rowID row e) = Ret tt ->
  events (trace (streamWriteRowFunc sheetName rowID row e)) = streamRowEvents sw rowID row.
Proof.
  intros Hsw. unfold streamWriteRowFunc, onStream. rewrite Hsw.
  assert (H : makes (streamRowEvents sw rowID row)
                ((call (EvSetRow sw (CoordinatesToCellName 1 rowID) (cellsOf row) (RowOpts row))
                       (SetRow sw (CoordinatesToCellName 1 rowID) (cellsOf row) (RowOpts row)) ;;
                  streamMerges sw (MergeCells row)) e)).
  { unfold streamRowEvents.
    apply (makes_bind (E1 := [_])); [apply makes_call | intros e'; apply streamMerges_makes]. }
  apply H.
Qed.

(** The mark of a row write and the write that follows it. *)
Lemma streams_row s r row :
  streams (mark (EvWriteRow s r row) ;; streamWriteRowFunc s r row).
Proof.
  intros e a Hr.
  apply bind_Ret_inv in Hr. destruct Hr as ([] & _ & Hr & T & F). rewrite T, F.
  change (final (mark (EvWriteRow s r row) e)) with e in *.
  change (trace (mark (EvWriteRow s r row) e)) with [mkCall (EvWriteRow s r row) None].
  destruct a.
  destruct (StreamWriter e) as [sw | ] eqn:Hsw;
    [ | unfold streamWriteRowFunc, onStream in Hr; rewrite Hsw in Hr; discriminate].
  destruct (cellCalls_trace (streamWriteRowFunc_cells s r row e)) as [Hc Hn].
  destruct (Hn (Some sw)) as [Hn1 Hn2].
  rewrite (keeps_streamWriteRowFunc StreamWriter_fileFree), Hsw.
  cbn [app streamCalls lastOpened what]. rewrite Hn1, Hn2, app_nil_r.
  change (cellsIn (mkCall (EvWriteRow s r row) None :: ?t)) with (cellsIn t).
  rewrite Hc. split; [ | reflexivity].
  now apply streamWriteRowFunc_calls.
Qed.

Section StreamCells.

Variable sheet : SheetData.
Hypothesis hook_keeps : hookKeepsExporter sheet.

Lemma streams_callInit : streams (callInit (streamInitFunc sheet)).
Proof.
  unfold callInit.
  apply streams_bind; [apply streams_quiet; [apply emits_get | apply keeps_get] | intros e0].
  apply streams_bind.
  - apply streams_quiet; [apply emits_mark; reflexivity | apply keeps_mark].
  - intros _. now apply streams_streamInitFunc.
Qed.

Lemma streams_splitIfFull rowID suf :
  streams (splitIfFull sheet (streamInitFunc sheet) rowID suf).
Proof.
  unfold splitIfFull. destruct (rowID >? SheetMaxRows);
    [ | apply streams_quiet; [apply emits_ret | apply keeps_ret]].
  apply streams_bind; [apply streams_newSheet | intros _].
  apply streams_bind.
  - apply streams_quiet;
      [apply emits_setCurrentSheet | apply keeps_setCurrentSheet_stream].
  - intros _. apply streams_bind; [apply streams_callInit | intros _].
    apply streams_quiet; [apply emits_ret | apply keeps_ret].
Qed.

Lemma streams_helperLoop (fuel : nat) :
  forall src rowID suf i,
    streams (helperLoop sheet (streamInitFunc sheet) streamWriteRowFunc fuel src rowID suf i).
Proof.
  induction fuel as [| fuel IH]; intros src rowID suf i; cbn [helperLoop];
    [apply streams_diverge | ].
  apply streams_bind.
  - apply streams_quiet.
    + intros e. unfold pull. destruct (srcPull (RowFunc sheet) i src) as [[row err] s1].
      repeat constructor.
    + apply kept_pull.
  - intros p. destruct (Cells (fst p));
      [ | apply streams_quiet; [apply emits_ret | apply keeps_ret]].
    apply streams_bind; [apply streams_splitIfFull | intros q].
    apply streams_bind; [apply streams_quiet; [apply emits_get | apply keeps_get] | intros e0].
    intros e a. rewrite <- bind_assoc. revert e a.
    apply streams_bind; [apply streams_row | intros _; apply IH].
Qed.

Lemma streams_exportUsingStreamWriter fuel : streams (exportUsingStreamWriter fuel sheet).
Proof.
  unfold exportUsingStreamWriter. apply streams_bind.
  - unfold exportHelper. apply streams_bind.
    + apply streams_quiet;
        [apply emits_setCurrentSheet | apply keeps_setCurrentSheet_stream].
    + intros _. apply streams_bind; [apply streams_callInit | intros _].
      apply streams_helperLoop.
  - intros _. apply streams_quiet.
    + apply emits_onStream. intros sw. apply emits_call. reflexivity.
    + apply keeps_onStream. intros sw. apply keeps_call, StreamWriter_fileFree.
Qed.

End StreamCells.

(** X20 (the cells of a streamed export).  When the streaming export of a
    spec returns nil, its calls on cells are, in order and for each row write
    the loop marks at a row number, one [SetRow] at the coordinates
    [(1, row number)] with all the cells of the row and its options, and then
    the [MergeCell] of each of its merge ranges, all on the stream that the
    last [NewStreamWriter] before it returned; and no other call touches a
    cell. *)
Theorem streamed_cells_of_a_spec fuel i sheet e :
  UseStreamWriter e = true ->
  hookKeepsExporter sheet ->
  result (exportOne fuel i sheet e) = Ret tt ->
  cellsIn (trace (exportOne fuel i sheet e)) =
    streamCalls (StreamWriter e) (trace (exportOne fuel i sheet e)).
Proof.
  intros He Hh Hr.
  assert (Hs : streams (newSheet (Name sheet) ;; deleteDefaultSheet i ;;
                        exportUsingStreamWriter fuel sheet)).
  { apply streams_bind; [apply streams_newSheet | intros _].
    apply streams_bind; [ | intros _; now apply streams_exportUsingStreamWriter].
    apply streams_quiet.
    - unfold deleteDefaultSheet. apply emits_bind; [apply emits_get | intros e0].
      destruct ((i =? 0) && (SheetCount (File e0) >? 1)); [ | apply emits_ret].
      apply emits_withContext, emits_call. reflexivity.
    - apply kept_deleteDefaultSheet, StreamWriter_fileFree. }
  assert (Heq : exportOne fuel i sheet e =
                (newSheet (Name sheet) ;; deleteDefaultSheet i ;;
                 exportUsingStreamWriter fuel sheet) e).
  { unfold exportOne. apply bind_ext_at. intros [] _.
    apply bind_ext_at. intros [] _.
    unfold exportSheet. rewrite bind_get.
    rewrite (kept_deleteDefaultSheet UseStreamWriter_fileFree).
    rewrite (kept_newSheet UseStreamWriter_fileFree). now rewrite He. }
  rewrite Heq in Hr |- *. now destruct (Hs e tt Hr).
Qed.


Lemma noHook_keeps name rowFunc : hookKeepsExporter (noHook name rowFunc).
Proof. intros h e H. discriminate. Qed.

End Exporter.

(** * The properties of UseRowChan *)

Section UseRowChanFacts.

Import UseRowChan.

(** The error is recorded before the channel is closed. *)
Lemma recorded_before_closed p schedule :
  forall st st',
    (goroutine st = Recorded \/ goroutine st = Closed -> sendErr st = returns p) ->
    run p schedule st = Some st' ->
    (goroutine st' = Recorded \/ goroutine st' = Closed -> sendErr st' = returns p).
Proof.
  induction schedule as [| t rest IH]; intros st st' Hst Hrun; simpl in Hrun.
  - now injection Hrun as <-.
  - destruct (step p t st) as [st1 | ] eqn:Hstep; [ | discriminate].
    apply (IH st1 st'); [ | exact Hrun]. clear IH Hrun.
    unfold step in Hstep.
    destruct t, st as [g c se out]; simpl in *.
    + destruct c as [| | row ok].
      * injection Hstep as <-. simpl. destruct g; simpl; auto.
        intros [H | H]; discriminate.
      * destruct g as [| [| row rest'] | | ]; try discriminate;
          injection Hstep as <-; simpl; auto.
        intros [H | H]; discriminate.
      * injection Hstep as <-. simpl. auto.
    + destruct g as [| [| row rest'] | | ]; try discriminate.
      * injection Hstep as <-. reflexivity.
      * destruct c; try discriminate. injection Hstep as <-. simpl.
        intros [H | H]; discriminate.
      * injection Hstep as <-. simpl. auto.
Qed.

Lemma closed_stays p schedule :
  forall st st',
    goroutine st = Closed -> holdsNoRow (caller st) ->
    run p schedule st = Some st' ->
    goroutine st' = Closed /\ holdsNoRow (caller st') /\ sendErr st' = sendErr st /\
    exists k, returned st' = returned st ++ repeat (emptyRow, sendErr st) k.
Proof.
  induction schedule as [| t rest IH]; intros st st' Hg Hc Hrun; simpl in Hrun.
  - injection Hrun as <-. repeat split; auto. exists 0%nat. simpl. now rewrite app_nil_r.
  - destruct (step p t st) as [st1 | ] eqn:Hstep; [ | discriminate].
    destruct st as [g c se out]. simpl in Hg, Hc. subst g.
    destruct t; simpl in Hstep; [ | discriminate].
    destruct c as [| | row [|]]; try (now destruct Hc); injection Hstep as <-.
    + apply (IH _ st') in Hrun; simpl; auto.
    + apply (IH _ st') in Hrun; simpl; auto.
    + apply (IH _ st') in Hrun; simpl; auto.
      destruct Hrun as (H1 & H2 & H3 & k & H4). simpl in *.
      repeat split; auto. exists (S k). rewrite H4, <- app_assoc. simpl.
      f_equal. f_equal. unfold answer. now destruct se.
Qed.

(** C5 (calls after the close).  Once the goroutine has closed the channel,
    [sendErr] holds what [sendDataFunc] returned; and from then on every call
    of the closure that does not already hold a row received before the close
    returns the recorded error when there is one, and otherwise [Row{}], the
    end-of-data sentinel, with a nil error: whatever the schedule, and a call
    run on its own does return. *)
Theorem calls_after_close p before st :
  run p before start = Some st ->
  goroutine st = Closed ->
  holdsNoRow (caller st) ->
  sendErr st = returns p /\
  Cells emptyRow = None /\
  (forall schedule st',
     run p schedule st = Some st' ->
     exists k, returned st' = returned st ++ repeat (emptyRow, returns p) k) /\
  (caller st = Idle ->
   exists st', run p oneCall st = Some st' /\
               returned st' = returned st ++ [(emptyRow, returns p)]).
Proof.
  intros Hrun Hg Hc.
  assert (Hs : sendErr st = returns p).
  { eapply recorded_before_closed; [ | exact Hrun | now right].
    simpl. intros [H | H]; discriminate. }
  split; [exact Hs | ]. split; [reflexivity | ]. split.
  - intros schedule st' Hrun'.
    destruct (@closed_stays p schedule st st' Hg Hc Hrun') as (_ & _ & _ & k & Hk).
    exists k. now rewrite Hk, Hs.
  - intros Hidle. destruct st as [g c se out]. simpl in *. subst g c se.
    eexists. split; [reflexivity | ]. simpl. unfold answer. now destruct (returns p).
Qed.

(** [calls_after_close] at a producer that sends one row and fails: the
    caller takes the row, the goroutine records the error and closes. *)
Lemma calls_after_close_witness :
  let x := ErrorString "query failed" in
  let row := mkRow (Some []) [] [] in
  let p := mkProducer [row] (Some x) in
  let before := oneCall ++ [TheGoroutine; TheGoroutine] in
  let st := mkState Closed Idle (Some x) [(row, None)] in
  run p before start = Some st /\
  goroutine st = Closed /\
  holdsNoRow (caller st) /\
  (forall schedule st',
     run p schedule st = Some st' ->
     exists k, returned st' = returned st ++ repeat (emptyRow, returns p) k) /\
  (exists st', run p oneCall st = Some st' /\
               returned st' = returned st ++ [(emptyRow, returns p)]).
Proof.
  intros x row p before st.
  assert (H1 : run p before start = Some st) by reflexivity.
  assert (H2 : goroutine st = Closed) by reflexivity.
  assert (H3 : holdsNoRow (caller st)) by exact I.
  destruct (@calls_after_close p before st H1 H2 H3) as (_ & _ & Hall & Hone).
  split; [exact H1 | ]. split; [exact H2 | ]. split; [exact H3 | ].
  split; [exact Hall | exact (Hone eq_refl)].
Defined.

(** C3 (rows, then the error), as the code has it.  A producer sends [r0],
    [r1], [r2] and returns the error [x].  When the goroutine assigns
    [sendErr] after the caller has received [r2] and before the caller reads
    [sendErr], the third call returns the error and [r2] is never returned:
    the calls return [r0], [r1], [x], [x].  When the caller reads first, they
    return [r0], [r1], [r2], [x]. *)
Theorem last_row_lost_to_the_error r0 r1 r2 x :
  let p := mkProducer [r0; r1; r2] (Some x) in
  run p lateRead start =
    Some (mkState Closed Idle (Some x)
            [(r0, None); (r1, None); (emptyRow, Some x); (emptyRow, Some x)]) /\
  run p earlyRead start =
    Some (mkState Closed Idle (Some x)
            [(r0, None); (r1, None); (r2, None); (emptyRow, Some x)]).
Proof. split; cbv; reflexivity. Qed.

(** ** Every schedule *)

Lemma skipn_cons_next {A} (k : nat) (l : list A) (a : A) (rest : list A) :
  skipn k l = a :: rest ->
  firstn (S k) l = firstn k l ++ [a] /\ skipn (S k) l = rest.
Proof.
  revert l. induction k as [| k IH]; intros [| b l] H; simpl in H; try discriminate.
  - injection H as -> ->. split; reflexivity.
  - destruct (IH l H) as [H1 H2]. split; [ | exact H2].
    change (firstn (S (S k)) (b :: l)) with (b :: firstn (S k) l). now rewrite H1.
Qed.

Lemma skipn_nil_all {A} (k : nat) (l : list A) : skipn k l = [] -> firstn k l = l.
Proof.
  intros H. rewrite <- (firstn_skipn k l) at 2. rewrite H. now rewrite app_nil_r.
Qed.

Lemma skipn_last {A} (k : nat) (l : list A) (a : A) :
  skipn k l = [a] -> l = firstn k l ++ [a] /\ firstn k l = removelast l /\ l <> [].
Proof.
  intros H. assert (Hl : l = firstn k l ++ [a]).
  { rewrite <- H. symmetry. apply firstn_skipn. }
  split; [exact Hl | ]. split.
  - rewrite Hl at 2. now rewrite removelast_last.
  - intros ->. now destruct k.
Qed.

Lemma delivered_app l1 l2 : delivered (l1 ++ l2) = delivered l1 ++ delivered l2.
Proof. apply map_app. Qed.

Lemma answer_closed row se : answer row false se = (emptyRow, se).
Proof. now destruct se. Qed.

Lemma through_next p out :
  through p out -> through p (out ++ [(emptyRow, returns p)]).
Proof.
  intros [m [H | (H1 & H2 & H)]]; subst out.
  - exists (S m). left. rewrite <- app_assoc. f_equal.
    change (repeat (emptyRow, returns p) m ++ [(emptyRow, returns p)] =
            (emptyRow, returns p) :: repeat (emptyRow, returns p) m).
    symmetry. apply repeat_cons.
  - exists (S m). right. split; [exact H1 | ]. split; [exact H2 | ].
    rewrite <- app_assoc. f_equal.
    change (repeat (emptyRow, returns p) (S m) ++ [(emptyRow, returns p)] =
            (emptyRow, returns p) :: repeat (emptyRow, returns p) (S m)).
    symmetry. apply repeat_cons.
Qed.

Lemma through_all p k :
  skipn k (sends p) = [] -> through p (delivered (firstn k (sends p))).
Proof.
  intros H. rewrite (skipn_nil_all _ _ H). exists 0%nat. left. simpl. now rewrite app_nil_r.
Qed.

Lemma through_answer p k row :
  skipn k (sends p) = [row] ->
  through p (delivered (firstn k (sends p)) ++ [answer row true (returns p)]).
Proof.
  intros H. destruct (skipn_last _ _ H) as (Hl & Hr & Hne).
  destruct (returns p) as [x | ] eqn:Hx; simpl.
  - exists 0%nat. right. rewrite Hx. split; [discriminate | ]. split; [exact Hne | ].
    now rewrite Hr.
  - exists 0%nat. left. rewrite Hx. simpl. rewrite app_nil_r.
    rewrite Hl at 2. now rewrite delivered_app.
Qed.

Lemma start_consistent p : consistent p start.
Proof. repeat split. Qed.

Lemma step_consistent p t st st' :
  consistent p st -> step p t st = Some st' -> consistent p st'.
Proof.
  destruct st as [g c se out]. unfold consistent, step. simpl.
  intros Hc Hstep. destruct t.
  - destruct c as [| | row ok].
    + injection Hstep as <-. simpl.
      destruct g as [| rest | | ]; simpl; auto.
      destruct Hc as (_ & -> & ->). split; [reflexivity | ]. exists 0%nat. split; reflexivity.
    + destruct g as [| [| row rest] | | ]; try discriminate; injection Hstep as <-; simpl.
      * destruct Hc as (Hs & k & Ho & Hk). split; [exact Hs | ]. exists k. auto.
      * destruct Hc as (Hs & Ht). auto.
    + injection Hstep as <-. simpl.
      destruct g as [| rest | | ]; simpl.
      * destruct Hc as (Hc & _). discriminate.
      * destruct Hc as (-> & k & -> & -> & Hk). split; [reflexivity | ].
        destruct (skipn_cons_next _ _ Hk) as (H1 & H2).
        exists (S k). rewrite H1, delivered_app. simpl. auto.
      * destruct Hc as (-> & Hc). split; [reflexivity | ].
        destruct ok.
        -- destruct Hc as (k & -> & Hk). now apply through_answer.
        -- destruct Hc as (Hg & _). discriminate.
      * destruct Hc as (-> & Hc). split; [reflexivity | ].
        destruct ok.
        -- destruct Hc as (k & -> & Hk). now apply through_answer.
        -- destruct Hc as (_ & Ht). rewrite answer_closed. now apply through_next.
  - destruct g as [| [| row rest] | | ]; try discriminate.
    + injection Hstep as <-. simpl. split; [reflexivity | ].
      destruct Hc as (_ & k & -> & Hk).
      destruct c as [| | row ok].
      * now apply through_all.
      * now apply through_all.
      * destruct Hk as (-> & Hk). exists k. auto.
    + destruct c; try discriminate. injection Hstep as <-. simpl.
      destruct Hc as (Hs & k & Ho & Hk). split; [exact Hs | ]. exists k. auto.
    + injection Hstep as <-. simpl. destruct Hc as (Hs & Hc). split; [exact Hs | ].
      destruct c as [| | row [|]]; auto. destruct Hc as (Hg & _). discriminate.
Qed.

Lemma run_consistent p schedule :
  forall st st', consistent p st -> run p schedule st = Some st' -> consistent p st'.
Proof.
  induction schedule as [| t rest IH]; intros st st' Hc Hrun; simpl in Hrun.
  - now injection Hrun as <-.
  - destruct (step p t st) as [st1 | ] eqn:Hstep; [ | discriminate].
    apply (IH st1 st'); [ | exact Hrun]. now apply step_consistent with (t := t) (st := st).
Qed.

(** X21 (the rows come in order).  Under every schedule the calls of the
    closure return the producer's rows in the order they were sent, each once
    and with a nil error, and after them only [Row{}] with what the producer
    returned.  No row is missing but, at most, the last one, and that only
    when the producer returned an error: a producer that returns nil loses
    none. *)
Theorem rows_return_in_order p schedule st :
  run p schedule start = Some st ->
  exists k m,
    returned st = delivered (firstn k (sends p)) ++ repeat (emptyRow, returns p) m /\
    (m = 0%nat \/ (List.length (sends p) <= k)%nat \/
     (S k = List.length (sends p) /\ returns p <> None)).
Proof.
  intros Hrun. pose proof (@run_consistent p schedule start st (start_consistent p) Hrun) as Hc.
  assert (Hthrough : through p (returned st) ->
    exists k m,
      returned st = delivered (firstn k (sends p)) ++ repeat (emptyRow, returns p) m /\
      (m = 0%nat \/ (List.length (sends p) <= k)%nat \/
       (S k = List.length (sends p) /\ returns p <> None))).
  { intros [m [H | (H1 & H2 & H)]].
    - exists (List.length (sends p)), m. rewrite firstn_all. split; [exact H | ]. right. left.
      apply Nat.le_refl.
    - exists (pred (List.length (sends p))), (S m).
      rewrite <- removelast_firstn_len. split; [exact H | ]. right. right.
      split; [ | exact H1]. destruct (sends p); [contradiction | reflexivity]. }
  assert (Hpart : forall k, returned st = delivered (firstn k (sends p)) ->
    exists k m,
      returned st = delivered (firstn k (sends p)) ++ repeat (emptyRow, returns p) m /\
      (m = 0%nat \/ (List.length (sends p) <= k)%nat \/
       (S k = List.length (sends p) /\ returns p <> None))).
  { intros k H. exists k, 0%nat. simpl. rewrite app_nil_r. auto. }
  unfold consistent in Hc.
  destruct (goroutine st) as [| rest | | ].
  - destruct Hc as (_ & H & _). apply (Hpart 0%nat). exact H.
  - destruct Hc as (_ & k & H & _). now apply (Hpart k).
  - destruct Hc as (_ & Hc). destruct (caller st) as [| | row [|]]; auto.
    + destruct Hc as (k & H & _). now apply (Hpart k).
    + destruct Hc as (_ & H). auto.
  - destruct Hc as (_ & Hc). destruct (caller st) as [| | row [|]]; auto.
    + destruct Hc as (k & H & _). now apply (Hpart k).
    + destruct Hc as (_ & H). auto.
Qed.

(** [rows_return_in_order] at a producer of two rows that fails, when the
    error is assigned before the second call reads it. *)
Lemma rows_return_in_order_witness :
  let x := ErrorString "query failed" in
  let r0 := mkRow (Some []) [] [] in
  let r1 := mkRow (Some [mkCell (VInt 1) 0 ""]) [] [] in
  let p := mkProducer [r0; r1] (Some x) in
  let schedule := oneCall ++ [TheCaller; TheCaller; TheGoroutine; TheCaller] in
  let st := mkState Recorded Idle (Some x) [(r0, None); (emptyRow, Some x)] in
  run p schedule start = Some st /\
  exists k m,
    returned st = delivered (firstn k (sends p)) ++ repeat (emptyRow, returns p) m /\
    (m = 0%nat \/ (List.length (sends p) <= k)%nat \/
     (S k = List.length (sends p) /\ returns p <> None)).
Proof.
  intros x r0 r1 p schedule st.
  assert (H : run p schedule start = Some st) by reflexivity.
  split; [exact H | exact (@rows_return_in_order p schedule st H)].
Defined.

(** X22 (the producer waits for the caller).  The channel is not buffered:
    [sendDataFunc] has returned, and the channel is closed, only when the
    caller has received as many times as there are rows.  A caller that stops
    calling earlier leaves the goroutine at its send. *)
Theorem producer_ends_after_the_receives p schedule st :
  run p schedule start = Some st ->
  goroutine st = Recorded \/ goroutine st = Closed ->
  (List.length (sends p) <= receives st)%nat.
Proof.
  intros Hrun Hg. pose proof (@run_consistent p schedule start st (start_consistent p) Hrun) as Hc.
  assert (Hthrough : through p (returned st) ->
                     (List.length (sends p) <= List.length (returned st))%nat).
  { intros [m [H | (H1 & H2 & H)]]; rewrite H, length_app; unfold delivered;
      rewrite length_map.
    - apply Nat.le_add_r.
    - rewrite repeat_length, removelast_firstn_len, length_firstn.
      destruct (sends p); [contradiction | simpl; lia]. }
  assert (Hheld : forall k row, returned st = delivered (firstn k (sends p)) ->
                                skipn k (sends p) = [row] ->
                                (List.length (sends p) <= List.length (returned st) + 1)%nat).
  { intros k row H Hk. destruct (skipn_last _ _ Hk) as (Hl & _ & _).
    rewrite H. unfold delivered. rewrite length_map. rewrite Hl at 1.
    rewrite length_app. simpl. lia. }
  unfold consistent in Hc. unfold receives.
  destruct Hg as [Hg | Hg]; rewrite Hg in Hc; destruct Hc as (_ & Hc);
    destruct (caller st) as [| | row [|]];
    try (apply Hthrough in Hc; lia);
    try (destruct Hc as (k & H & Hk); now apply (Hheld k row));
    destruct Hc as (_ & Hc); apply Hthrough in Hc; lia.
Qed.

(** [producer_ends_after_the_receives] when the caller holds the second of
    two rows. *)
Lemma producer_ends_after_the_receives_witness :
  let r0 := mkRow (Some []) [] [] in
  let p := mkProducer [r0; r0] None in
  let schedule := oneCall ++ [TheCaller; TheCaller; TheGoroutine] in
  let st := mkState Recorded (Received r0 true) None [(r0, None)] in
  run p schedule start = Some st /\
  (goroutine st = Recorded \/ goroutine st = Closed) /\
  (List.length (sends p) <= receives st)%nat.
Proof.
  intros r0 p schedule st.
  assert (H : run p schedule start = Some st) by reflexivity.
  assert (Hg : goroutine st = Recorded \/ goroutine st = Closed) by (left; reflexivity).
  split; [exact H | ]. split; [exact Hg | ].
  exact (@producer_ends_after_the_receives p schedule st H Hg).
Defined.

(** X23 (no call is stuck).  Whatever has happened so far, a call of the
    closure that is in progress can return: the goroutine and the caller
    never wait for each other for ever while the producer only sends its rows
    and returns. *)
Theorem call_in_progress_can_return p schedule st :
  run p schedule start = Some st ->
  caller st <> Idle ->
  exists more st' a,
    run p more st = Some st' /\ caller st' = Idle /\
    returned st' = returned st ++ [a].
Proof.
  intros Hrun Hcall. pose proof (@run_consistent p schedule start st (start_consistent p) Hrun) as Hc.
  destruct st as [g c se out]. unfold consistent in Hc. simpl in *.
  destruct c as [| | row ok]; [contradiction | | ].
  - destruct g as [| [| row rest] | | ].
    + destruct Hc as (Hc & _). discriminate.
    + exists [TheGoroutine; TheGoroutine; TheCaller; TheCaller]. eexists. eexists.
      simpl. split; [reflexivity | ]. simpl. split; reflexivity.
    + exists [TheCaller; TheCaller]. eexists. eexists.
      simpl. split; [reflexivity | ]. simpl. split; reflexivity.
    + exists [TheGoroutine; TheCaller; TheCaller]. eexists. eexists.
      simpl. split; [reflexivity | ]. simpl. split; reflexivity.
    + exists [TheCaller; TheCaller]. eexists. eexists.
      simpl. split; [reflexivity | ]. simpl. split; reflexivity.
  - exists [TheCaller]. eexists. eexists.
    simpl. split; [reflexivity | ]. simpl. split; reflexivity.
Qed.

(** [call_in_progress_can_return] at a second call that waits for the
    close. *)
Lemma call_in_progress_can_return_witness :
  let r0 := mkRow (Some []) [] [] in
  let p := mkProducer [r0] None in
  let schedule := oneCall ++ [TheCaller; TheGoroutine] in
  let st := mkState Recorded Receiving None [(r0, None)] in
  run p schedule start = Some st /\
  caller st <> Idle /\
  exists more st' a,
    run p more st = Some st' /\ caller st' = Idle /\
    returned st' = returned st ++ [a].
Proof.
  intros r0 p schedule st.
  assert (H : run p schedule start = Some st) by reflexivity.
  assert (Hc : caller st <> Idle) by discriminate.
  split; [exact H | ]. split; [exact Hc | ].
  exact (@call_in_progress_can_return p schedule st H Hc).
Defined.

End UseRowChanFacts.

(** * The theorems at concrete inputs, on the reference workbook *)

Section Concrete.

Import RefBook.

Lemma listSource_feeds (all rows : list Row) :
  Forall (fun row => Cells row <> None) rows ->
  forall i, feeds (listSource all) i rows rows.
Proof.
  induction 1 as [| row rest Hrow _ IH]; intros i.
  - exists emptyRow, []. split; reflexivity.
  - exists rest. split; [reflexivity | ]. split; [exact Hrow | ]. apply IH.
Qed.

Lemma listSource_Feeds (rows : list Row) :
  Forall (fun row => Cells row <> None) rows -> Feeds (listSource rows) rows.
Proof. intros H. now apply listSource_feeds. Qed.

Lemma repeat_present (row : Row) (n : nat) :
  Cells row <> None -> Forall (fun r => Cells r <> None) (repeat row n).
Proof.
  intros H. apply Forall_forall. intros r Hr. apply repeat_spec in Hr. now subst.
Qed.

(** Two rows through the streaming strategy: every call, in order. *)
Example stream_of_two_rows :
  events (trace (Export 5 [noHook "Data" (listSource [oneCell 7; styledRow])] (New "out.xlsx" true))) =
    [EvNewSheet "Data"; EvDeleteSheet "Sheet1";
     EvInit "Data"; EvNewStreamWriter "Data" (Some "Data");
     EvPull 0 (oneCell 7); EvWriteRow "Data" 1 (oneCell 7);
     EvSetRow "Data" "A1" [mkCell (VInt 7) 0 ""] [];
     EvPull 1 styledRow; EvWriteRow "Data" 2 styledRow;
     EvSetRow "Data" "A2"
       [mkCell (VString "total") 3 ""; mkCell (VInt 0) 0 "SUM(B1:B9)"] [];
     EvStreamMergeCell "Data" "A1" "A2";
     EvPull 2 emptyRow;
     EvFlush "Data"; EvSaveAs "out.xlsx"; EvClose].
Proof. reflexivity. Qed.

(** The same two rows through the buffered strategy. *)
Example memory_of_two_rows :
  events (trace (Export 5 [noHook "Data" (listSource [oneCell 7; styledRow])] (New "out.xlsx" false))) =
    [EvNewSheet "Data"; EvDeleteSheet "Sheet1";
     EvInit "Data";
     EvPull 0 (oneCell 7); EvWriteRow "Data" 1 (oneCell 7);
     EvSetCellValue "Data" "A1" (VInt 7);
     EvPull 1 styledRow; EvWriteRow "Data" 2 styledRow;
     EvSetCellValue "Data" "A2" (VString "total"); EvSetCellStyle "Data" "A2" "A2" 3;
     EvSetCellValue "Data" "B2" (VInt 0); EvSetCellFormula "Data" "B2" "SUM(B1:B9)";
     EvMergeCell "Data" "A1" "A2";
     EvPull 2 emptyRow;
     EvSaveAs "out.xlsx"; EvClose].
Proof. reflexivity. Qed.

(** [split_after_SheetMaxRows] at a source of [SheetMaxRows + 1] rows. *)
Lemma split_after_SheetMaxRows_witness :
  let rows := repeat (oneCell 1) (Z.to_nat (SheetMaxRows + 1)) in
  let sheet : @SheetData Workbook string := noHook "Data" (listSource rows) in
  let fuel := S (List.length rows) in
  let e := New "out.xlsx" true in
  hookKeepsExporter sheet /\
  Feeds (RowFunc sheet) rows /\
  (List.length rows < fuel)%nat /\
  Z.of_nat (List.length rows) = SheetMaxRows + 1 /\
  result (exportOne fuel 0 sheet e) <> Diverge /\
  (result (exportOne fuel 0 sheet e) = Ret tt ->
   List.length (skipn (Z.to_nat SheetMaxRows) rows) = 1%nat /\
   layout (trace (exportOne fuel 0 sheet e)) =
     EvNewSheet (Name sheet) :: EvInit (Name sheet) :: hookRun sheet (Name sheet) ++
     writeBlock (Name sheet) 1 (firstn (Z.to_nat SheetMaxRows) rows) ++
     EvNewSheet (Name sheet ++ "_1") :: EvInit (Name sheet ++ "_1") ::
     hookRun sheet (Name sheet ++ "_1") ++
     writeBlock (Name sheet ++ "_1") 1 (skipn (Z.to_nat SheetMaxRows) rows)).
Proof.
  intros rows sheet fuel e.
  assert (H1 : hookKeepsExporter sheet) by apply noHook_keeps.
  assert (H2 : Feeds (RowFunc sheet) rows).
  { apply listSource_Feeds, repeat_present. discriminate. }
  assert (H3 : (List.length rows < fuel)%nat) by apply Nat.lt_succ_diag_r.
  assert (H4 : Z.of_nat (List.length rows) = SheetMaxRows + 1).
  { unfold rows. rewrite repeat_length. apply Z2Nat.id.
    pose proof SheetMaxRows_eq as HN. lia. }
  destruct (@split_after_SheetMaxRows _ _ _ fuel 0 sheet rows e H1 H2 H3) as (Hd & _ & Hl).
  split; [exact H1 | ]. split; [exact H2 | ]. split; [exact H3 | ].
  split; [exact H4 | ]. split; [exact Hd | ].
  intros Hr. destruct (Hl Hr) as [Hover _]. destruct (Hover H4) as (_ & Hs & Hlay).
  split; [exact Hs | exact Hlay].
Defined.

(** [nil_cells_end_the_rows] at a source that returns one row of zero cells
    and then the sentinel: one pull more than rows, one row written. *)
Lemma nil_cells_end_the_rows_witness :
  let sheet : @SheetData Workbook string := noHook "Data" (listSource [zeroWidthRow]) in
  let e := New "out.xlsx" false in
  hookKeepsExporter sheet /\
  Feeds (RowFunc sheet) [zeroWidthRow] /\
  Z.of_nat (List.length [zeroWidthRow]) <= SheetMaxRows /\
  (List.length [zeroWidthRow] < 2)%nat /\
  result (exportOne 2 0 sheet e) = Ret tt /\
  pullsOf (trace (exportOne 2 0 sheet e)) = [0; 1] /\
  filter isWrite (events (trace (exportOne 2 0 sheet e))) =
    [EvWriteRow "Data" 1 zeroWidthRow].
Proof.
  intros sheet e.
  assert (H1 : hookKeepsExporter sheet) by apply noHook_keeps.
  assert (H2 : Feeds (RowFunc sheet) [zeroWidthRow]).
  { apply listSource_Feeds. repeat constructor. discriminate. }
  assert (H3 : Z.of_nat (List.length [zeroWidthRow]) <= SheetMaxRows).
  { rewrite SheetMaxRows_eq. simpl. lia. }
  assert (H4 : (List.length [zeroWidthRow] < 2)%nat) by (simpl; lia).
  destruct (@nil_cells_end_the_rows _ _ _ 2%nat 0 sheet [zeroWidthRow] e H1 H2 H3 H4)
    as (_ & _ & Hw & _).
  split; [exact H1 | ]. split; [exact H2 | ]. split; [exact H3 | ]. split; [exact H4 | ].
  split; [reflexivity | ]. split; [reflexivity | ]. exact (Hw eq_refl).
Defined.

(** [flush_before_stream_switch] at two specs on a fresh streaming exporter,
    for the stream opened on the second spec's sheet. *)
Lemma flush_before_stream_switch_witness :
  let sheets : list (@SheetData Workbook string) := [noHook "First" (listSource [oneCell 1]); noHook "Second" (listSource [styledRow])] in
  let e := New "out.xlsx" true in
  let pre := [mkCall (EvNewSheet "First") None; mkCall (EvDeleteSheet "Sheet1") None;
              mkCall (EvInit "First") None;
              mkCall (EvNewStreamWriter "First" (Some "First")) None;
              mkCall (EvPull 0 (oneCell 1)) None;
              mkCall (EvWriteRow "First" 1 (oneCell 1)) None;
              mkCall (EvSetRow "First" "A1" [mkCell (VInt 1) 0 ""] []) None;
              mkCall (EvPull 1 emptyRow) None;
              mkCall (EvFlush "First") None;
              mkCall (EvNewSheet "Second") None;
              mkCall (EvInit "Second") None;
              mkCall (EvFlush "First") None] in
  let c := mkCall (EvNewStreamWriter "Second" (Some "Second")) None in
  let post := [mkCall (EvPull 0 styledRow) None;
               mkCall (EvWriteRow "Second" 1 styledRow) None;
               mkCall (EvSetRow "Second" "A1"
                         [mkCell (VString "total") 3 ""; mkCell (VInt 0) 0 "SUM(B1:B9)"] [])
                      None;
               mkCall (EvStreamMergeCell "Second" "A1" "A2") None;
               mkCall (EvPull 1 emptyRow) None;
               mkCall (EvFlush "Second") None;
               mkCall (EvSaveAs "out.xlsx") None;
               mkCall EvClose None] in
  UseStreamWriter e = true /\
  Forall hookKeepsExporter sheets /\
  (sheets <> [] \/ StreamWriter e = None) /\
  trace (Export 5 sheets e) = pre ++ c :: post /\
  isSwitch (what c) = true /\
  heldAfter (StreamWriter e) pre = Some "First" /\
  exists pre', pre = pre' ++ [mkCall (EvFlush "First") None].
Proof.
  intros sheets e pre c post.
  assert (H1 : UseStreamWriter e = true) by reflexivity.
  assert (H2 : Forall hookKeepsExporter sheets) by (repeat constructor; apply noHook_keeps).
  assert (H3 : sheets <> [] \/ StreamWriter e = None) by (right; reflexivity).
  assert (H4 : trace (Export 5 sheets e) = pre ++ c :: post) by reflexivity.
  assert (H5 : isSwitch (what c) = true) by reflexivity.
  assert (H6 : heldAfter (StreamWriter e) pre = Some "First") by reflexivity.
  split; [exact H1 | ]. split; [exact H2 | ]. split; [exact H3 | ].
  split; [exact H4 | ]. split; [exact H5 | ]. split; [exact H6 | ].
  exact (@flush_before_stream_switch _ _ _ 5%nat sheets e pre c post "First"
           H1 H2 H3 H4 H5 H6).
Defined.

(** [first_error_aborts_export] at a source whose first pull fails, with a
    second spec that is never reached. *)
Lemma first_error_aborts_export_witness :
  let x := ErrorString "cursor lost" in
  let sheets : list (@SheetData Workbook string) :=
    [mkSheetData "Data" (failingSource x) None; noHook "Never" (listSource [oneCell 1])] in
  let e := New "out.xlsx" false in
  let pre := [mkCall (EvNewSheet "Data") None; mkCall (EvDeleteSheet "Sheet1") None;
              mkCall (EvInit "Data") None] in
  let c := mkCall (EvPull 0 emptyRow) (Some x) in
  let post := [mkCall EvClose None] in
  trace (Export 5 sheets e) = pre ++ c :: post /\
  failed c = Some x /\
  what c <> EvClose /\
  (exists x', result (Export 5 sheets e) = Raise x' /\ carries x' x).
Proof.
  intros x sheets e pre c post.
  assert (H1 : trace (Export 5 sheets e) = pre ++ c :: post) by reflexivity.
  assert (H2 : failed c = Some x) by reflexivity.
  assert (H3 : what c <> EvClose) by discriminate.
  split; [exact H1 | ]. split; [exact H2 | ]. split; [exact H3 | ].
  exact (proj1 (@first_error_aborts_export _ _ _ 5%nat sheets e pre c post x H1 H2 H3)).
Defined.

(** [Sheet1_spec_reuses_placeholder] at a spec named "Sheet1". *)
Lemma Sheet1_spec_reuses_placeholder_witness :
  let rows := [oneCell 1; oneCell 2] in
  let sheet : @SheetData Workbook string := noHook "Sheet1" (listSource rows) in
  let more : list (@SheetData Workbook string) := [noHook "Other" (listSource [oneCell 3])] in
  Name sheet = "Sheet1" /\
  SheetCount (fst (NewSheet "Sheet1" NewFile)) = 1 /\
  hookKeepsExporter sheet /\
  Feeds (RowFunc sheet) rows /\
  Z.of_nat (List.length rows) <= SheetMaxRows /\
  deletesOf (trace (Export 5 (sheet :: more) (New "out.xlsx" true))) = [] /\
  filter isWrite (events (trace (exportOne 5 0 sheet (New "out.xlsx" true)))) =
    [EvWriteRow "Sheet1" 1 (oneCell 1); EvWriteRow "Sheet1" 2 (oneCell 2)].
Proof.
  intros rows sheet more.
  assert (H1 : Name sheet = "Sheet1") by reflexivity.
  assert (H2 : SheetCount (fst (NewSheet "Sheet1" NewFile)) = 1) by reflexivity.
  assert (H3 : hookKeepsExporter sheet) by apply noHook_keeps.
  assert (H4 : Feeds (RowFunc sheet) rows).
  { apply listSource_Feeds. repeat constructor; discriminate. }
  assert (H5 : Z.of_nat (List.length rows) <= SheetMaxRows).
  { rewrite SheetMaxRows_eq. simpl. lia. }
  destruct (@Sheet1_spec_reuses_placeholder _ _ _ 5%nat sheet more rows "out.xlsx" true
              H1 H2 H3 H4 H5) as (Hd & Hw & _).
  split; [exact H1 | ]. split; [exact H2 | ]. split; [exact H3 | ]. split; [exact H4 | ].
  split; [exact H5 | ]. split; [exact Hd | ].
  exact (Hw eq_refl).
Defined.

(** ** The further properties at concrete inputs *)

Lemma refBook_streamOrError : @streamOrError Workbook string refBook.
Proof.
  intros name b. simpl. unfold bookNewStreamWriter.
  destruct (hasSheet name b); simpl; [discriminate | intros H; discriminate].
Qed.

(** [rows_are_placed_by_index] at two rows. *)
Lemma rows_are_placed_by_index_witness :
  let rows := [oneCell 7; styledRow] in
  let sheet : @SheetData Workbook string := noHook "Data" (listSource rows) in
  let e := New "out.xlsx" false in
  hookKeepsExporter sheet /\
  Feeds (RowFunc sheet) rows /\
  Z.of_nat (List.length rows) < 2 ^ 63 /\
  result (exportOne 5 0 sheet e) = Ret tt /\
  filter isWrite (events (trace (exportOne 5 0 sheet e))) =
    [EvWriteRow "Data" 1 (oneCell 7); EvWriteRow "Data" 2 styledRow].
Proof.
  intros rows sheet e.
  assert (H1 : hookKeepsExporter sheet) by apply noHook_keeps.
  assert (H2 : Feeds (RowFunc sheet) rows).
  { apply listSource_Feeds. repeat constructor; discriminate. }
  assert (H3 : Z.of_nat (List.length rows) < 2 ^ 63) by reflexivity.
  assert (H4 : result (exportOne 5 0 sheet e) = Ret tt) by reflexivity.
  split; [exact H1 | ]. split; [exact H2 | ]. split; [exact H3 | ]. split; [exact H4 | ].
  exact (eq_trans (@rows_are_placed_by_index _ _ _ 5%nat 0 sheet rows e H1 H2 H3 H4) eq_refl).
Defined.

(** [sheets_created_for_a_spec] at two rows: one sheet. *)
Lemma sheets_created_for_a_spec_witness :
  let rows := [oneCell 7; styledRow] in
  let sheet : @SheetData Workbook string := noHook "Data" (listSource rows) in
  let e := New "out.xlsx" true in
  hookKeepsExporter sheet /\
  Feeds (RowFunc sheet) rows /\
  Z.of_nat (List.length rows) < 2 ^ 63 /\
  result (exportOne 5 0 sheet e) = Ret tt /\
  sheetsOf (trace (exportOne 5 0 sheet e)) = ["Data"].
Proof.
  intros rows sheet e.
  assert (H1 : hookKeepsExporter sheet) by apply noHook_keeps.
  assert (H2 : Feeds (RowFunc sheet) rows).
  { apply listSource_Feeds. repeat constructor; discriminate. }
  assert (H3 : Z.of_nat (List.length rows) < 2 ^ 63) by reflexivity.
  assert (H4 : result (exportOne 5 0 sheet e) = Ret tt) by reflexivity.
  split; [exact H1 | ]. split; [exact H2 | ]. split; [exact H3 | ]. split; [exact H4 | ].
  exact (eq_trans (@sheets_created_for_a_spec _ _ _ 5%nat 0 sheet rows e H1 H2 H3 H4) eq_refl).
Defined.

(** [error_returned_by_origin] at a spec with a blank name: the error of
    [NewSheet] comes back wrapped. *)
Lemma error_returned_by_origin_witness :
  let sheets : list (@SheetData Workbook string) := [noHook "" (listSource [oneCell 1])] in
  let e := New "out.xlsx" false in
  let x0 := ErrorString "the sheet name can not be blank" in
  let x := Wrapf "failed to create a new sheet: " x0 in
  result (Export 5 sheets e) = Raise x /\
  exists pre c x0' err,
    trace (Export 5 sheets e) = pre ++ [c; mkCall EvClose err] /\
    failed c = Some x0' /\
    x = returnedFor (what c) x0'.
Proof.
  intros sheets e x0 x.
  assert (H : result (Export 5 sheets e) = Raise x) by reflexivity.
  split; [exact H | ].
  exact (@error_returned_by_origin _ _ _ 5%nat sheets e x H).
Defined.

(** [file_saved_once_at_the_end] at one spec of one row. *)
Lemma file_saved_once_at_the_end_witness :
  let sheets : list (@SheetData Workbook string) := [noHook "Data" (listSource [oneCell 1])] in
  let e := New "out.xlsx" false in
  Forall hookKeepsExporter sheets /\
  exists pre err,
    trace (Export 5 sheets e) =
      pre ++ [mkCall (EvSaveAs "out.xlsx") None; mkCall EvClose err].
Proof.
  intros sheets e.
  assert (H : Forall hookKeepsExporter sheets).
  { repeat constructor. apply noHook_keeps. }
  split; [exact H | ].
  exact (proj1 (proj1 (@file_saved_once_at_the_end _ _ _ 5%nat sheets e H)) eq_refl).
Defined.

(** [endless_source_never_returns_nil] at a source that returns the same row
    for ever. *)
Lemma endless_source_never_returns_nil_witness :
  let sheet : @SheetData Workbook string := noHook "Data" (endlessSource (oneCell 1)) in
  let e := New "out.xlsx" false in
  In sheet [sheet] /\
  neverEnds (RowFunc sheet) /\
  result (Export 3 [sheet] e) <> Ret tt.
Proof.
  intros sheet e.
  assert (H1 : In sheet [sheet]) by (left; reflexivity).
  assert (H2 : neverEnds (RowFunc sheet)).
  { intros i s. exists (oneCell 1), s. split; [reflexivity | discriminate]. }
  split; [exact H1 | ]. split; [exact H2 | ].
  exact (@endless_source_never_returns_nil _ _ _ 3%nat [sheet] sheet e H1 H2).
Defined.

(** [buffered_export_uses_no_stream] at a buffered exporter. *)
Lemma buffered_export_uses_no_stream_witness :
  let sheets : list (@SheetData Workbook string) := [noHook "Data" (listSource [styledRow])] in
  let e := New "out.xlsx" false in
  UseStreamWriter e = false /\
  Forall hookKeepsExporter sheets /\
  Forall bufferedCall (trace (Export 5 sheets e)) /\
  result (Export 5 sheets e) <> Panic.
Proof.
  intros sheets e.
  assert (H1 : UseStreamWriter e = false) by reflexivity.
  assert (H2 : Forall hookKeepsExporter sheets).
  { repeat constructor. apply noHook_keeps. }
  split; [exact H1 | ]. split; [exact H2 | ].
  exact (@buffered_export_uses_no_stream _ _ _ 5%nat sheets e H1 H2).
Defined.

(** [streamed_export_does_not_panic] at a streaming exporter on the reference
    workbook. *)
Lemma streamed_export_does_not_panic_witness :
  let sheets : list (@SheetData Workbook string) := [noHook "Data" (listSource [styledRow])] in
  let e := New "out.xlsx" true in
  UseStreamWriter e = true /\
  Forall hookKeepsExporter sheets /\
  @streamOrError Workbook string refBook /\
  Forall streamedCall (trace (Export 5 sheets e)) /\
  result (Export 5 sheets e) <> Panic.
Proof.
  intros sheets e.
  assert (H1 : UseStreamWriter e = true) by reflexivity.
  assert (H2 : Forall hookKeepsExporter sheets).
  { repeat constructor. apply noHook_keeps. }
  split; [exact H1 | ]. split; [exact H2 | ]. split; [exact refBook_streamOrError | ].
  exact (@streamed_export_does_not_panic _ _ _ 5%nat sheets e H1 H2 refBook_streamOrError).
Defined.

(** [buffered_cells_of_a_spec] at two rows: every call on a cell. *)
Lemma buffered_cells_of_a_spec_witness :
  let rows := [oneCell 7; styledRow] in
  let sheet : @SheetData Workbook string := noHook "Data" (listSource rows) in
  let e := New "out.xlsx" false in
  UseStreamWriter e = false /\
  hookKeepsExporter sheet /\
  Feeds (RowFunc sheet) rows /\
  Z.of_nat (List.length rows) < 2 ^ 63 /\
  result (exportOne 5 0 sheet e) = Ret tt /\
  cellsIn (trace (exportOne 5 0 sheet e)) =
    [EvSetCellValue "Data" "A1" (VInt 7);
     EvSetCellValue "Data" "A2" (VString "total"); EvSetCellStyle "Data" "A2" "A2" 3;
     EvSetCellValue "Data" "B2" (VInt 0); EvSetCellFormula "Data" "B2" "SUM(B1:B9)";
     EvMergeCell "Data" "A1" "A2"].
Proof.
  intros rows sheet e.
  assert (H0 : UseStreamWriter e = false) by reflexivity.
  assert (H1 : hookKeepsExporter sheet) by apply noHook_keeps.
  assert (H2 : Feeds (RowFunc sheet) rows).
  { apply listSource_Feeds. repeat constructor; discriminate. }
  assert (H3 : Z.of_nat (List.length rows) < 2 ^ 63) by reflexivity.
  assert (H4 : result (exportOne 5 0 sheet e) = Ret tt) by reflexivity.
  split; [exact H0 | ]. split; [exact H1 | ]. split; [exact H2 | ]. split; [exact H3 | ].
  split; [exact H4 | ].
  exact (eq_trans (@buffered_cells_of_a_spec _ _ _ 5%nat 0 sheet rows e H0 H1 H2 H3 H4) eq_refl).
Defined.

(** [specs_are_exported_in_order] at two specs. *)
Lemma specs_are_exported_in_order_witness :
  let rows1 := [oneCell 1; oneCell 2] in
  let rows2 := [styledRow] in
  let sheets : list (@SheetData Workbook string) :=
    [noHook "First" (listSource rows1); noHook "Second" (listSource rows2)] in
  let e := New "out.xlsx" true in
  Forall hookKeepsExporter sheets /\
  Forall2 fed sheets [rows1; rows2] /\
  result (Export 5 sheets e) = Ret tt /\
  filter isWrite (events (trace (Export 5 sheets e))) =
    [EvWriteRow "First" 1 (oneCell 1); EvWriteRow "First" 2 (oneCell 2);
     EvWriteRow "Second" 1 styledRow] /\
  sheetsOf (trace (Export 5 sheets e)) = ["First"; "Second"].
Proof.
  intros rows1 rows2 sheets e.
  assert (H1 : Forall hookKeepsExporter sheets).
  { repeat constructor; apply noHook_keeps. }
  assert (H2 : Forall2 fed sheets [rows1; rows2]).
  { repeat constructor; try reflexivity;
      apply listSource_Feeds; repeat constructor; discriminate. }
  assert (H3 : result (Export 5 sheets e) = Ret tt) by reflexivity.
  destruct (@specs_are_exported_in_order _ _ _ 5%nat sheets [rows1; rows2] e H1 H2 H3)
    as [Hw Hs].
  split; [exact H1 | ]. split; [exact H2 | ]. split; [exact H3 | ].
  split; [exact (eq_trans Hw eq_refl) | exact (eq_trans Hs eq_refl)].
Defined.

(** [streamed_rows_reach_their_sheet] at the [SetRow] of the one row of a
    streamed spec. *)
Lemma streamed_rows_reach_their_sheet_witness :
  let sheets : list (@SheetData Workbook string) := [noHook "First" (listSource [oneCell 1])] in
  let e := New "out.xlsx" true in
  let pre := [mkCall (EvNewSheet "First") None; mkCall (EvDeleteSheet "Sheet1") None;
              mkCall (EvInit "First") None;
              mkCall (EvNewStreamWriter "First" (Some "First")) None;
              mkCall (EvPull 0 (oneCell 1)) None;
              mkCall (EvWriteRow "First" 1 (oneCell 1)) None] in
  let c := mkCall (EvSetRow "First" "A1" [mkCell (VInt 1) 0 ""] []) None in
  let post := [mkCall (EvPull 1 emptyRow) None; mkCall (EvFlush "First") None;
               mkCall (EvSaveAs "out.xlsx") None; mkCall EvClose None] in
  UseStreamWriter e = true /\
  Forall hookKeepsExporter sheets /\
  trace (Export 5 sheets e) = pre ++ c :: post /\
  inPlace (opened (StreamWriter e, None) pre) c.
Proof.
  intros sheets e pre c post.
  assert (H1 : UseStreamWriter e = true) by reflexivity.
  assert (H2 : Forall hookKeepsExporter sheets).
  { repeat constructor. apply noHook_keeps. }
  assert (H3 : trace (Export 5 sheets e) = pre ++ c :: post) by reflexivity.
  split; [exact H1 | ]. split; [exact H2 | ]. split; [exact H3 | ].
  exact (@streamed_rows_reach_their_sheet _ _ _ 5%nat sheets e pre c post H1 H2 H3).
Defined.

(** [stream_flushed_again_by_next_spec] at two specs. *)
Lemma stream_flushed_again_by_next_spec_witness :
  let s1 : @SheetData Workbook string := noHook "First" (listSource [oneCell 1]) in
  let s2 : @SheetData Workbook string := noHook "Second" (listSource [styledRow]) in
  let e := New "out.xlsx" true in
  UseStreamWriter e = true /\
  Forall hookKeepsExporter ([] ++ s1 :: s2 :: []) /\
  result (Export 5 ([] ++ s1 :: s2 :: []) e) = Ret tt /\
  exists sw pre post,
    trace (Export 5 ([] ++ s1 :: s2 :: []) e) =
      pre ++
      [mkCall (EvFlush sw) None; mkCall (EvNewSheet (Name s2)) None;
       mkCall (EvInit (Name s2)) None; mkCall (EvFlush sw) None] ++
      post.
Proof.
  intros s1 s2 e.
  assert (H1 : UseStreamWriter e = true) by reflexivity.
  assert (H2 : Forall hookKeepsExporter ([] ++ s1 :: s2 :: [])).
  { repeat constructor; apply noHook_keeps. }
  assert (H3 : result (Export 5 ([] ++ s1 :: s2 :: []) e) = Ret tt) by reflexivity.
  split; [exact H1 | ]. split; [exact H2 | ]. split; [exact H3 | ].
  exact (@stream_flushed_again_by_next_spec _ _ _ 5%nat [] s1 s2 [] e H1 H2 H3).
Defined.

(** [streams_of_a_spec_flushed_once] at a first spec: one stream opened, one
    flush. *)
Lemma streams_of_a_spec_flushed_once_witness :
  let sheet : @SheetData Workbook string := noHook "Data" (listSource [oneCell 1]) in
  let e := New "out.xlsx" true in
  UseStreamWriter e = true /\
  hookKeepsExporter sheet /\
  result (exportOne 5 0 sheet e) = Ret tt /\
  flushedIn (trace (exportOne 5 0 sheet e)) = ["Data"].
Proof.
  intros sheet e.
  assert (H1 : UseStreamWriter e = true) by reflexivity.
  assert (H2 : hookKeepsExporter sheet) by apply noHook_keeps.
  assert (H3 : result (exportOne 5 0 sheet e) = Ret tt) by reflexivity.
  split; [exact H1 | ]. split; [exact H2 | ]. split; [exact H3 | ].
  exact (eq_trans (@streams_of_a_spec_flushed_once _ _ _ 5%nat 0 sheet e H1 H2 H3) eq_refl).
Defined.

(** [Export_comes_to_an_end] at two specs, of two rows and of none. *)
Lemma Export_comes_to_an_end_witness :
  let sheets : list (@SheetData Workbook string) :=
    [noHook "First" (listSource [oneCell 1; oneCell 2]); noHook "Second" (listSource [])] in
  let e := New "out.xlsx" false in
  Forall2 (fedWithin 3) sheets [[oneCell 1; oneCell 2]; []] /\
  result (Export 3 sheets e) <> Diverge.
Proof.
  intros sheets e.
  assert (H : Forall2 (fedWithin 3) sheets [[oneCell 1; oneCell 2]; []]).
  { repeat constructor; try (simpl; lia);
      apply listSource_Feeds; repeat constructor; discriminate. }
  split; [exact H | ].
  exact (@Export_comes_to_an_end _ _ _ 3%nat sheets [[oneCell 1; oneCell 2]; []] e H).
Defined.

(** [one_stream_for_each_sheet] at two rows. *)
Lemma one_stream_for_each_sheet_witness :
  let rows := [oneCell 7; styledRow] in
  let sheet : @SheetData Workbook string := noHook "Data" (listSource rows) in
  let e := New "out.xlsx" true in
  UseStreamWriter e = true /\
  hookKeepsExporter sheet /\
  Feeds (RowFunc sheet) rows /\
  Z.of_nat (List.length rows) < 2 ^ 63 /\
  result (exportOne 5 0 sheet e) = Ret tt /\
  opensOf (trace (exportOne 5 0 sheet e)) = ["Data"].
Proof.
  intros rows sheet e.
  assert (H0 : UseStreamWriter e = true) by reflexivity.
  assert (H1 : hookKeepsExporter sheet) by apply noHook_keeps.
  assert (H2 : Feeds (RowFunc sheet) rows).
  { apply listSource_Feeds. repeat constructor; discriminate. }
  assert (H3 : Z.of_nat (List.length rows) < 2 ^ 63) by reflexivity.
  assert (H4 : result (exportOne 5 0 sheet e) = Ret tt) by reflexivity.
  split; [exact H0 | ]. split; [exact H1 | ]. split; [exact H2 | ]. split; [exact H3 | ].
  split; [exact H4 | ].
  exact (eq_trans (@one_stream_for_each_sheet _ _ _ 5%nat 0 sheet rows e H0 H1 H2 H3 H4) eq_refl).
Defined.


(** [exporter_after_a_streamed_export] at one spec of one row. *)
Lemma exporter_after_a_streamed_export_witness :
  let sheets : list (@SheetData Workbook string) := [noHook "Data" (listSource [oneCell 1])] in
  let e := New "out.xlsx" true in
  UseStreamWriter e = true /\
  sheets <> [] /\
  Forall hookKeepsExporter sheets /\
  result (Export 5 sheets e) = Ret tt /\
  FileName (final (Export 5 sheets e)) = "out.xlsx" /\
  StreamWriter (final (Export 5 sheets e)) = Some "Data".
Proof.
  intros sheets e.
  assert (H1 : UseStreamWriter e = true) by reflexivity.
  assert (H2 : sheets <> []) by discriminate.
  assert (H3 : Forall hookKeepsExporter sheets).
  { repeat constructor. apply noHook_keeps. }
  assert (H4 : result (Export 5 sheets e) = Ret tt) by reflexivity.
  destruct (@exporter_after_a_streamed_export _ _ _ 5%nat sheets e H1 H2 H3 H4)
    as (Hn & _ & _).
  split; [exact H1 | ]. split; [exact H2 | ]. split; [exact H3 | ]. split; [exact H4 | ].
  split; [exact Hn | reflexivity].
Defined.

(** [streamed_cells_of_a_spec] at two rows: every call on a cell. *)
Lemma streamed_cells_of_a_spec_witness :
  let rows := [oneCell 7; styledRow] in
  let sheet : @SheetData Workbook string := noHook "Data" (listSource rows) in
  let e := New "out.xlsx" true in
  UseStreamWriter e = true /\
  hookKeepsExporter sheet /\
  result (exportOne 5 0 sheet e) = Ret tt /\
  cellsIn (trace (exportOne 5 0 sheet e)) =
    [EvSetRow "Data" "A1" [mkCell (VInt 7) 0 ""] [];
     EvSetRow "Data" "A2" [mkCell (VString "total") 3 ""; mkCell (VInt 0) 0 "SUM(B1:B9)"] [];
     EvStreamMergeCell "Data" "A1" "A2"].
Proof.
  intros rows sheet e.
  assert (H0 : UseStreamWriter e = true) by reflexivity.
  assert (H1 : hookKeepsExporter sheet) by apply noHook_keeps.
  assert (H4 : result (exportOne 5 0 sheet e) = Ret tt) by reflexivity.
  split; [exact H0 | ]. split; [exact H1 | ]. split; [exact H4 | ].
  exact (eq_trans (@streamed_cells_of_a_spec _ _ _ 5%nat 0 sheet e H0 H1 H4) eq_refl).
Defined.

End Concrete.
